(** * The lobby / turn state machine of the card game (src/lobby.py)

    A shallow embedding of [lobby.py]: the deck with its discard pile, the
    players, the table, the four phases and the lobby that routes every
    action to the active phase.

    Python objects that are shared and mutated in place (players) live in a
    heap indexed by object identity; a raised exception leaves every
    mutation made before it in place, so a computation returns the world it
    reached together with its outcome. *)

From stdpp Require Import gmap list strings.
From Stdlib Require Import ZArith Lia.

Open Scope Z_scope.

(** ** Exceptions *)

Inductive Error : Type :=
  | CardNotInPlayerHandError
  | PlayerNotLeadError
  | PlayerNotOwnerError
  | NotAllCardsOpenedError
  | UnknownPlayerError
  | PlayerAlreadyReadyError
  | ScoreTooLowError
  | NotImplementedError
  | IndexError           (* list.pop / random.choice on an empty list *)
  | ValueError           (* list.remove of an absent element *)
  | AttributeError       (* a phase without the method called on it *)
  | MethodNotExpected    (* the [raise Exception(...)] of the base State *)
  | LoopBoundExceeded.   (* the bound of a modelled [while]; never raised *)

Inductive Outcome (A : Type) : Type :=
  | Ok (a : A)
  | Raise (e : Error).
Arguments Ok {A} a.
Arguments Raise {A} e.

(** ** Cards *)

Record SetupCard : Type := {
  setup_id : Z;
  setup_text : string;
  setup_case : string;
  starts_with_punchline : bool }.

(** A punchline card is a dataclass instance: [==] compares the fields,
    [is] compares the object, which [card_obj] stands for. *)
Record PunchlineCard : Type := {
  card_obj : nat;
  card_id : Z;
  card_text : list (string * list string) }.

#[global] Instance SetupCard_eq_dec : EqDecision SetupCard.
Proof. solve_decision. Defined.
#[global] Instance PunchlineCard_eq_dec : EqDecision PunchlineCard.
Proof. solve_decision. Defined.

Definition card_is (c1 c2 : PunchlineCard) : bool :=
  bool_decide (card_obj c1 = card_obj c2).

Definition card_eq (c1 c2 : PunchlineCard) : bool :=
  bool_decide (card_id c1 = card_id c2) && bool_decide (card_text c1 = card_text c2).

(** The comparison of [x in list] and [list.remove(x)]: identity first,
    then [==]. *)
Definition card_same (c1 c2 : PunchlineCard) : bool :=
  card_is c1 c2 || card_eq c1 c2.

(** ** The [random] module

    The generator is a tape of the numbers its successive draws produce;
    an exhausted tape keeps answering 0.  [randbelow], [shuffle] and
    [choice] follow CPython's [random.py]. *)

Definition Rng : Type := list nat.

Definition randbelow (n : nat) (g : Rng) : nat * Rng :=
  match g with
  | [] => (0%nat, [])
  | r :: g' => ((r mod n)%nat, g')
  end.

(** [x[i], x[j] = x[j], x[i]] *)
Definition swap {A} (i j : nat) (x : list A) : list A :=
  match x !! i, x !! j with
  | Some a, Some b => <[j:=a]> (<[i:=b]> x)
  | _, _ => x
  end.

(** [for i in reversed(range(1, len(x))): j = randbelow(i + 1); swap],
    entered with [i = len(x) - 1]. *)
Fixpoint shuffle_from {A} (i : nat) (x : list A) (g : Rng) : list A * Rng :=
  match i with
  | O => (x, g)
  | S i' =>
      let '(j, g') := randbelow (S i) g in
      shuffle_from i' (swap i j x) g'
  end.

Definition shuffle {A} (x : list A) (g : Rng) : list A * Rng :=
  shuffle_from (length x - 1)%nat x g.

(** [random.choice(seq)]: [IndexError] on an empty sequence. *)
Definition choice {A} (x : list A) (g : Rng) : Outcome A * Rng :=
  match x with
  | [] => (Raise IndexError, g)
  | _ =>
      let '(j, g') := randbelow (length x) g in
      (match x !! j with Some a => Ok a | None => Raise IndexError end, g')
  end.

(** ** Deck *)

Record Deck (C : Type) : Type := {
  cards : list C;     (* the draw pile; [pop()] takes its last element *)
  _dump : list C }.   (* the discard pile *)
Arguments cards {C} d.
Arguments _dump {C} d.
Arguments Build_Deck {C} cards _dump.

Module Deck.

(** [Deck(cards)]: the list becomes the draw pile and is shuffled. *)
Definition init {C} (cs : list C) (g : Rng) : Deck C * Rng :=
  let '(cs', g') := shuffle cs g in
  ({| cards := cs'; _dump := [] |}, g').

(** [list.pop()] *)
Definition pop {C} (l : list C) : option (C * list C) :=
  match reverse l with
  | [] => None
  | c :: r => Some (c, reverse r)
  end.

Definition get_card {C} (d : Deck C) (g : Rng) : Outcome C * Deck C * Rng :=
  let '(d1, g1) :=
    match cards d with
    | [] =>
        let '(cs, g') := shuffle (_dump d) g in
        ({| cards := cs; _dump := [] |}, g')
    | _ => (d, g)
    end in
  match pop (cards d1) with
  | Some (c, rest) => (Ok c, {| cards := rest; _dump := _dump d1 |}, g1)
  | None => (Raise IndexError, d1, g1)
  end.

Definition dump {C} (d : Deck C) (cs : list C) : Deck C :=
  {| cards := cards d; _dump := _dump d ++ cs |}.

End Deck.

(** ** Players, table entries, settings, phases *)

(** A player object is named by its identity.  [Player has no __eq__], so
    [in], [is] and set membership all compare identities. *)
Definition pid : Type := nat.

(** The fields of [Player] the lobby reads or writes.  [uuid], [profile]
    and [token] are opaque to it; the observer is modelled by the event log
    of the world. *)
Record Player : Type := {
  hand : list PunchlineCard;
  score : Z;
  is_ready : bool;
  is_connected : bool }.

(** [Player(profile, token)] *)
Definition new_player : Player :=
  {| hand := []; score := 0; is_ready := false; is_connected := false |}.

#[global] Instance Player_inhabited : Inhabited Player := populate new_player.

Definition set_hand (h : list PunchlineCard) (p : Player) : Player :=
  {| hand := h; score := score p; is_ready := is_ready p; is_connected := is_connected p |}.
Definition set_score (s : Z) (p : Player) : Player :=
  {| hand := hand p; score := s; is_ready := is_ready p; is_connected := is_connected p |}.
Definition set_is_ready (b : bool) (p : Player) : Player :=
  {| hand := hand p; score := score p; is_ready := b; is_connected := is_connected p |}.
Definition set_is_connected (b : bool) (p : Player) : Player :=
  {| hand := hand p; score := score p; is_ready := is_ready p; is_connected := b |}.

Record CardOnTable : Type := {
  cot_card : PunchlineCard;
  cot_player : pid;
  is_open : bool }.

#[global] Instance CardOnTable_eq_dec : EqDecision CardOnTable.
Proof. solve_decision. Defined.

Record LobbySettings : Type := {
  turn_duration : option Z;
  winning_score : Z;
  finish_delay : Z;
  start_turn_delay : Z }.

(** The phase objects with the attributes their constructors set.  The
    timer of [Turns] is the handle of its scheduled task. *)
Inductive State : Type :=
  | Gathering
  | Turns (setup : SetupCard) (timer : nat)
  | Judgement (setup : SetupCard) (winner : option pid)
  | Finished (winner : pid) (setup : SetupCard).

Definition HAND_SIZE : nat := 10.

Record Lobby : Type := {
  players : list pid;
  lead : option pid;
  owner : option pid;
  table : list CardOnTable;
  grave : gset pid;
  punchlines : Deck PunchlineCard;
  setups : Deck SetupCard;
  settings : LobbySettings;
  turn_count : Z;
  is_game_endless : bool;
  state : State }.

Definition set_players v (l : Lobby) : Lobby :=
  Build_Lobby v (lead l) (owner l) (table l) (grave l) (punchlines l) (setups l)
    (settings l) (turn_count l) (is_game_endless l) (state l).
Definition set_lead v (l : Lobby) : Lobby :=
  Build_Lobby (players l) v (owner l) (table l) (grave l) (punchlines l) (setups l)
    (settings l) (turn_count l) (is_game_endless l) (state l).
Definition set_owner v (l : Lobby) : Lobby :=
  Build_Lobby (players l) (lead l) v (table l) (grave l) (punchlines l) (setups l)
    (settings l) (turn_count l) (is_game_endless l) (state l).
Definition set_table v (l : Lobby) : Lobby :=
  Build_Lobby (players l) (lead l) (owner l) v (grave l) (punchlines l) (setups l)
    (settings l) (turn_count l) (is_game_endless l) (state l).
Definition set_grave v (l : Lobby) : Lobby :=
  Build_Lobby (players l) (lead l) (owner l) (table l) v (punchlines l) (setups l)
    (settings l) (turn_count l) (is_game_endless l) (state l).
Definition set_punchlines v (l : Lobby) : Lobby :=
  Build_Lobby (players l) (lead l) (owner l) (table l) (grave l) v (setups l)
    (settings l) (turn_count l) (is_game_endless l) (state l).
Definition set_setups v (l : Lobby) : Lobby :=
  Build_Lobby (players l) (lead l) (owner l) (table l) (grave l) (punchlines l) v
    (settings l) (turn_count l) (is_game_endless l) (state l).
Definition set_settings v (l : Lobby) : Lobby :=
  Build_Lobby (players l) (lead l) (owner l) (table l) (grave l) (punchlines l) (setups l)
    v (turn_count l) (is_game_endless l) (state l).
Definition set_turn_count v (l : Lobby) : Lobby :=
  Build_Lobby (players l) (lead l) (owner l) (table l) (grave l) (punchlines l) (setups l)
    (settings l) v (is_game_endless l) (state l).
Definition set_is_game_endless v (l : Lobby) : Lobby :=
  Build_Lobby (players l) (lead l) (owner l) (table l) (grave l) (punchlines l) (setups l)
    (settings l) (turn_count l) v (state l).
Definition set_state v (l : Lobby) : Lobby :=
  Build_Lobby (players l) (lead l) (owner l) (table l) (grave l) (punchlines l) (setups l)
    (settings l) (turn_count l) (is_game_endless l) v.

(** ** Observers and scheduled tasks *)

(** One constructor per method of [LobbyObserver]. *)
Inductive Event : Type :=
  | owner_changed (p : option pid)
  | player_disconnected (p : pid)
  | player_joined (p : pid)
  | player_left (p : pid)
  | player_connected (p : pid)
  | game_started (p : pid)
  | turn_started (setup : SetupCard) (duration : option Z) (ld : option pid)
      (count : Z) (card : option PunchlineCard)
  | player_ready (p : pid)
  | table_card_opened (c : CardOnTable)
  | turn_ended (winner : pid) (card : PunchlineCard)
  | all_players_ready
  | game_finished (winner : pid)
  | welcome
  | hand_refreshed (new_hand : list PunchlineCard)
  | player_score_changed (p : pid).

(** The coroutines handed to [asyncio.create_task]: the closure of each
    keeps the phase object ([self.setup]) it was created in. *)
Inductive Task : Type :=
  | turn_timer
  | finish_game_task (setup : SetupCard) (winner : pid)
  | start_turn_task (setup : SetupCard).

(** ** The world *)

Record World : Type := {
  heap : gmap pid Player;         (* the player objects *)
  lobby : Lobby;
  rng : Rng;
  events : list (pid * Event);    (* calls made on [pl.observer], oldest first *)
  tasks : list (nat * Task);      (* created and neither run nor cancelled *)
  next_task : nat }.

Definition set_heap v (w : World) : World :=
  Build_World v (lobby w) (rng w) (events w) (tasks w) (next_task w).
Definition set_lobby v (w : World) : World :=
  Build_World (heap w) v (rng w) (events w) (tasks w) (next_task w).
Definition set_rng v (w : World) : World :=
  Build_World (heap w) (lobby w) v (events w) (tasks w) (next_task w).
Definition set_events v (w : World) : World :=
  Build_World (heap w) (lobby w) (rng w) v (tasks w) (next_task w).
Definition set_tasks v (w : World) : World :=
  Build_World (heap w) (lobby w) (rng w) (events w) v (next_task w).
Definition set_next_task v (w : World) : World :=
  Build_World (heap w) (lobby w) (rng w) (events w) (tasks w) v.

(** The player object behind an identity; an identity never written to
    reads as a freshly constructed player. *)
Definition player_at (w : World) (p : pid) : Player := heap w !!! p.

(** ** Computations: state, with exceptions that keep the state *)

Definition M (A : Type) : Type := World → Outcome A * World.

Definition ret {A} (a : A) : M A := λ w, (Ok a, w).
Definition raise {A} (e : Error) : M A := λ w, (Raise e, w).
Definition bind {A B} (m : M A) (k : A → M B) : M B :=
  λ w, match m w with
       | (Ok a, w') => k a w'
       | (Raise e, w') => (Raise e, w')
       end.

Notation "'do' x <- m ; k" := (bind m (λ x, k))
  (at level 10, x name, m at level 100, k at level 200).
Notation "m ;;; k" := (bind m (λ _, k))
  (at level 100, k at level 200, right associativity).

Definition get_world : M World := λ w, (Ok w, w).
Definition get_lobby : M Lobby := λ w, (Ok (lobby w), w).
Definition modify_lobby (f : Lobby → Lobby) : M unit :=
  λ w, (Ok tt, set_lobby (f (lobby w)) w).
Definition get_player (p : pid) : M Player := λ w, (Ok (player_at w p), w).
Definition modify_player (p : pid) (f : Player → Player) : M unit :=
  λ w, (Ok tt, set_heap (<[p := f (player_at w p)]> (heap w)) w).

(** [for x in l: body(x)] *)
Fixpoint for_each {A} (l : list A) (body : A → M unit) : M unit :=
  match l with
  | [] => ret tt
  | x :: l' => body x ;;; for_each l' body
  end.

(** [for _ in range(n): body()] *)
Fixpoint repeat_n (n : nat) (body : M unit) : M unit :=
  match n with
  | O => ret tt
  | S n' => body ;;; repeat_n n' body
  end.

(** [pl.observer.<event>(...)] *)
Definition notify (to : pid) (e : Event) : M unit :=
  λ w, (Ok tt, set_events (events w ++ [(to, e)]) w).

Definition notify_all (tos : list pid) (e : Event) : M unit :=
  for_each tos (λ pl, notify pl e).

(** [asyncio.create_task(...)] and [Task.cancel()] *)
Definition create_task (t : Task) : M nat :=
  λ w, (Ok (next_task w),
        set_next_task (S (next_task w)) (set_tasks (tasks w ++ [(next_task w, t)]) w)).

Definition cancel_task (h : nat) : M unit :=
  λ w, (Ok tt, set_tasks (filter (λ ht, ht.1 ≠ h) (tasks w)) w).

(** ** Python list primitives *)

(** [list.remove(x)]: drops the first element that is the same as [x];
    [None] stands for its [ValueError]. *)
Fixpoint list_remove {A} (same : A → bool) (l : list A) : option (list A) :=
  match l with
  | [] => None
  | x :: l' => if same x then Some l' else cons x <$> list_remove same l'
  end.

(** [x in hand] *)
Definition card_in (c : PunchlineCard) (h : list PunchlineCard) : bool :=
  existsb (card_same c) h.

(** ** Lobby *)

Module Lobby.

Definition all_players (l : Lobby) : list pid :=
  match lead l with
  | None => players l
  | Some ld => ld :: players l
  end.

Definition all_players_except (l : Lobby) (player : pid) : list pid :=
  filter (λ p, p ≠ player) (all_players l).

Definition card_on_table_of (l : Lobby) (player : pid) : option CardOnTable :=
  find (λ c, bool_decide (cot_player c = player)) (table l).

Definition get_card_from_table (card : PunchlineCard) : M CardOnTable :=
  do l <- get_lobby;
  match find (λ c, card_is card (cot_card c)) (table l) with
  | Some c => ret c
  | None => raise NotImplementedError
  end.

(** [self.punchlines.get_card()] and [self.setups.get_card()] *)
Definition draw_punchline : M PunchlineCard :=
  λ w, let '(r, d, g) := Deck.get_card (punchlines (lobby w)) (rng w) in
       (r, set_rng g (set_lobby (set_punchlines d (lobby w)) w)).

Definition draw_setup : M SetupCard :=
  λ w, let '(r, d, g) := Deck.get_card (setups (lobby w)) (rng w) in
       (r, set_rng g (set_lobby (set_setups d (lobby w)) w)).

Definition dump_punchlines (cs : list PunchlineCard) : M unit :=
  modify_lobby (λ l, set_punchlines (Deck.dump (punchlines l) cs) l).

Definition dump_setups (cs : list SetupCard) : M unit :=
  modify_lobby (λ l, set_setups (Deck.dump (setups l) cs) l).

(** [Player.add_punchline_card] *)
Definition add_punchline_card (player : pid) (card : PunchlineCard) : M unit :=
  modify_player player (λ p, set_hand (hand p ++ [card]) p).

Definition change_owner : M unit :=
  modify_lobby (set_owner None) ;;;
  do w <- get_world;
  match find (λ p, is_connected (player_at w p)) (all_players (lobby w)) with
  | Some p => modify_lobby (set_owner (Some p))
  | None => ret tt
  end.

Definition transit_to (new_state : State) : M unit :=
  modify_lobby (set_state new_state).

Definition change_lead : M unit :=
  do l <- get_lobby;
  match lead l with
  | Some ld => modify_lobby (set_players (players l ++ [ld]))
  | None => ret tt
  end ;;;
  do l <- get_lobby;
  match players l with
  | [] => raise IndexError
  | p :: rest => modify_lobby (λ l, set_lead (Some p) (set_players rest l))
  end.

Definition start_turn : M unit :=
  change_lead ;;;
  do new_setup <- draw_setup;
  modify_lobby (λ l, set_turn_count (turn_count l + 1) l) ;;;
  do timer <- create_task turn_timer;
  transit_to (Turns new_setup timer) ;;;
  do l <- get_lobby;
  for_each (all_players l) (λ pl,
    modify_player pl (set_is_ready false) ;;;
    do p <- get_player pl;
    do l <- get_lobby;
    if bool_decide (length (hand p) ≠ HAND_SIZE) then
      do new_card <- draw_punchline;
      add_punchline_card pl new_card ;;;
      notify pl (turn_started new_setup (turn_duration (settings l)) (lead l)
                   (turn_count l) (Some new_card))
    else
      notify pl (turn_started new_setup (turn_duration (settings l)) (lead l)
                   (turn_count l) None)).

Definition add_player (player : pid) : M unit :=
  modify_lobby (λ l, set_players (players l ++ [player]) l) ;;;
  do l <- get_lobby;
  notify_all (all_players l) (player_joined player).

(** [while len(player.hand) < HAND_SIZE: ...].  Each round adds one card,
    so [HAND_SIZE] rounds always suffice; the recursion runs on that
    bound. *)
Fixpoint top_up (bound : nat) (player : pid) : M unit :=
  do p <- get_player player;
  if bool_decide (length (hand p) < HAND_SIZE)%nat then
    match bound with
    | O => raise LoopBoundExceeded
    | S bound' =>
        do c <- draw_punchline;
        add_punchline_card player c ;;;
        top_up bound' player
    end
  else ret tt.

Definition connect (player : pid) : M unit :=
  do l <- get_lobby;
  (if bool_decide (player ∈ all_players l) then ret tt
   else if bool_decide (player ∈ grave l) then
     modify_lobby (λ l, set_grave (grave l ∖ {[player]}) l) ;;;
     add_player player
   else raise UnknownPlayerError) ;;;
  do l <- get_lobby;
  match state l with
  | Gathering => ret tt
  | _ => top_up HAND_SIZE player
  end ;;;
  do l <- get_lobby;
  notify_all (all_players_except l player) (player_connected player).

Definition disconnect (player : pid) : M unit :=
  do l <- get_lobby;
  notify_all (all_players_except l player) (player_disconnected player).

End Lobby.

(** ** Phase: Turns

    The methods take the attributes of [self] ([setup], [timer]) as
    arguments. *)

Module Turns.

Definition put_card_on_table (player : pid) (card : PunchlineCard) : M unit :=
  do p <- get_player player;
  if negb (card_in card (hand p)) then raise CardNotInPlayerHandError else
  do l <- get_lobby;
  match Lobby.card_on_table_of l player with
  | Some prev_card =>
      (* [CardOnTable] has no [__eq__]: [remove] looks for the object
         itself.  [prev_card] is the first entry of [player], and every
         entry with the same fields is an entry of [player], so the first
         entry with the same fields is [prev_card]. *)
      match list_remove (λ c, bool_decide (c = prev_card)) (table l) with
      | Some t => modify_lobby (set_table t)
      | None => raise ValueError
      end ;;;
      modify_player player (λ p, set_hand (hand p ++ [cot_card prev_card]) p)
  | None => ret tt
  end ;;;
  modify_lobby (λ l, set_table
    (table l ++ [{| cot_card := card; cot_player := player; is_open := false |}]) l) ;;;
  do p <- get_player player;
  match list_remove (card_same card) (hand p) with
  | Some h => modify_player player (set_hand h)
  | None => raise ValueError
  end ;;;
  modify_player player (set_is_ready true) ;;;
  do l <- get_lobby;
  notify_all (Lobby.all_players l) (player_ready player).

Definition random_choice (h : list PunchlineCard) : M PunchlineCard :=
  λ w, let '(r, g) := choice h (rng w) in (r, set_rng g w).

Definition shuffle_table : M unit :=
  λ w, let '(t, g) := shuffle (table (lobby w)) (rng w) in
       (Ok tt, set_rng g (set_lobby (set_table t (lobby w)) w)).

Definition end_turn (setup : SetupCard) : M unit :=
  do l <- get_lobby;
  for_each (players l) (λ player,
    do p <- get_player player;
    if is_connected p && negb (is_ready p) then
      do c <- random_choice (hand p);
      put_card_on_table player c
    else ret tt) ;;;
  shuffle_table ;;;
  do l <- get_lobby;
  notify_all (Lobby.all_players l) all_players_ready ;;;
  match lead l with
  | Some _ => Lobby.transit_to (Judgement setup None)
  | None => raise NotImplementedError
  end.

Definition try_end_turn (setup : SetupCard) (timer : nat) : M unit :=
  do w <- get_world;
  if existsb (λ pl, is_connected (player_at w pl) && negb (is_ready (player_at w pl)))
       (players (lobby w))
  then ret tt
  else cancel_task timer ;;; end_turn setup.

Definition remove_player (setup : SetupCard) (timer : nat) (player : pid) : M unit :=
  try_end_turn setup timer.

Definition make_turn (setup : SetupCard) (timer : nat)
    (player : pid) (card : PunchlineCard) : M unit :=
  put_card_on_table player card ;;;
  try_end_turn setup timer.

(** [[get_card() for _ in range(n)]] *)
Fixpoint draw_hand (n : nat) : M (list PunchlineCard) :=
  match n with
  | O => ret []
  | S n' =>
      do c <- Lobby.draw_punchline;
      do cs <- draw_hand n';
      ret (c :: cs)
  end.

Definition refresh_hand (player : pid) : M unit :=
  do p <- get_player player;
  if is_ready p then raise PlayerAlreadyReadyError else
  do new_hand <- draw_hand HAND_SIZE;
  do p <- get_player player;
  Lobby.dump_punchlines (hand p) ;;;
  modify_player player (set_hand new_hand) ;;;
  do p <- get_player player;
  if bool_decide (score p < 0) then raise ScoreTooLowError else
  modify_player player (λ p, set_score (score p - 1) p) ;;;
  notify player (hand_refreshed new_hand) ;;;
  do l <- get_lobby;
  notify_all (Lobby.all_players l) (player_score_changed player).

End Turns.

(** ** Phase: Judgement *)

Module Judgement.

Definition start_voting : M unit := raise NotImplementedError.

Definition remove_player (player : pid) : M unit :=
  do l <- get_lobby;
  if bool_decide (lead l = Some player) then start_voting else ret tt.

(** [card_on_table.is_open = True].  The argument is an entry object; a
    table holds each object once, so the entry written to is the first one
    with the same fields (an object that is not on the table leaves the
    table as it is). *)
Fixpoint open_entry (e : CardOnTable) (t : list CardOnTable) : list CardOnTable :=
  match t with
  | [] => []
  | c :: t' =>
      if bool_decide (c = e)
      then {| cot_card := cot_card c; cot_player := cot_player c; is_open := true |} :: t'
      else c :: open_entry e t'
  end.

Definition open_table_card (player : pid) (card_on_table : CardOnTable) : M unit :=
  do l <- get_lobby;
  if negb (bool_decide (lead l = Some player)) then raise PlayerNotLeadError else
  modify_lobby (λ l, set_table (open_entry card_on_table (table l)) l) ;;;
  notify_all (Lobby.all_players l)
    (table_card_opened {| cot_card := cot_card card_on_table;
                          cot_player := cot_player card_on_table; is_open := true |}).

Definition start_turn (setup : SetupCard) : M unit :=
  Lobby.dump_setups [setup] ;;;
  Lobby.start_turn.

Definition finish_game (setup : SetupCard) (winner : pid) : M unit :=
  do l <- get_lobby;
  notify_all (Lobby.all_players l) (game_finished winner) ;;;
  Lobby.transit_to (Finished winner setup).

(** The first player of the roster whose score is the winning score. *)
Definition first_at_winning_score (w : World) : option pid :=
  find (λ pl, bool_decide (score (player_at w pl) = winning_score (settings (lobby w))))
    (players (lobby w)).

Definition pick_turn_winner (setup : SetupCard)
    (player : pid) (card : PunchlineCard) : M unit :=
  do l <- get_lobby;
  if negb (bool_decide (lead l = Some player)) then raise PlayerNotLeadError else
  if existsb (λ c, negb (is_open c)) (table l) then raise NotAllCardsOpenedError else
  do card_on_table <- Lobby.get_card_from_table card;
  modify_player (cot_player card_on_table) (λ p, set_score (score p + 1) p) ;;;
  (* [self.winner = card_on_table.player]; [self] is the lobby's phase *)
  modify_lobby (set_state (Judgement setup (Some (cot_player card_on_table)))) ;;;
  notify_all (Lobby.all_players l) (turn_ended (cot_player card_on_table) card) ;;;
  Lobby.dump_punchlines (map cot_card (table l)) ;;;
  modify_lobby (set_table []) ;;;
  do w <- get_world;
  match (if is_game_endless (lobby w) then None else first_at_winning_score w) with
  | Some pl =>
      do _ <- create_task (finish_game_task setup pl);
      ret tt
  | None =>
      do _ <- create_task (start_turn_task setup);
      ret tt
  end.

End Judgement.

(** ** Phases: Gathering and Finished *)

Module Gathering.

Definition start_game (player : pid) (lobby_settings : LobbySettings)
    (setups : Deck SetupCard) (punchlines : Deck PunchlineCard) : M unit :=
  do l <- get_lobby;
  if negb (bool_decide (owner l = Some player)) then raise PlayerNotOwnerError else
  modify_lobby (set_setups setups) ;;;
  modify_lobby (set_punchlines punchlines) ;;;
  modify_lobby (set_settings lobby_settings) ;;;
  do l <- get_lobby;
  for_each (Lobby.all_players l) (λ pl,
    repeat_n HAND_SIZE
      (do c <- Lobby.draw_punchline; Lobby.add_punchline_card pl c) ;;;
    notify pl (game_started pl)) ;;;
  Lobby.start_turn.

End Gathering.

Module Finished.

Definition start_turn (setup : SetupCard) : M unit :=
  Lobby.dump_setups [setup] ;;;
  Lobby.start_turn.

Definition continue_game (setup : SetupCard) (player : pid) : M unit :=
  do l <- get_lobby;
  if negb (bool_decide (owner l = Some player)) then raise PlayerNotOwnerError else
  modify_lobby (set_is_game_endless true) ;;;
  start_turn setup.

(** The last line, [player.start_game(...)], goes through
    [self.lobby.state], which is the [Gathering] installed one line
    before: it runs [Gathering.start_game]. *)
Definition start_game (player : pid) (lobby_settings : LobbySettings)
    (setups : Deck SetupCard) (punchlines : Deck PunchlineCard) : M unit :=
  modify_lobby (set_table []) ;;;
  modify_lobby (set_turn_count 0) ;;;
  do l <- get_lobby;
  for_each (Lobby.all_players l) (λ pl,
    modify_player pl (set_hand []) ;;;
    modify_player pl (set_score 0)) ;;;
  Lobby.transit_to Gathering ;;;
  Gathering.start_game player lobby_settings setups punchlines.

End Finished.

(** ** Player: the actions, routed to the active phase *)

Module Player.

Definition start_game (player : pid) (lobby_settings : LobbySettings)
    (setups : Deck SetupCard) (punchlines : Deck PunchlineCard) : M unit :=
  do l <- get_lobby;
  match state l with
  | Gathering => Gathering.start_game player lobby_settings setups punchlines
  | Finished _ _ => Finished.start_game player lobby_settings setups punchlines
  | _ => raise AttributeError
  end.

Definition refresh_hand (player : pid) : M unit :=
  do l <- get_lobby;
  match state l with
  | Turns _ _ => Turns.refresh_hand player
  | _ => raise MethodNotExpected
  end.

Definition make_turn (player : pid) (card : PunchlineCard) : M CardOnTable :=
  do l <- get_lobby;
  match state l with
  | Turns setup timer => Turns.make_turn setup timer player card
  | _ => raise MethodNotExpected
  end ;;;
  Lobby.get_card_from_table card.

Definition open_table_card (player : pid) (card_on_table : CardOnTable) : M unit :=
  do l <- get_lobby;
  match state l with
  | Judgement _ _ => Judgement.open_table_card player card_on_table
  | _ => raise MethodNotExpected
  end.

Definition pick_turn_winner (player : pid) (card : PunchlineCard) : M unit :=
  do l <- get_lobby;
  match state l with
  | Judgement setup _ => Judgement.pick_turn_winner setup player card
  | _ => raise MethodNotExpected
  end.

Definition continue_game (player : pid) : M unit :=
  do l <- get_lobby;
  match state l with
  | Finished _ setup => Finished.continue_game setup player
  | _ => raise MethodNotExpected
  end.

Definition connect (player : pid) : M unit :=
  Lobby.connect player ;;;
  modify_player player (set_is_connected true) ;;;
  notify player welcome.

Definition disconnect (player : pid) : M unit :=
  modify_player player (set_is_connected false) ;;;
  Lobby.disconnect player.

End Player.

(** [self.state.end_turn()], as the round timer calls it. *)
Definition state_end_turn : M unit :=
  do l <- get_lobby;
  match state l with
  | Turns setup _ => Turns.end_turn setup
  | _ => raise MethodNotExpected
  end.

(** What a scheduled task does once its delay has passed. *)
Definition run_task (t : Task) : M unit :=
  match t with
  | turn_timer =>
      do l <- get_lobby;
      match turn_duration (settings l) with
      | Some d => if bool_decide (d = 0) then ret tt else state_end_turn
      | None => ret tt
      end
  | finish_game_task setup winner => Judgement.finish_game setup winner
  | start_turn_task setup => Judgement.start_turn setup
  end.

(** [self.state.remove_player(player)] *)
Definition state_remove_player (player : pid) : M unit :=
  do l <- get_lobby;
  match state l with
  | Turns setup timer => Turns.remove_player setup timer player
  | Judgement _ _ => Judgement.remove_player player
  | _ => ret tt
  end.

(** [Lobby.remove_player]; it comes after the phases because it ends in
    the hook of the active phase. *)
Definition Lobby_remove_player (player : pid) : M unit :=
  do l <- get_lobby;
  (if bool_decide (lead l = Some player) then modify_lobby (set_lead None) else ret tt) ;;;
  do l <- get_lobby;
  (if bool_decide (player ∈ players l) then
     match list_remove (λ p, bool_decide (p = player)) (players l) with
     | Some ps => modify_lobby (set_players ps)
     | None => raise ValueError
     end
   else ret tt) ;;;
  do l <- get_lobby;
  (if bool_decide (owner l = Some player) then
     Lobby.change_owner ;;;
     do l <- get_lobby;
     notify_all (Lobby.all_players_except l player) (owner_changed (owner l))
   else ret tt) ;;;
  modify_lobby (λ l, set_grave ({[player]} ∪ grave l) l) ;;;
  do l <- get_lobby;
  match Lobby.card_on_table_of l player with
  | Some card_on_table =>
      Lobby.dump_punchlines [cot_card card_on_table] ;;;
      match list_remove (λ c, bool_decide (c = card_on_table)) (table l) with
      | Some t => modify_lobby (set_table t)
      | None => raise ValueError
      end
  | None => ret tt
  end ;;;
  do l <- get_lobby;
  notify_all (Lobby.all_players_except l player) (player_left player) ;;;
  state_remove_player player.

(** [Lobby(settings, owner, setups, punchlines, state)] with the
    [Gathering()] the callers pass. *)
Definition new_lobby (lobby_settings : LobbySettings) (owner : pid)
    (setups : Deck SetupCard) (punchlines : Deck PunchlineCard) : Lobby :=
  {| players := []; lead := None; owner := Some owner; table := []; grave := ∅;
     punchlines := punchlines; setups := setups; settings := lobby_settings;
     turn_count := 0; is_game_endless := false; state := Gathering |}.

Definition new_world (l : Lobby) (g : Rng) : World :=
  {| heap := ∅; lobby := l; rng := g; events := []; tasks := []; next_task := 0 |}.

(** ** Everything that can happen to a lobby *)

Inductive Action : Type :=
  | act_add_player (player : pid)
  | act_remove_player (player : pid)
  | act_connect (player : pid)
  | act_disconnect (player : pid)
  | act_start_game (player : pid) (lobby_settings : LobbySettings)
      (setups : Deck SetupCard) (punchlines : Deck PunchlineCard)
  | act_refresh_hand (player : pid)
  | act_make_turn (player : pid) (card : PunchlineCard)
  | act_open_table_card (player : pid) (card_on_table : CardOnTable)
  | act_pick_turn_winner (player : pid) (card : PunchlineCard)
  | act_continue_game (player : pid)
  | act_task (h : nat).   (* the delay of the scheduled task [h] has passed *)

(** The event loop runs a task that is still scheduled, once. *)
Definition fire (h : nat) : M unit :=
  do w <- get_world;
  match list_find (λ ht, ht.1 = h) (tasks w) with
  | Some (_, (_, t)) => cancel_task h ;;; run_task t
  | None => ret tt
  end.

Definition step (a : Action) : M unit :=
  match a with
  | act_add_player player => Lobby.add_player player
  | act_remove_player player => Lobby_remove_player player
  | act_connect player => Player.connect player
  | act_disconnect player => Player.disconnect player
  | act_start_game player lobby_settings setups punchlines =>
      Player.start_game player lobby_settings setups punchlines
  | act_refresh_hand player => Player.refresh_hand player
  | act_make_turn player card => do _ <- Player.make_turn player card; ret tt
  | act_open_table_card player card_on_table => Player.open_table_card player card_on_table
  | act_pick_turn_winner player card => Player.pick_turn_winner player card
  | act_continue_game player => Player.continue_game player
  | act_task h => fire h
  end.

(** The world after a sequence of actions; an action that raises leaves
    the world it reached and the next action goes on from there. *)
Fixpoint run (acts : list Action) (w : World) : World :=
  match acts with
  | [] => w
  | a :: acts' => run acts' (step a w).2
  end.

(** ** [Deck.mapping] and [Deck.get_card_by_uuid]

    [Deck.__init__] ends with [self.mapping = {card.id: card for card in
    cards}], over the list it has just shuffled; nothing writes to the
    mapping afterwards, so it is kept apart from the two piles.  Both card
    classes have an [id]. *)

Class HasId (C : Type) : Type := card_ident : C → Z.

#[global] Instance SetupCard_HasId : HasId SetupCard := setup_id.
#[global] Instance PunchlineCard_HasId : HasId PunchlineCard := card_id.

(** The dict comprehension: a later card overwrites an earlier one with
    the same id. *)
Definition Deck_mapping {C} `{HasId C} (cs : list C) : gmap Z C :=
  foldl (λ m c, <[card_ident c := c]> m) ∅ cs.

Definition Deck_init_mapping {C} `{HasId C} (cs : list C) (g : Rng) : gmap Z C :=
  Deck_mapping (shuffle cs g).1.

(** [self.mapping[card_id]]; [None] stands for its [KeyError]. *)
Definition Deck_get_card_by_uuid {C} (mapping : gmap Z C) (card_id : Z) : option C :=
  mapping !! card_id.

(** * Notions the properties are stated with *)

(** The deck as [get_card] sees it once an empty draw pile was refilled. *)
Definition refilled {C} (d : Deck C) (g : Rng) : Deck C * Rng :=
  match cards d with
  | [] => let '(cs, g') := shuffle (_dump d) g in ({| cards := cs; _dump := [] |}, g')
  | _ => (d, g)
  end.

(** A run of draws and discards on one deck.  A draw that raises leaves
    the deck as it is and hands out nothing. *)
Inductive DeckOp (C : Type) : Type :=
  | op_get_card
  | op_dump (cs : list C).
Arguments op_get_card {C}.
Arguments op_dump {C} cs.

Fixpoint run_ops {C} (ops : list (DeckOp C)) (d : Deck C) (g : Rng)
    : Deck C * Rng * list C :=
  match ops with
  | [] => (d, g, [])
  | op_get_card :: ops' =>
      match Deck.get_card d g with
      | (Ok c, d', g') => let '(d'', g'', out) := run_ops ops' d' g' in (d'', g'', c :: out)
      | (Raise _, d', g') => run_ops ops' d' g'
      end
  | op_dump cs :: ops' => run_ops ops' (Deck.dump d cs) g
  end.

(** The cards handed to [dump] along a run. *)
Fixpoint dumped {C} (ops : list (DeckOp C)) : list C :=
  match ops with
  | [] => []
  | op_get_card :: ops' => dumped ops'
  | op_dump cs :: ops' => cs ++ dumped ops'
  end.

Definition piles {C} (d : Deck C) : list C := cards d ++ _dump d.


(** The table entries of one player, and the lobbies where nobody has two. *)
Definition entries_of (p : pid) (t : list CardOnTable) : list CardOnTable :=
  filter (λ c, cot_player c = p) t.

Definition one_entry_each (l : Lobby) : Prop :=
  ∀ p, (length (entries_of p (table l)) ≤ 1)%nat.

Definition endless (l : Lobby) : Prop := is_game_endless l = true.

(** [m] keeps [I], whether it returns or raises. *)
Definition preserves (I : World → Prop) {A} (m : M A) : Prop := ∀ w, I w → I (m w).2.

Definition lobby_inv (J : Lobby → Prop) : World → Prop := λ w, J (lobby w).

(** The world [pick_turn_winner] has made when it comes to schedule the
    next step: the point is awarded, the winner recorded, everybody told,
    the table discarded. *)
Definition after_pick (setup : SetupCard) (card : PunchlineCard)
    (cot : CardOnTable) (w : World) : World :=
  let l := lobby w in
  set_lobby
    (set_table []
       (set_punchlines (Deck.dump (punchlines l) (map cot_card (table l)))
          (set_state (Judgement setup (Some (cot_player cot))) l)))
    (set_events
       (events w ++ map (λ p, (p, turn_ended (cot_player cot) card)) (Lobby.all_players l))
       (set_heap
          (<[cot_player cot :=
               set_score (score (player_at w (cot_player cot)) + 1)
                 (player_at w (cot_player cot))]> (heap w))
          w)).

(** The task [pick_turn_winner] schedules. *)
Definition next_step (setup : SetupCard) (w1 : World) : Task :=
  match (if is_game_endless (lobby w1) then None
         else Judgement.first_at_winning_score w1) with
  | Some pl => finish_game_task setup pl
  | None => start_turn_task setup
  end.

Definition schedule (t : Task) (w : World) : World :=
  set_next_task (S (next_task w)) (set_tasks (tasks w ++ [(next_task w, t)]) w).

(** ** A small game to run the code on

    Three players, forty punchline cards, five setup cards, no round timer,
    one point to win; the generator answers 0 throughout. *)

Definition sample_card (n : nat) : PunchlineCard :=
  {| card_obj := n; card_id := Z.of_nat n; card_text := [] |}.

Definition sample_setup (n : nat) : SetupCard :=
  {| setup_id := Z.of_nat n; setup_text := "setup"; setup_case := "nom";
     starts_with_punchline := false |}.

Definition sample_punchlines : Deck PunchlineCard :=
  {| cards := sample_card <$> seq 1 40; _dump := [] |}.

Definition sample_setups : Deck SetupCard :=
  {| cards := sample_setup <$> seq 1 5; _dump := [] |}.

Definition sample_settings : LobbySettings :=
  {| turn_duration := None; winning_score := 1; finish_delay := 0;
     start_turn_delay := 0 |}.

Definition sample_entry (n : nat) (p : pid) : CardOnTable :=
  {| cot_card := sample_card n; cot_player := p; is_open := false |}.

(** Players 0, 1 and 2 join and connect; 0 owns the lobby. *)
Definition sample_gathering : World :=
  run [act_add_player 0%nat; act_connect 0%nat; act_add_player 1%nat;
       act_connect 1%nat; act_add_player 2%nat; act_connect 2%nat]
    (new_world (new_lobby sample_settings 0%nat sample_setups sample_punchlines) []).

(** The owner starts the game: round 1, led by player 0, who holds cards
    40..31; player 1 holds 30..21 and player 2 holds 20..11. *)
Definition sample_turns : World :=
  run [act_start_game 0%nat sample_settings sample_setups sample_punchlines]
    sample_gathering.

(** Players 1 and 2 play a card each, which ends the round; the lead opens
    both entries. *)
Definition sample_judgement : World :=
  run [act_make_turn 1%nat (sample_card 30); act_make_turn 2%nat (sample_card 20);
       act_open_table_card 0%nat (sample_entry 30 1%nat);
       act_open_table_card 0%nat (sample_entry 20 2%nat)]
    sample_turns.

(** The same round when the lead has put a card of its own on the table. *)
Definition sample_judgement_lead_played : World :=
  run [act_make_turn 0%nat (sample_card 40);
       act_make_turn 1%nat (sample_card 30); act_make_turn 2%nat (sample_card 20);
       act_open_table_card 0%nat (sample_entry 40 0%nat);
       act_open_table_card 0%nat (sample_entry 30 1%nat);
       act_open_table_card 0%nat (sample_entry 20 2%nat)]
    sample_turns.

(** Player 2 wins round 1 and with it the game. *)
Definition sample_finished : World :=
  run [act_pick_turn_winner 0%nat (sample_card 20); act_task 1%nat] sample_judgement.

(** The roster holds nobody who is connected and not ready: the condition
    on which [try_end_turn] resolves the round. *)
Definition all_connected_ready (w : World) : Prop :=
  ∀ pl, pl ∈ players (lobby w) →
    is_connected (player_at w pl) = true → is_ready (player_at w pl) = true.

(** Player 2 drops the connection without having played; player 1 plays,
    and with that everybody who is connected is ready. *)
Definition sample_round_without_2 : World :=
  run [act_disconnect 2%nat; act_make_turn 1%nat (sample_card 30)] sample_turns.

(** The same round at the moment [make_turn] has put the card of player 1
    on the table and is about to call [try_end_turn]. *)
Definition sample_before_resolution : World :=
  (Turns.put_card_on_table 1%nat (sample_card 30)
     (run [act_disconnect 2%nat] sample_turns)).2.

(** The hand size [start_turn] leaves a player with: one card more, unless
    the hand is exactly full. *)
Definition dealt (n : nat) : nat := if decide (n = HAND_SIZE) then n else S n.

(** The body of the loop of [start_turn], for the lemmas on it. *)
Definition start_turn_body (new_setup : SetupCard) (pl : pid) : M unit :=
  modify_player pl (set_is_ready false) ;;;
  do p <- get_player pl;
  do l <- get_lobby;
  if bool_decide (length (hand p) ≠ HAND_SIZE) then
    do new_card <- Lobby.draw_punchline;
    Lobby.add_punchline_card pl new_card ;;;
    notify pl (turn_started new_setup (turn_duration (settings l)) (lead l)
                 (turn_count l) (Some new_card))
  else
    notify pl (turn_started new_setup (turn_duration (settings l)) (lead l)
                 (turn_count l) None).

(** Player 1 plays card 30 in round 1 of the sample game, is removed and
    joins again through [add_player]; [remove_player] has dumped its entry
    and has left its [is_connected] flag set.  It plays card 29, player 2
    plays card 20, the lead opens both entries and picks card 20, and the
    game is finished.  Every call returns. *)
Definition rejoin_acts : list Action :=
  [act_make_turn 1%nat (sample_card 30); act_remove_player 1%nat;
   act_add_player 1%nat; act_make_turn 1%nat (sample_card 29);
   act_make_turn 2%nat (sample_card 20);
   act_open_table_card 0%nat (sample_entry 29 1%nat);
   act_open_table_card 0%nat (sample_entry 20 2%nat);
   act_pick_turn_winner 0%nat (sample_card 20); act_task 1%nat].

Definition sample_rejoined : World := run rejoin_acts sample_turns.

(** Whether every action of a run returns. *)
Fixpoint all_return (acts : list Action) (w : World) : bool :=
  match acts with
  | [] => true
  | a :: acts' =>
      match (step a w).1 with
      | Ok _ => all_return acts' (step a w).2
      | Raise _ => false
      end
  end.

(** The cards at the end of the hand of [p] in [w'] that were not in its
    hand in [w]. *)
Definition new_cards (w w' : World) (p : pid) : list PunchlineCard :=
  drop (length (hand (player_at w p))) (hand (player_at w' p)).

(** [connect] in two halves: the player leaves the grave for the roster
    ([rejoin]), and, once it is known to be on the roster or lead, gets its
    hand topped up and is announced ([connect_known]). *)
Definition rejoin (player : pid) (w : World) : World :=
  let l := set_players (players (lobby w) ++ [player])
             (set_grave (grave (lobby w) ∖ {[player]}) (lobby w)) in
  set_events (events w ++ map (λ p, (p, player_joined player)) (Lobby.all_players l))
    (set_lobby l w).

Definition announce_connected (player : pid) (w1 : World) : World :=
  set_events
    (events w1 ++ map (λ q, (q, player_connected player))
                    (Lobby.all_players_except (lobby w1) player))
    w1.

Definition connect_known (player : pid) : M unit :=
  do l <- get_lobby;
  match state l with
  | Gathering => ret tt
  | _ => Lobby.top_up HAND_SIZE player
  end ;;;
  do l <- get_lobby;
  notify_all (Lobby.all_players_except l player) (player_connected player).


(** Player 1 has refreshed its hand once in round 1 of the sample game,
    which cost it a point: its score is -1. *)
Definition sample_refreshed : World :=
  run [act_refresh_hand 1%nat] sample_turns.

(** Player 1 has played card 30 in round 1 of the sample game. *)
Definition sample_played : World :=
  run [act_make_turn 1%nat (sample_card 30)] sample_turns.

(** ** [remove_player], stage by stage

    The lobby record after each block of [Lobby.remove_player], and the
    world it has made when it calls the hook of the active phase. *)

Definition unlead (player : pid) (l : Lobby) : Lobby :=
  if decide (lead l = Some player) then set_lead None l else l.

Definition unroster (player : pid) (l : Lobby) : Lobby :=
  match list_remove (λ p, bool_decide (p = player)) (players l) with
  | Some ps => set_players ps l
  | None => l
  end.

Definition reown (player : pid) (w : World) (l : Lobby) : Lobby :=
  if decide (owner l = Some player)
  then set_owner (find (λ p, is_connected (player_at w p)) (Lobby.all_players l)) l
  else l.

Definition untable (player : pid) (l : Lobby) : Lobby :=
  match Lobby.card_on_table_of l player with
  | Some c =>
      match list_remove (λ x, bool_decide (x = c)) (table l) with
      | Some t => set_table t (set_punchlines (Deck.dump (punchlines l) [cot_card c]) l)
      | None => l
      end
  | None => l
  end.

Definition removed (player : pid) (w : World) : World :=
  let l1 := unroster player (unlead player (lobby w)) in
  let l2 := reown player w l1 in
  let l3 := untable player (set_grave ({[player]} ∪ grave l2) l2) in
  let told_owner :=
    if decide (owner l1 = Some player)
    then map (λ p, (p, owner_changed (owner l2))) (Lobby.all_players_except l2 player)
    else [] in
  let told_left :=
    map (λ p, (p, player_left player)) (Lobby.all_players_except l3 player) in
  set_events ((events w ++ told_owner) ++ told_left) (set_lobby l3 w).

(** Two lobbies that differ at most in the table and the phase. *)
Definition same_but_table_and_state (l0 l : Lobby) : Prop :=
  players l = players l0 ∧ lead l = lead l0 ∧ owner l = owner l0
  ∧ grave l = grave l0 ∧ punchlines l = punchlines l0 ∧ setups l = setups l0
  ∧ settings l = settings l0 ∧ turn_count l = turn_count l0
  ∧ is_game_endless l = is_game_endless l0.

(** Whoever has an entry on the table of [w'] is on the roster [ps] or had
    an entry on the table of [w]. *)
Definition entries_from (ps : list pid) (w w' : World) : Prop :=
  ∀ x, x ∈ cot_player <$> table (lobby w') →
       x ∈ ps ∨ x ∈ cot_player <$> table (lobby w).

(** A player for whom [end_turn] plays: connected and not ready. *)
Definition idle (w : World) (p : pid) : bool :=
  is_connected (player_at w p) && negb (is_ready (player_at w p)).

(** Round 1 of the sample game with one card less in the punchline deck:
    nine cards are left. *)
Definition sample_short_deck : World := (Lobby.draw_punchline sample_turns).2.

(** The number of draws in a run of deck operations. *)
Fixpoint draws {C} (ops : list (DeckOp C)) : nat :=
  match ops with
  | [] => 0%nat
  | op_get_card :: ops' => S (draws ops')
  | op_dump _ :: ops' => draws ops'
  end.

(** The body of the dealing loop of [Gathering.start_game], for the lemmas
    on it. *)
Definition deal_card (pl : pid) : M unit :=
  do c <- Lobby.draw_punchline; Lobby.add_punchline_card pl c.

Definition deal_hand (pl : pid) : M unit :=
  repeat_n HAND_SIZE (deal_card pl) ;;; notify pl (game_started pl).

(** ** A round without a lead *)

Definition is_turn_timer (t : Task) : bool :=
  match t with turn_timer => true | _ => false end.

(** The lobby is in the [Turns] phase, nobody leads, and the only tasks
    scheduled are round timers. *)
Definition leaderless_round (w : World) : Prop :=
  lead (lobby w) = None
  ∧ match state (lobby w) with Turns _ _ => True | _ => False end
  ∧ forallb (λ ht, is_turn_timer ht.2) (tasks w) = true.

(** Round 1 of the sample game once its lead, player 0, has been
    removed. *)
Definition sample_leaderless : World := run [act_remove_player 0%nat] sample_turns.

(** An entry of the table, face up. *)
Definition opened (c : CardOnTable) : CardOnTable :=
  {| cot_card := cot_card c; cot_player := cot_player c; is_open := true |}.

(** The actions that write to a score: [pick_turn_winner] awards a point,
    [refresh_hand] costs one, [start_game] resets the scores when it
    restarts a finished game. *)
Definition writes_score (a : Action) : bool :=
  match a with
  | act_pick_turn_winner _ _ | act_refresh_hand _ | act_start_game _ _ _ _ => true
  | _ => false
  end.

(** * Properties *)

(** ** The random module only permutes *)

Section Random.
Context {A : Type}.
Implicit Types x : list A.

Lemma swap_Permutation i j x : swap i j x ≡ₚ x.
Proof.
  unfold swap.
  destruct (x !! i) as [a|] eqn:Hi; [|done].
  destruct (x !! j) as [b|] eqn:Hj; [|done].
  by apply Permutation_insert_swap.
Qed.

Lemma shuffle_from_Permutation i x g : (shuffle_from i x g).1 ≡ₚ x.
Proof.
  revert x g. induction i as [|i IH]; intros x g; [done|].
  cbn [shuffle_from]. destruct (randbelow _ g) as [j g'].
  rewrite IH. apply swap_Permutation.
Qed.

Lemma shuffle_Permutation x g : (shuffle x g).1 ≡ₚ x.
Proof. apply shuffle_from_Permutation. Qed.

Lemma shuffle_nil g : shuffle (@nil A) g = ([], g).
Proof. done. Qed.

Lemma choice_elem_of x (g : Rng) (a : A) : (choice x g).1 = Ok a → a ∈ x.
Proof.
  unfold choice. destruct x as [|y x]; [done|].
  destruct (randbelow _ g) as [j g']. cbn [fst].
  destruct (_ !! j) as [b|] eqn:Hj; [|done].
  intros [= ->]. by eapply list_elem_of_lookup_2.
Qed.
End Random.

(** ** Deck *)

Section DeckFacts.
Context {C : Type}.
Implicit Types (d : Deck C) (g : Rng) (l : list C).

Lemma pop_None l : Deck.pop l = None ↔ l = [].
Proof.
  unfold Deck.pop. destruct (reverse l) as [|c r] eqn:Hr.
  - split; [intros _|done]. by rewrite <-(reverse_involutive l), Hr.
  - split; [done|]. intros ->. by rewrite reverse_nil in Hr.
Qed.

Lemma pop_Some l c r : Deck.pop l = Some (c, r) ↔ l = r ++ [c].
Proof.
  unfold Deck.pop. destruct (reverse l) as [|c' r'] eqn:Hr.
  - split; [done|]. intros ->. by rewrite reverse_snoc in Hr.
  - assert (l = reverse r' ++ [c']) as ->.
    { by rewrite <-(reverse_involutive l), Hr, reverse_cons. }
    split.
    + by intros [= -> <-].
    + intros [-> ->]%app_inj_tail. done.
Qed.

Lemma refilled_piles d g :
  cards (refilled d g).1 ++ _dump (refilled d g).1 ≡ₚ cards d ++ _dump d.
Proof.
  unfold refilled. destruct (cards d) as [|c cs] eqn:Hc; [|simpl; by rewrite Hc].
  pose proof (shuffle_Permutation (_dump d) g) as Hp.
  destruct (shuffle (_dump d) g) as [cs' g']. simpl in *.
  by rewrite app_nil_r.
Qed.

Lemma get_card_unfold d g :
  Deck.get_card d g =
    match Deck.pop (cards (refilled d g).1) with
    | Some (c, rest) =>
        (Ok c, {| cards := rest; _dump := _dump (refilled d g).1 |}, (refilled d g).2)
    | None => (Raise IndexError, (refilled d g).1, (refilled d g).2)
    end.
Proof.
  unfold Deck.get_card, refilled.
  destruct (cards d); [destruct (shuffle _ g)|]; done.
Qed.

Lemma get_card_Ok d g c d' g' :
  Deck.get_card d g = (Ok c, d', g') →
  cards d' ++ [c] ++ _dump d' ≡ₚ cards d ++ _dump d.
Proof.
  rewrite get_card_unfold. rewrite <-(refilled_piles d g).
  destruct (Deck.pop _) as [[c' rest]|] eqn:Hp; [|done].
  apply pop_Some in Hp. intros [= -> <- _]. simpl. rewrite Hp.
  by rewrite <-!app_assoc.
Qed.

Lemma get_card_Raise d g e d' g' :
  Deck.get_card d g = (Raise e, d', g') →
  e = IndexError ∧ cards d = [] ∧ _dump d = [] ∧ d' = d ∧ g' = g.
Proof.
  rewrite get_card_unfold.
  destruct (Deck.pop _) as [[c' rest]|] eqn:Hp; [done|].
  apply pop_None in Hp. intros [= <- <- <-].
  pose proof (refilled_piles d g) as Hpiles. rewrite Hp in Hpiles.
  unfold refilled in *. destruct (cards d) as [|c cs] eqn:Hc.
  - pose proof (shuffle_Permutation (_dump d) g) as Hs.
    destruct (shuffle (_dump d) g) as [cs' g'] eqn:Hsh. simpl in *.
    subst cs'. assert (_dump d = []) as Hd by by apply Permutation_nil.
    rewrite Hd, shuffle_nil in Hsh. injection Hsh as <-.
    destruct d; simpl in *; by subst.
  - simpl in Hp. congruence.
Qed.

Lemma get_card_nonempty d g :
  cards d ++ _dump d ≠ [] → ∃ c d' g', Deck.get_card d g = (Ok c, d', g').
Proof.
  intros Hne. destruct (Deck.get_card d g) as [[[c|e] d'] g'] eqn:Hg; [eauto|].
  apply get_card_Raise in Hg as (_ & Hc & Hd & _). by rewrite Hc, Hd in Hne.
Qed.
End DeckFacts.

(** C7: [get_card] returns a card exactly when the two piles are not both
    empty, and raises (an [IndexError]) exactly when they are; from an empty
    draw pile it turns the whole discard pile into the draw pile and hands
    out one of its cards. *)
Theorem get_card_fails_only_when_exhausted {C} (d : Deck C) (g : Rng) :
  ((∃ c d' g', Deck.get_card d g = (Ok c, d', g')) ↔ ¬ (cards d = [] ∧ _dump d = []))
  ∧ ((∃ e d' g', Deck.get_card d g = (Raise e, d', g')) ↔ cards d = [] ∧ _dump d = [])
  ∧ (∀ e d' g', Deck.get_card d g = (Raise e, d', g') → e = IndexError)
  ∧ (∀ c d' g', cards d = [] → Deck.get_card d g = (Ok c, d', g') →
       _dump d' = [] ∧ cards d' ++ [c] ≡ₚ _dump d).
Proof.
  assert (Hboth : cards d = [] ∧ _dump d = [] →
                  Deck.get_card d g = (Raise IndexError, d, g)).
  { intros [Hc Hd]. unfold Deck.get_card. rewrite Hc, Hd. simpl.
    destruct d; simpl in *; by subst. }
  assert (Hrefill : ∀ c d' g', cards d = [] →
                    Deck.get_card d g = (Ok c, d', g') → _dump d' = []).
  { intros c d' g' Hc Hg. rewrite get_card_unfold in Hg. unfold refilled in Hg.
    rewrite Hc in Hg. destruct (shuffle _ g) as [cs g1]. simpl in Hg.
    destruct (Deck.pop cs) as [[c' rest]|]; [|done]. by injection Hg as _ <- _. }
  split_and!.
  - split.
    + intros (c & d' & g' & Hg) Hempty. by rewrite (Hboth Hempty) in Hg.
    + intros Hne. apply get_card_nonempty. intros [Hc Hd]%app_eq_nil. auto.
  - split.
    + intros (e & d' & g' & (_ & ? & ? & _)%get_card_Raise). auto.
    + intros Hempty. rewrite (Hboth Hempty). eauto.
  - by intros e d' g' (? & _)%get_card_Raise.
  - intros c d' g' Hc Hg. split; [by eapply Hrefill|].
    pose proof (get_card_Ok _ _ _ _ _ Hg) as Hp.
    rewrite (Hrefill _ _ _ Hc Hg), Hc in Hp. by simpl in Hp.
Qed.

(** C6, the claim as written fails: one draw from a deck of two cards
    leaves one card in the two piles together. *)
Lemma piles_not_invariant_under_get_card :
  let d := {| cards := [1; 2]%nat; _dump := [] |} in
  ∃ c d' g', Deck.get_card d [] = (Ok c, d', g') ∧ ¬ (piles d' ≡ₚ piles d).
Proof.
  simpl. eexists _, _, _. split; [reflexivity|].
  intros Hp%Permutation_length. done.
Qed.

(** C6, amended: along every run of [get_card] and [dump], the draw pile,
    the discard pile and the cards handed out hold together exactly the
    cards the deck started with and the cards given to [dump]: a draw moves
    one card out of the piles, a discard adds the given cards, refilling
    only permutes. *)
Theorem deck_cards_conserved {C} (ops : list (DeckOp C)) (d : Deck C) (g : Rng) :
  piles (run_ops ops d g).1.1 ++ (run_ops ops d g).2 ≡ₚ piles d ++ dumped ops.
Proof.
  revert d g. induction ops as [|[|cs] ops IH]; intros d g; simpl.
  - done.
  - destruct (Deck.get_card d g) as [[[c|e] d'] g'] eqn:Hg.
    + specialize (IH d' g'). destruct (run_ops ops d' g') as [[d'' g''] out].
      simpl in *. rewrite <-Permutation_middle, IH.
      apply get_card_Ok in Hg. unfold piles. rewrite <-Hg.
      rewrite <-!app_assoc. simpl. by rewrite <-!Permutation_middle.
    + apply get_card_Raise in Hg as (_ & _ & _ & -> & ->). apply IH.
  - rewrite IH. unfold piles, Deck.dump. simpl. by rewrite <-!app_assoc.
Qed.

(** ** Running computations *)

Section Preserves.
Context (I : World → Prop).

Lemma preserves_ret {A} (a : A) : preserves I (ret a).
Proof. by intros w Hw. Qed.

Lemma preserves_raise {A} e : preserves I (@raise A e).
Proof. by intros w Hw. Qed.

Lemma preserves_bind {A B} (m : M A) (k : A → M B) :
  preserves I m → (∀ a, preserves I (k a)) → preserves I (bind m k).
Proof.
  intros Hm Hk w Hw. unfold bind. specialize (Hm w Hw).
  destruct (m w) as [[a|e] w1]; simpl in *; [by apply Hk|done].
Qed.

Lemma preserves_bind_at {A B} (m : M A) (k : A → M B) w :
  I (m w).2 → (∀ a, preserves I (k a)) → I (bind m k w).2.
Proof.
  intros Hm Hk. unfold bind.
  destruct (m w) as [[a|e] w1]; simpl in *; [by apply Hk|done].
Qed.

Lemma preserves_for_each {A} (l : list A) (body : A → M unit) :
  (∀ x, preserves I (body x)) → preserves I (for_each l body).
Proof.
  intros Hb. induction l as [|x l IH]; simpl.
  - apply preserves_ret.
  - apply preserves_bind; auto.
Qed.

Lemma preserves_repeat_n n (body : M unit) :
  preserves I body → preserves I (repeat_n n body).
Proof.
  intros Hb. induction n as [|n IH]; simpl.
  - apply preserves_ret.
  - apply preserves_bind; auto.
Qed.

Lemma preserves_get_world : preserves I get_world.
Proof. by intros w Hw. Qed.
Lemma preserves_get_lobby : preserves I get_lobby.
Proof. by intros w Hw. Qed.
Lemma preserves_get_player p : preserves I (get_player p).
Proof. by intros w Hw. Qed.
End Preserves.


(** ** Invariants of the lobby record

    [J] is a property of the lobby that no write to another field
    disturbs and that the writes to the table and to the endless flag keep;
    then no action disturbs it. *)


Ltac preserves_step :=
  first
    [ apply preserves_ret | apply preserves_raise
    | apply preserves_get_world | apply preserves_get_lobby | apply preserves_get_player
    | apply preserves_bind; [|intros ?]
    | apply preserves_for_each; intros ?
    | apply preserves_repeat_n
    | match goal with
      | |- preserves _ (match ?x with _ => _ end) => destruct x
      | |- preserves _ (let '(_, _) := ?x in _) => destruct x
      end ].

Section LobbyInvariant.
Context (J : Lobby → Prop).
Context (HJ_players : ∀ v l, J l → J (set_players v l)).
Context (HJ_lead : ∀ v l, J l → J (set_lead v l)).
Context (HJ_owner : ∀ v l, J l → J (set_owner v l)).
Context (HJ_grave : ∀ v l, J l → J (set_grave v l)).
Context (HJ_punchlines : ∀ v l, J l → J (set_punchlines v l)).
Context (HJ_setups : ∀ v l, J l → J (set_setups v l)).
Context (HJ_settings : ∀ v l, J l → J (set_settings v l)).
Context (HJ_turn_count : ∀ v l, J l → J (set_turn_count v l)).
Context (HJ_state : ∀ v l, J l → J (set_state v l)).
Context (HJ_endless : ∀ l, J l → J (set_is_game_endless true l)).
Context (HJ_table_nil : ∀ l, J l → J (set_table [] l)).
Context (HJ_table_shuffle : ∀ g l, J l → J (set_table (shuffle (table l) g).1 l)).
Context (HJ_table_open : ∀ e l, J l → J (set_table (Judgement.open_entry e (table l)) l)).
Context (HJ_table_remove : ∀ c t l,
  list_remove (λ x, bool_decide (x = c)) (table l) = Some t → J l → J (set_table t l)).
Context (HJ_put : ∀ player card,
  preserves (lobby_inv J) (Turns.put_card_on_table player card)).

Local Abbreviation I := (lobby_inv J).

Lemma preserves_modify_player p f : preserves I (modify_player p f).
Proof. by intros w Hw. Qed.
Lemma preserves_notify p e : preserves I (notify p e).
Proof. by intros w Hw. Qed.
Lemma preserves_notify_all ps e : preserves I (notify_all ps e).
Proof. apply preserves_for_each. intros. apply preserves_notify. Qed.
Lemma preserves_create_task t : preserves I (create_task t).
Proof. by intros w Hw. Qed.
Lemma preserves_cancel_task h : preserves I (cancel_task h).
Proof. by intros w Hw. Qed.
Lemma preserves_random_choice h : preserves I (Turns.random_choice h).
Proof. intros w Hw. unfold Turns.random_choice. by destruct (choice h (rng w)). Qed.
Lemma preserves_modify_lobby f :
  (∀ l, J l → J (f l)) → preserves I (modify_lobby f).
Proof. intros Hf w Hw. by apply Hf. Qed.

Lemma preserves_draw_punchline : preserves I Lobby.draw_punchline.
Proof.
  intros w Hw. unfold Lobby.draw_punchline.
  destruct (Deck.get_card _ _) as [[r d] g]. by apply HJ_punchlines.
Qed.
Lemma preserves_draw_setup : preserves I Lobby.draw_setup.
Proof.
  intros w Hw. unfold Lobby.draw_setup.
  destruct (Deck.get_card _ _) as [[r d] g]. by apply HJ_setups.
Qed.
Lemma preserves_shuffle_table : preserves I Turns.shuffle_table.
Proof.
  intros w Hw. unfold Turns.shuffle_table.
  pose proof (HJ_table_shuffle (rng w) _ Hw) as H.
  by destruct (shuffle _ _) as [t g].
Qed.

Ltac prim :=
  first
    [ apply preserves_modify_player | apply preserves_notify
    | apply preserves_notify_all | apply preserves_create_task
    | apply preserves_cancel_task | apply preserves_random_choice
    | apply preserves_draw_punchline | apply preserves_draw_setup
    | apply preserves_shuffle_table | apply HJ_put
    | apply preserves_modify_lobby; intros ? ?; solve [eauto 6] ].

Ltac go := repeat first [ solve [eauto] | prim | preserves_step ].

Lemma preserves_dump_punchlines cs : preserves I (Lobby.dump_punchlines cs).
Proof. unfold Lobby.dump_punchlines. go. Qed.
Lemma preserves_dump_setups cs : preserves I (Lobby.dump_setups cs).
Proof. unfold Lobby.dump_setups. go. Qed.
Lemma preserves_add_punchline_card p c : preserves I (Lobby.add_punchline_card p c).
Proof. apply preserves_modify_player. Qed.
Lemma preserves_change_owner : preserves I Lobby.change_owner.
Proof. unfold Lobby.change_owner. go. Qed.
Lemma preserves_transit_to st : preserves I (Lobby.transit_to st).
Proof. unfold Lobby.transit_to. go. Qed.
Lemma preserves_change_lead : preserves I Lobby.change_lead.
Proof. unfold Lobby.change_lead. go. Qed.
Hint Resolve preserves_dump_punchlines preserves_dump_setups preserves_add_punchline_card
  preserves_change_owner preserves_transit_to preserves_change_lead : core.

Lemma preserves_start_turn : preserves I Lobby.start_turn.
Proof. unfold Lobby.start_turn. go. Qed.
Lemma preserves_add_player p : preserves I (Lobby.add_player p).
Proof. unfold Lobby.add_player. go. Qed.
Lemma preserves_top_up n p : preserves I (Lobby.top_up n p).
Proof. induction n; simpl; go. Qed.
Hint Resolve preserves_start_turn preserves_add_player preserves_top_up : core.

Lemma preserves_connect p : preserves I (Lobby.connect p).
Proof. unfold Lobby.connect. go. Qed.
Lemma preserves_disconnect p : preserves I (Lobby.disconnect p).
Proof. unfold Lobby.disconnect. go. Qed.
Lemma preserves_end_turn setup : preserves I (Turns.end_turn setup).
Proof. unfold Turns.end_turn. go. Qed.
Hint Resolve preserves_connect preserves_disconnect preserves_end_turn : core.

Lemma preserves_try_end_turn setup timer : preserves I (Turns.try_end_turn setup timer).
Proof. unfold Turns.try_end_turn. go. Qed.
Lemma preserves_draw_hand n : preserves I (Turns.draw_hand n).
Proof. induction n; simpl; go. Qed.
Hint Resolve preserves_try_end_turn preserves_draw_hand : core.

Lemma preserves_refresh_hand p : preserves I (Turns.refresh_hand p).
Proof. unfold Turns.refresh_hand. go. Qed.
Lemma preserves_make_turn setup timer p c : preserves I (Turns.make_turn setup timer p c).
Proof. unfold Turns.make_turn. go. Qed.
Lemma preserves_get_card_from_table c : preserves I (Lobby.get_card_from_table c).
Proof. unfold Lobby.get_card_from_table. go. Qed.
Hint Resolve preserves_refresh_hand preserves_make_turn preserves_get_card_from_table : core.

Lemma preserves_open_table_card p e : preserves I (Judgement.open_table_card p e).
Proof. unfold Judgement.open_table_card. go. Qed.
Lemma preserves_pick_turn_winner setup p c :
  preserves I (Judgement.pick_turn_winner setup p c).
Proof. unfold Judgement.pick_turn_winner. go. Qed.
Lemma preserves_Judgement_start_turn setup : preserves I (Judgement.start_turn setup).
Proof. unfold Judgement.start_turn. go. Qed.
Lemma preserves_finish_game setup p : preserves I (Judgement.finish_game setup p).
Proof. unfold Judgement.finish_game. go. Qed.
Lemma preserves_Judgement_remove_player p : preserves I (Judgement.remove_player p).
Proof. unfold Judgement.remove_player, Judgement.start_voting. go. Qed.
Hint Resolve preserves_open_table_card preserves_pick_turn_winner
  preserves_Judgement_start_turn preserves_finish_game
  preserves_Judgement_remove_player : core.

Lemma preserves_Gathering_start_game p s sd pd :
  preserves I (Gathering.start_game p s sd pd).
Proof. unfold Gathering.start_game. go. Qed.
Lemma preserves_Finished_start_turn setup : preserves I (Finished.start_turn setup).
Proof. unfold Finished.start_turn. go. Qed.
Hint Resolve preserves_Gathering_start_game preserves_Finished_start_turn : core.

Lemma preserves_continue_game setup p : preserves I (Finished.continue_game setup p).
Proof. unfold Finished.continue_game. go. Qed.
Lemma preserves_Finished_start_game p s sd pd :
  preserves I (Finished.start_game p s sd pd).
Proof. unfold Finished.start_game. go. Qed.
Hint Resolve preserves_continue_game preserves_Finished_start_game : core.

Lemma preserves_state_remove_player p : preserves I (state_remove_player p).
Proof. unfold state_remove_player, Turns.remove_player. go. Qed.
Lemma preserves_state_end_turn : preserves I state_end_turn.
Proof. unfold state_end_turn. go. Qed.
Hint Resolve preserves_state_remove_player preserves_state_end_turn : core.

Lemma preserves_Lobby_remove_player p : preserves I (Lobby_remove_player p).
Proof.
  unfold Lobby_remove_player.
  do 7 (apply preserves_bind; [go|intros ?]).
  intros w Hw. unfold bind at 1, get_lobby at 1. cbv beta iota.
  apply preserves_bind_at; [|intros _; change (λ w0 : World, lobby_inv J w0) with (lobby_inv J); go].
  destruct (Lobby.card_on_table_of (lobby w) p) as [c|]; [|done].
  unfold bind, Lobby.dump_punchlines, modify_lobby. simpl.
  destruct (list_remove _ (table (lobby w))) as [t|] eqn:Ht; simpl.
  - eapply (HJ_table_remove c t (set_punchlines _ (lobby w))); [exact Ht|].
    by apply HJ_punchlines.
  - by apply HJ_punchlines.
Qed.
Hint Resolve preserves_Lobby_remove_player : core.

Lemma preserves_run_task t : preserves I (run_task t).
Proof. destruct t; simpl; go. Qed.
Hint Resolve preserves_run_task : core.

Lemma preserves_fire h : preserves I (fire h).
Proof. unfold fire. go. Qed.

Lemma preserves_Player_connect p : preserves I (Player.connect p).
Proof. unfold Player.connect. go. Qed.
Lemma preserves_Player_disconnect p : preserves I (Player.disconnect p).
Proof. unfold Player.disconnect. go. Qed.
Lemma preserves_Player_start_game p s sd pd : preserves I (Player.start_game p s sd pd).
Proof. unfold Player.start_game. go. Qed.
Lemma preserves_Player_refresh_hand p : preserves I (Player.refresh_hand p).
Proof. unfold Player.refresh_hand. go. Qed.
Lemma preserves_Player_make_turn p c : preserves I (Player.make_turn p c).
Proof. unfold Player.make_turn. go. Qed.
Lemma preserves_Player_open_table_card p e : preserves I (Player.open_table_card p e).
Proof. unfold Player.open_table_card. go. Qed.
Lemma preserves_Player_pick_turn_winner p c : preserves I (Player.pick_turn_winner p c).
Proof. unfold Player.pick_turn_winner. go. Qed.
Lemma preserves_Player_continue_game p : preserves I (Player.continue_game p).
Proof. unfold Player.continue_game. go. Qed.

Lemma preserves_step_action a : preserves I (step a).
Proof.
  destruct a; simpl;
    eauto using preserves_fire, preserves_Player_connect, preserves_Player_disconnect,
      preserves_Player_start_game, preserves_Player_refresh_hand,
      preserves_Player_open_table_card, preserves_Player_pick_turn_winner,
      preserves_Player_continue_game.
  apply preserves_bind; [apply preserves_Player_make_turn|intros; apply preserves_ret].
Qed.

Lemma preserves_run acts w : J (lobby w) → J (lobby (run acts w)).
Proof.
  revert w. induction acts as [|a acts IH]; intros w Hw; simpl; [done|].
  apply IH. by apply preserves_step_action.
Qed.
End LobbyInvariant.

(** ** Facts on lists *)

Lemma list_remove_sublist {A} (same : A → bool) (l t : list A) :
  list_remove same l = Some t → t `sublist_of` l.
Proof.
  revert t. induction l as [|x l IH]; intros t; simpl; [done|].
  destruct (same x).
  - intros [= ->]. by apply sublist_cons.
  - destruct (list_remove same l) as [t'|]; [|done]. intros [= <-].
    apply sublist_skip. by apply IH.
Qed.

Lemma list_remove_is_Some {A} (same : A → bool) (l : list A) :
  existsb same l = true → is_Some (list_remove same l).
Proof.
  induction l as [|x l IH]; simpl; [done|].
  destruct (same x); simpl; [eauto|].
  intros [t ->]%IH. simpl. eauto.
Qed.

Lemma list_remove_length {A} (same : A → bool) (l t : list A) :
  list_remove same l = Some t → length l = S (length t).
Proof.
  revert t. induction l as [|x l IH]; intros t; simpl; [done|].
  destruct (same x).
  - by intros [= ->].
  - destruct (list_remove same l) as [t'|]; [|done]. intros [= <-].
    simpl. f_equal. by apply IH.
Qed.

Lemma filter_player_nil (p : pid) (t : list CardOnTable) :
  p ∉ cot_player <$> t → entries_of p t = [].
Proof.
  unfold entries_of. induction t as [|c t IH]; [done|].
  rewrite fmap_cons, not_elem_of_cons. intros [Hne Hnin].
  rewrite filter_cons_False by done. auto.
Qed.

Lemma entries_of_elem (p : pid) (t : list CardOnTable) :
  p ∈ cot_player <$> t → (1 ≤ length (entries_of p t))%nat.
Proof.
  unfold entries_of. induction t as [|c t IH]; [by intros ?%elem_of_nil|].
  rewrite fmap_cons, elem_of_cons.
  destruct (decide (cot_player c = p)) as [Heq|Hne].
  - intros _. rewrite filter_cons_True by done. simpl. lia.
  - intros [?|Hin]; [congruence|]. rewrite filter_cons_False by done. auto.
Qed.

Lemma one_entry_each_NoDup (l : Lobby) :
  one_entry_each l ↔ NoDup (cot_player <$> table l).
Proof.
  unfold one_entry_each, entries_of. induction (table l) as [|c t IH].
  - split; [constructor|]. intros _ p. simpl. lia.
  - rewrite fmap_cons, NoDup_cons, <-IH. split.
    + intros H. split.
      * intros Hin%entries_of_elem. specialize (H (cot_player c)).
        rewrite filter_cons_True in H by done. unfold entries_of in Hin.
        simpl in H. lia.
      * intros p. specialize (H p).
        destruct (decide (cot_player c = p)).
        -- rewrite filter_cons_True in H by done. simpl in H. lia.
        -- by rewrite filter_cons_False in H by done.
    + intros [Hnin H] p. destruct (decide (cot_player c = p)) as [<-|].
      * rewrite filter_cons_True by done. simpl.
        apply filter_player_nil in Hnin. unfold entries_of in Hnin.
        rewrite Hnin. simpl. lia.
      * rewrite filter_cons_False by done. apply H.
Qed.

(** What [table.remove(prev_card)] does to the table when [prev_card] is
    what [card_on_table_of] found. *)
Lemma remove_found_entry (t : list CardOnTable) (p : pid) (prev : CardOnTable) :
  find (λ c, bool_decide (cot_player c = p)) t = Some prev →
  ∃ t', list_remove (λ c, bool_decide (c = prev)) t = Some t'
        ∧ cot_player prev = p
        ∧ prev ∈ t
        ∧ (NoDup (cot_player <$> t) → p ∉ cot_player <$> t').
Proof.
  induction t as [|c t IH]; simpl; [done|].
  case_bool_decide as Hc.
  - intros [= <-]. exists t. rewrite bool_decide_eq_true_2 by done.
    split_and!; [done|done|by left|]. rewrite ?fmap_cons, NoDup_cons, Hc. tauto.
  - intros Hf. destruct (IH Hf) as (t' & Hr & Hp & Hin & Hnd).
    rewrite bool_decide_eq_false_2 by congruence.
    rewrite Hr. simpl. exists (c :: t').
    split_and!; [done|done|by right|].
    rewrite ?fmap_cons, NoDup_cons, not_elem_of_cons. intros [_ ?]. auto.
Qed.

Lemma find_player_None (t : list CardOnTable) (p : pid) :
  find (λ c, bool_decide (cot_player c = p)) t = None ↔ p ∉ cot_player <$> t.
Proof.
  induction t as [|c t IH]; cbn [find].
  - split; [intros _ ?%elem_of_nil|]; done.
  - rewrite fmap_cons, not_elem_of_cons. case_bool_decide as Hc.
    + split; [done|]. intros [Hne _]. by destruct Hne.
    + rewrite IH. split; [by split|by intros [_ ?]].
Qed.

Lemma open_entry_players e (t : list CardOnTable) :
  cot_player <$> Judgement.open_entry e t = cot_player <$> t.
Proof.
  induction t as [|c t IH]; cbn [Judgement.open_entry]; [done|].
  case_bool_decide; rewrite !fmap_cons; [done|]. by rewrite IH.
Qed.

Lemma notify_all_run ps e w :
  notify_all ps e w = (Ok tt, set_events (events w ++ map (λ p, (p, e)) ps) w).
Proof.
  unfold notify_all. revert w. induction ps as [|p ps IH]; intros w; simpl.
  - rewrite app_nil_r. by destruct w.
  - unfold bind, notify at 1. simpl. rewrite IH. simpl.
    by rewrite <-app_assoc.
Qed.

(** ** No player has two entries on the table *)

Lemma put_card_on_table_one_entry_each player card :
  preserves (lobby_inv one_entry_each) (Turns.put_card_on_table player card).
Proof.
  intros w. unfold lobby_inv. rewrite !one_entry_each_NoDup. intros Hnd.
  unfold Turns.put_card_on_table, bind, get_player, get_lobby. simpl.
  destruct (negb _); [done|].
  unfold Lobby.card_on_table_of.
  destruct (find _ (table (lobby w))) as [prev|] eqn:Hf.
  - destruct (remove_found_entry _ _ _ Hf) as (t' & Hr & Hp & _ & Hnin).
    rewrite Hr. simpl.
    assert (NoDup (cot_player <$> t' ++
      [{| cot_card := card; cot_player := player; is_open := false |}])) as Hnd'.
    { rewrite fmap_app. apply NoDup_app. split_and!.
      - apply list_remove_sublist in Hr.
        exact (sublist_NoDup _ _ Hnd (fmap_sublist cot_player _ _ Hr)).
      - simpl. intros x Hx ->%list_elem_of_singleton. by apply Hnin.
      - apply NoDup_singleton. }
    destruct (list_remove (card_same card) _); simpl; [|done].
    rewrite notify_all_run. done.
  - simpl. apply find_player_None in Hf.
    assert (NoDup (cot_player <$> table (lobby w) ++
      [{| cot_card := card; cot_player := player; is_open := false |}])) as Hnd'.
    { rewrite fmap_app. apply NoDup_app. split_and!; [done| |apply NoDup_singleton].
      simpl. by intros x Hx ->%list_elem_of_singleton. }
    destruct (list_remove (card_same card) _); simpl; [|done].
    rewrite notify_all_run. done.
Qed.

Lemma one_entry_each_step a : preserves (lobby_inv one_entry_each) (step a).
Proof.
  apply preserves_step_action; try done.
  - intros l _ p. simpl. lia.
  - intros g l. rewrite !one_entry_each_NoDup. simpl.
    by rewrite (shuffle_Permutation (table l) g).
  - intros e l. rewrite !one_entry_each_NoDup. simpl. by rewrite open_entry_players.
  - intros c t l Hr. rewrite !one_entry_each_NoDup. simpl.
    apply list_remove_sublist in Hr.
    intros Hnd. exact (sublist_NoDup _ _ Hnd (fmap_sublist cot_player _ _ Hr)).
  - apply put_card_on_table_one_entry_each.
Qed.

Lemma player_at_insert_eq w p x f :
  player_at (set_heap (<[p := x]> (heap w)) (f w)) p = x.
Proof. unfold player_at. simpl. apply lookup_total_insert_eq. Qed.

(** A resubmission, step by step. *)
Lemma put_card_on_table_again (w : World) (player : pid)
    (card : PunchlineCard) (prev : CardOnTable) :
  one_entry_each (lobby w) →
  Lobby.card_on_table_of (lobby w) player = Some prev →
  card_in card (hand (player_at w player)) = true →
  ∃ w' t' h',
    Turns.put_card_on_table player card w = (Ok tt, w')
    ∧ list_remove (λ c, bool_decide (c = prev)) (table (lobby w)) = Some t'
    ∧ (player ∉ cot_player <$> t')
    ∧ table (lobby w') =
        t' ++ [{| cot_card := card; cot_player := player; is_open := false |}]
    ∧ list_remove (card_same card) (hand (player_at w player) ++ [cot_card prev]) = Some h'
    ∧ hand (player_at w' player) = h'
    ∧ is_ready (player_at w' player) = true.
Proof.
  rewrite one_entry_each_NoDup. intros Hnd Hprev Hin.
  unfold Lobby.card_on_table_of in Hprev.
  destruct (remove_found_entry _ _ _ Hprev) as (t' & Hr & Hp & _ & Hnin).
  destruct (list_remove_is_Some (card_same card)
              (hand (player_at w player) ++ [cot_card prev])) as [h' Hh'].
  { rewrite existsb_app. unfold card_in in Hin. by rewrite Hin. }
  unfold Turns.put_card_on_table, bind, get_player, get_lobby, modify_player,
    modify_lobby, player_at in *. simpl.
  rewrite Hin. simpl. unfold Lobby.card_on_table_of. rewrite Hprev, Hr. simpl.
  rewrite lookup_total_insert_eq. simpl. rewrite Hh'. simpl.
  rewrite notify_all_run. simpl.
  eexists _, t', h'. split_and!; try done; auto.
  - simpl. by rewrite !lookup_total_insert_eq.
  - simpl. by rewrite !lookup_total_insert_eq.
Qed.

(** ** Judgement *)

Lemma pick_turn_winner_run setup player card cot (w : World) :
  lead (lobby w) = Some player →
  existsb (λ c, negb (is_open c)) (table (lobby w)) = false →
  find (λ c, card_is card (cot_card c)) (table (lobby w)) = Some cot →
  Judgement.pick_turn_winner setup player card w =
    (Ok tt, schedule (next_step setup (after_pick setup card cot w))
              (after_pick setup card cot w)).
Proof.
  intros Hlead Hopen Hfind.
  unfold Judgement.pick_turn_winner, Lobby.get_card_from_table, bind, get_lobby.
  simpl. rewrite Hlead, bool_decide_eq_true_2 by done. simpl.
  rewrite Hopen, Hfind. simpl. rewrite notify_all_run. simpl.
  unfold next_step, schedule, after_pick. simpl.
  by destruct (if is_game_endless (lobby w) then _ else _).
Qed.

Lemma pick_turn_winner_Ok_inv setup player card (w w' : World) :
  Judgement.pick_turn_winner setup player card w = (Ok tt, w') →
  ∃ cot,
    lead (lobby w) = Some player
    ∧ existsb (λ c, negb (is_open c)) (table (lobby w)) = false
    ∧ find (λ c, card_is card (cot_card c)) (table (lobby w)) = Some cot.
Proof.
  unfold Judgement.pick_turn_winner, Lobby.get_card_from_table, bind, get_lobby.
  simpl. case_bool_decide as Hlead; simpl; [|done].
  destruct (existsb _ _) eqn:Hopen; [done|].
  destruct (find _ _) as [cot|] eqn:Hfind; [|done]. eauto.
Qed.

Lemma find_first {A} (P : A → bool) (l : list A) (x : A) :
  find P l = Some x →
  ∃ before after, l = before ++ x :: after ∧ P x = true
                  ∧ ∀ y, y ∈ before → P y = false.
Proof.
  induction l as [|a l IH]; simpl; [done|].
  destruct (P a) eqn:Ha.
  - intros [= ->]. exists [], l. split_and!; [done|done|]. by intros y ?%elem_of_nil.
  - intros (before & after & -> & Hx & Hb)%IH.
    exists (a :: before), after. split_and!; [done|done|].
    intros y [->|?]%elem_of_cons; auto.
Qed.

Lemma find_nobody {A} (P : A → bool) (l : list A) :
  find P l = None → ∀ y, y ∈ l → P y = false.
Proof.
  induction l as [|a l IH]; simpl; [by intros _ y ?%elem_of_nil|].
  destruct (P a) eqn:Ha; [done|].
  intros Hn y [->|?]%elem_of_cons; auto.
Qed.

Lemma finish_game_run setup winner (w : World) :
  Judgement.finish_game setup winner w =
    (Ok tt,
     set_lobby (set_state (Finished winner setup) (lobby w))
       (set_events
          (events w ++ map (λ p, (p, game_finished winner)) (Lobby.all_players (lobby w)))
          w)).
Proof.
  unfold Judgement.finish_game, bind, get_lobby. simpl.
  by rewrite notify_all_run.
Qed.

(** ** Endless mode *)

Lemma put_card_on_table_endless player card :
  preserves (lobby_inv endless) (Turns.put_card_on_table player card).
Proof.
  intros w Hw.
  unfold Turns.put_card_on_table, bind, get_player, get_lobby, lobby_inv, endless in *.
  simpl. destruct (negb _); [done|].
  destruct (Lobby.card_on_table_of _ _) as [prev|]; simpl.
  - destruct (list_remove _ (table _)); simpl; [|done].
    destruct (list_remove _ _); simpl; [|done]. by rewrite notify_all_run.
  - destruct (list_remove _ _); simpl; [|done]. by rewrite notify_all_run.
Qed.

Lemma endless_step a : preserves (lobby_inv endless) (step a).
Proof.
  apply preserves_step_action; try done. apply put_card_on_table_endless.
Qed.

Lemma endless_run acts (w : World) :
  endless (lobby w) → endless (lobby (run acts w)).
Proof.
  apply preserves_run; try done. apply put_card_on_table_endless.
Qed.

Lemma continue_game_sets_endless setup player (w : World) :
  owner (lobby w) = Some player →
  endless (lobby (Finished.continue_game setup player w).2).
Proof.
  intros Ho. unfold Finished.continue_game. unfold bind at 1. unfold get_lobby.
  rewrite Ho, bool_decide_eq_true_2 by done. cbn [negb].
  apply (preserves_bind_at (lobby_inv endless)); [done|]. intros _.
  by apply (preserves_Finished_start_turn endless).
Qed.

Lemma pick_turn_winner_endless setup player card (w w' : World) :
  endless (lobby w) →
  Judgement.pick_turn_winner setup player card w = (Ok tt, w') →
  tasks w' = tasks w ++ [(next_task w, start_turn_task setup)]
  ∧ endless (lobby w').
Proof.
  intros He Hrun.
  destruct (pick_turn_winner_Ok_inv _ _ _ _ _ Hrun) as (cot & Hl & Ho & Hf).
  rewrite (pick_turn_winner_run _ _ _ cot) in Hrun by done.
  injection Hrun as <-. unfold next_step. simpl.
  unfold endless in He. by rewrite He.
Qed.

(** C10: once [continue_game] has set the endless flag, nothing clears it:
    not the full restart through [Finished.start_game], whatever happened
    before it, and no action after it; and with the flag set
    [pick_turn_winner] never schedules the end of the game, only the next
    round. *)
Theorem endless_mode_survives_restart (w : World) (setup : SetupCard) (player : pid) :
  owner (lobby w) = Some player →
  let w1 := (Finished.continue_game setup player w).2 in
  endless (lobby w1)
  ∧ ∀ acts1 p s sd pd acts2,
      let w2 := (Finished.start_game p s sd pd (run acts1 w1)).2 in
      let w3 := run acts2 w2 in
      endless (lobby w2) ∧ endless (lobby w3)
      ∧ ∀ setup' q c w4,
          Judgement.pick_turn_winner setup' q c w3 = (Ok tt, w4) →
          tasks w4 = tasks w3 ++ [(next_task w3, start_turn_task setup')]
          ∧ endless (lobby w4).
Proof.
  intros Ho w1.
  assert (endless (lobby w1)) as H1 by by apply continue_game_sets_endless.
  split; [done|]. intros acts1 p s sd pd acts2 w2 w3.
  assert (endless (lobby w2)) as H2.
  { apply (preserves_Finished_start_game endless); try done.
    by apply endless_run. }
  assert (endless (lobby w3)) as H3 by by apply endless_run.
  split_and!; [done|done|]. intros setup' q c w4.
  by apply pick_turn_winner_endless.
Qed.

(** ** The end of the game *)

(** C5, the claim as written fails: the lead plays a card of its own and
    picks it; its score is then the winning score, the game is not endless,
    and the next round is scheduled, not the end of the game. *)
Lemma winning_lead_does_not_finish :
  let w := sample_judgement_lead_played in
  ∃ w' setup,
    Player.pick_turn_winner 0%nat (sample_card 40) w = (Ok tt, w')
    ∧ is_game_endless (lobby w') = false
    ∧ 0%nat ∈ Lobby.all_players (lobby w')
    ∧ is_connected (player_at w' 0%nat) = true
    ∧ score (player_at w' 0%nat) = winning_score (settings (lobby w'))
    ∧ tasks w' = [(1%nat, start_turn_task setup)].
Proof.
  eexists _, _. split; [vm_compute; reflexivity|].
  split_and!; try (vm_compute; reflexivity).
  simpl. by left.
Qed.

(** C5, amended: in non-endless mode [pick_turn_winner] ends the game
    exactly when, after the point is awarded, a player of the roster (the
    lead is not looked at) holds a score equal to the winning score: it
    then schedules the transition to Finished with the first such player
    of the roster as overall winner and schedules no next round; when no
    roster player's score equals the winning score it schedules the next
    round. *)
Theorem pick_turn_winner_finishes_on_equal_score
    (setup : SetupCard) (player : pid) (card : PunchlineCard)
    (cot : CardOnTable) (w : World) :
  is_game_endless (lobby w) = false →
  lead (lobby w) = Some player →
  existsb (λ c, negb (is_open c)) (table (lobby w)) = false →
  find (λ c, card_is card (cot_card c)) (table (lobby w)) = Some cot →
  ∃ w',
    Judgement.pick_turn_winner setup player card w = (Ok tt, w')
    ∧ players (lobby w') = players (lobby w)
    ∧ settings (lobby w') = settings (lobby w)
    ∧ (∀ p, score (player_at w' p) =
            score (player_at w p) + if decide (p = cot_player cot) then 1 else 0)
    ∧ ((∃ before pl after,
          players (lobby w) = before ++ pl :: after
          ∧ score (player_at w' pl) = winning_score (settings (lobby w))
          ∧ (∀ q, q ∈ before →
               score (player_at w' q) ≠ winning_score (settings (lobby w)))
          ∧ tasks w' = tasks w ++ [(next_task w, finish_game_task setup pl)]
          ∧ state (lobby (run_task (finish_game_task setup pl) w').2)
            = Finished pl setup)
       ∨ ((∀ q, q ∈ players (lobby w) →
             score (player_at w' q) ≠ winning_score (settings (lobby w)))
          ∧ tasks w' = tasks w ++ [(next_task w, start_turn_task setup)])).
Proof.
  intros He Hl Ho Hf. eexists. split; [by apply pick_turn_winner_run|].
  split_and!; [done|done| |].
  - intros p. unfold player_at. simpl. case_decide as Hp.
    + subst p. by rewrite lookup_total_insert_eq.
    + rewrite lookup_total_insert_ne by done. lia.
  - unfold next_step, schedule, Judgement.first_at_winning_score. simpl.
    rewrite He.
    destruct (find _ (players (lobby w))) as [pl|] eqn:Hfind.
    + left. apply find_first in Hfind as (before & after & Hsplit & Hpl & Hb).
      exists before, pl, after. split_and!; [done| | |done|].
      * by apply bool_decide_eq_true_1 in Hpl.
      * intros q Hq. specialize (Hb q Hq). by apply bool_decide_eq_false_1 in Hb.
      * by rewrite finish_game_run.
    + right. split; [|done]. intros q Hq.
      pose proof (find_nobody _ _ Hfind q Hq) as Hn.
      by apply bool_decide_eq_false_1 in Hn.
Qed.

Lemma pick_turn_winner_finishes_on_equal_score_witness :
  ∃ w', Judgement.pick_turn_winner (sample_setup 5) 0%nat (sample_card 20)
          sample_judgement = (Ok tt, w')
        ∧ players (lobby w') = players (lobby sample_judgement).
Proof.
  destruct (pick_turn_winner_finishes_on_equal_score (sample_setup 5) 0%nat
              (sample_card 20)
              {| cot_card := sample_card 20; cot_player := 2%nat; is_open := true |}
              sample_judgement)
    as (w' & Hrun & Hplayers & _); [vm_compute; reflexivity..|].
  exists w'. by split.
Defined.

Example sample_game_finishes :
  state (lobby sample_finished) = Finished 2%nat (sample_setup 5)
  ∧ score (player_at sample_finished 2%nat) = 1.
Proof. by vm_compute. Qed.

(** ** Round resolution *)

Lemma for_each_skip {A} (l : list A) (body : A → M unit) (w : World) :
  (∀ x, x ∈ l → body x w = (Ok tt, w)) → for_each l body w = (Ok tt, w).
Proof.
  induction l as [|x l IH]; intros Hb; simpl; [done|].
  unfold bind. rewrite Hb by by left. apply IH. intros y Hy. apply Hb. by right.
Qed.

Lemma all_connected_ready_existsb (w : World) :
  all_connected_ready w ↔
  existsb (λ pl, is_connected (player_at w pl) && negb (is_ready (player_at w pl)))
    (players (lobby w)) = false.
Proof.
  unfold all_connected_ready. induction (players (lobby w)) as [|p ps IH]; simpl.
  - split; [done|]. by intros _ pl ?%elem_of_nil.
  - rewrite orb_false_iff, <-IH. split.
    + intros H. split.
      * specialize (H p (list_elem_of_here _ _)).
        destruct (is_connected _); [|done]. by rewrite H.
      * intros pl Hpl. apply H. by right.
    + intros [Hp H] pl [->|Hpl]%elem_of_cons; [|by apply H].
      destruct (is_connected _); [|done]. intros _.
      by destruct (is_ready _).
Qed.

Lemma end_turn_all_ready setup (w : World) ld :
  all_connected_ready w →
  lead (lobby w) = Some ld →
  Turns.end_turn setup w =
    (Ok tt,
     set_lobby
       (set_state (Judgement setup None)
          (set_table (shuffle (table (lobby w)) (rng w)).1 (lobby w)))
       (set_events
          (events w ++ map (λ p, (p, all_players_ready)) (Lobby.all_players (lobby w)))
          (set_rng (shuffle (table (lobby w)) (rng w)).2 w))).
Proof.
  intros Hall Hlead. unfold Turns.end_turn, bind at 1, get_lobby at 1.
  unfold bind at 1. rewrite for_each_skip.
  - unfold bind, Turns.shuffle_table, get_lobby.
    destruct (shuffle _ _) as [t g]. simpl.
    rewrite notify_all_run. simpl. by rewrite Hlead.
  - intros pl Hpl. unfold bind, get_player.
    specialize (Hall pl Hpl). destruct (is_connected _); [|done].
    by rewrite Hall.
Qed.

(** C3, the claim as written fails: player 2 disconnects without having
    played, player 1 plays and the round resolves; in Judgement there is no
    entry of player 2 on the table and player 2 still holds all its cards. *)
Lemma disconnected_player_gets_no_entry :
  let w := sample_round_without_2 in
  is_connected (player_at w 2%nat) = false
  ∧ state (lobby w) = Judgement (sample_setup 5) None
  ∧ Lobby.card_on_table_of (lobby w) 2%nat = None
  ∧ cot_player <$> table (lobby w) = [1%nat]
  ∧ hand (player_at w 2%nat) = hand (player_at sample_turns 2%nat).
Proof. by vm_compute. Qed.

(** C3, amended: when the round resolves because everybody in the roster
    who is connected is ready, nothing is submitted on behalf of anybody:
    [try_end_turn] leaves every player object as it is, only shuffles the
    table and moves to Judgement; a participant who disconnected without
    playing has no table entry there and keeps its hand. *)
Theorem resolution_skips_disconnected
    (setup : SetupCard) (timer : nat) (w : World) (ld : pid) :
  all_connected_ready w →
  lead (lobby w) = Some ld →
  ∃ w',
    Turns.try_end_turn setup timer w = (Ok tt, w')
    ∧ state (lobby w') = Judgement setup None
    ∧ heap w' = heap w
    ∧ table (lobby w') ≡ₚ table (lobby w)
    ∧ ∀ p, is_connected (player_at w p) = false →
           Lobby.card_on_table_of (lobby w) p = None →
           Lobby.card_on_table_of (lobby w') p = None
           ∧ hand (player_at w' p) = hand (player_at w p).
Proof.
  intros Hall Hlead. pose proof Hall as Hex.
  apply all_connected_ready_existsb in Hex.
  unfold Turns.try_end_turn, bind at 1, get_world. rewrite Hex.
  unfold bind, cancel_task.
  rewrite (end_turn_all_ready setup _ ld) by done.
  eexists. split; [done|]. simpl.
  pose proof (shuffle_Permutation (table (lobby w)) (rng w)) as Hperm.
  split_and!; [done|done|done|].
  intros p _ Hnone. split; [|done].
  unfold Lobby.card_on_table_of in *. simpl.
  apply find_player_None. apply find_player_None in Hnone.
  by rewrite Hperm.
Qed.

Lemma resolution_skips_disconnected_witness :
  ∃ w', Turns.try_end_turn (sample_setup 5) 0%nat sample_before_resolution = (Ok tt, w')
        ∧ is_connected (player_at sample_before_resolution 2%nat) = false
        ∧ Lobby.card_on_table_of (lobby w') 2%nat = None.
Proof.
  assert (all_connected_ready sample_before_resolution) as Hall.
  { apply all_connected_ready_existsb. vm_compute. reflexivity. }
  destruct (resolution_skips_disconnected (sample_setup 5) 0%nat
              sample_before_resolution 0%nat Hall eq_refl)
    as (w' & Hrun & _ & _ & _ & Hskip).
  exists w'. split; [exact Hrun|]. split; [vm_compute; reflexivity|].
  apply Hskip; vm_compute; reflexivity.
Defined.

(** ** Dealing *)

Lemma piles_length_get_card {C} (d d' : Deck C) g g' c :
  Deck.get_card d g = (Ok c, d', g') → length (piles d) = S (length (piles d')).
Proof.
  intros Hp%get_card_Ok. unfold piles. rewrite <-Hp.
  rewrite !length_app. simpl. lia.
Qed.

Lemma draw_punchline_Ok (w : World) :
  piles (punchlines (lobby w)) ≠ [] →
  ∃ c d g,
    Lobby.draw_punchline w = (Ok c, set_rng g (set_lobby (set_punchlines d (lobby w)) w))
    ∧ length (piles (punchlines (lobby w))) = S (length (piles d)).
Proof.
  intros Hne. destruct (get_card_nonempty (punchlines (lobby w)) (rng w) Hne)
    as (c & d & g & Hg).
  exists c, d, g. unfold Lobby.draw_punchline. rewrite Hg.
  split; [done|]. by eapply piles_length_get_card.
Qed.

Lemma draw_setup_Ok (w : World) :
  piles (setups (lobby w)) ≠ [] →
  ∃ c d g,
    Lobby.draw_setup w = (Ok c, set_rng g (set_lobby (set_setups d (lobby w)) w)).
Proof.
  intros Hne. destruct (get_card_nonempty (setups (lobby w)) (rng w) Hne)
    as (c & d & g & Hg).
  exists c, d, g. unfold Lobby.draw_setup. by rewrite Hg.
Qed.

Lemma change_lead_Ok (w : World) :
  Lobby.all_players (lobby w) ≠ [] →
  ∃ p rest,
    Lobby.change_lead w =
      (Ok tt, set_lobby (set_lead (Some p) (set_players rest (lobby w))) w)
    ∧ p :: rest ≡ₚ Lobby.all_players (lobby w).
Proof.
  unfold Lobby.all_players, Lobby.change_lead, bind, get_lobby, modify_lobby.
  destruct (lead (lobby w)) as [ld|] eqn:Hl; simpl.
  - intros _. destruct (players (lobby w) ++ [ld]) as [|p rest] eqn:Hp.
    { by destruct (players (lobby w)). }
    exists p, rest. split; [done|]. rewrite <-Hp. by rewrite Permutation_app_comm.
  - intros Hne. destruct (players (lobby w)) as [|p rest]; [done|].
    by exists p, rest.
Qed.

Lemma start_turn_body_Ok new_setup pl (w : World) :
  piles (punchlines (lobby w)) ≠ [] →
  ∃ w1 d,
    start_turn_body new_setup pl w = (Ok tt, w1)
    ∧ length (hand (player_at w1 pl)) = dealt (length (hand (player_at w pl)))
    ∧ is_ready (player_at w1 pl) = false
    ∧ (∀ q, q ≠ pl → player_at w1 q = player_at w q)
    ∧ lobby w1 = set_punchlines d (lobby w)
    ∧ (length (piles (punchlines (lobby w))) ≤ S (length (piles d)))%nat.
Proof.
  intros Hne.
  unfold start_turn_body, bind, modify_player, get_player, get_lobby, player_at, dealt.
  simpl. rewrite lookup_total_insert_eq. simpl.
  case_bool_decide as Hlen.
  - rewrite decide_False by done.
    set (w0 := set_heap _ w).
    destruct (draw_punchline_Ok w0) as (c & d & g & Hd & Hlend); [exact Hne|].
    rewrite Hd. subst w0. simpl in Hlend.
    unfold Lobby.add_punchline_card, modify_player, notify, player_at.
    simpl. eexists _, d. split; [done|]. simpl.
    rewrite !lookup_total_insert_eq. simpl. rewrite length_app. simpl.
    split_and!; [lia|done| |done|lia].
    intros q Hq. by rewrite !lookup_total_insert_ne by done.
  - rewrite decide_True by (by destruct (decide (length (hand (heap w !!! pl)) = HAND_SIZE))).
    unfold notify. simpl. eexists _, (punchlines (lobby w)).
    split; [done|]. simpl. rewrite !lookup_total_insert_eq. simpl.
    split_and!; [done|done| |by destruct (lobby w)|lia].
    intros q Hq. by rewrite !lookup_total_insert_ne by done.
Qed.

Lemma start_turn_loop_Ok new_setup (ps : list pid) :
  NoDup ps →
  ∀ w : World,
    (length ps ≤ length (piles (punchlines (lobby w))))%nat →
    ∃ w' d,
      for_each ps (start_turn_body new_setup) w = (Ok tt, w')
      ∧ (∀ p, p ∈ ps →
           length (hand (player_at w' p)) = dealt (length (hand (player_at w p)))
           ∧ is_ready (player_at w' p) = false)
      ∧ (∀ q, q ∉ ps → player_at w' q = player_at w q)
      ∧ lobby w' = set_punchlines d (lobby w).
Proof.
  induction 1 as [|p ps Hnin Hnd IH]; intros w Hlen.
  - exists w, (punchlines (lobby w)). simpl.
    split_and!; [done| |done|by destruct (lobby w)]. by intros p ?%elem_of_nil.
  - simpl in Hlen.
    destruct (start_turn_body_Ok new_setup p w) as (w1 & d1 & Hb & Hhand & Hr & Hothers & Hl1 & Hp1).
    { intros Hnil. rewrite Hnil in Hlen. simpl in Hlen. lia. }
    destruct (IH w1) as (w' & d & Hloop & Hin & Hout & Hl').
    { rewrite Hl1. simpl. lia. }
    exists w', d. simpl. unfold bind. rewrite Hb, Hloop.
    split_and!; [done| | |].
    + intros q Hq. apply elem_of_cons in Hq as [Heq|Hq].
      * subst q. by rewrite (Hout p Hnin).
      * destruct (Hin q Hq) as [-> ->]. rewrite Hothers; [done|].
        by intros ->.
    + intros q [Hq1 Hq2]%not_elem_of_cons. rewrite Hout, Hothers by done. done.
    + rewrite Hl', Hl1. done.
Qed.

Lemma start_turn_Ok (w : World) :
  NoDup (Lobby.all_players (lobby w)) →
  Lobby.all_players (lobby w) ≠ [] →
  piles (setups (lobby w)) ≠ [] →
  (length (Lobby.all_players (lobby w)) ≤ length (piles (punchlines (lobby w))))%nat →
  ∃ w' setup timer,
    Lobby.start_turn w = (Ok tt, w')
    ∧ state (lobby w') = Turns setup timer
    ∧ Lobby.all_players (lobby w') ≡ₚ Lobby.all_players (lobby w)
    ∧ ∀ p, p ∈ Lobby.all_players (lobby w') →
        length (hand (player_at w' p)) = dealt (length (hand (player_at w p)))
        ∧ is_ready (player_at w' p) = false.
Proof.
  intros Hnd Hne Hsetups Hlen.
  destruct (change_lead_Ok w Hne) as (p & rest & Hcl & Hperm).
  unfold Lobby.start_turn. unfold bind at 1. rewrite Hcl.
  set (w1 := set_lobby _ w).
  destruct (draw_setup_Ok w1) as (new_setup & d & g & Hds); [exact Hsetups|].
  unfold bind at 1. rewrite Hds.
  unfold bind at 1, modify_lobby at 1. unfold bind at 1, create_task at 1.
  unfold bind at 1, Lobby.transit_to, modify_lobby at 1.
  unfold bind at 1, get_lobby at 1. cbv beta iota.
  set (w2 := set_lobby _ _).
  change (for_each ?l _ w2) with (for_each l (start_turn_body new_setup) w2).
  assert (Lobby.all_players (lobby w2) = p :: rest) as Hall by done.
  rewrite Hall.
  destruct (start_turn_loop_Ok new_setup (p :: rest)) with (w := w2)
    as (w' & d' & Hloop & Hin & _ & Hl').
  { by rewrite Hperm. }
  { rewrite (Permutation_length Hperm). exact Hlen. }
  exists w', new_setup, (next_task w). rewrite Hloop.
  assert (Lobby.all_players (lobby w') = p :: rest) as Hall' by by rewrite Hl'.
  split_and!; [done|by rewrite Hl'|by rewrite Hall'|].
  intros q Hq. rewrite Hall' in Hq. exact (Hin q Hq).
Qed.

Lemma start_turn_body_deal new_setup pl (w : World) :
  piles (punchlines (lobby w)) ≠ [] →
  ∃ w1 new,
    start_turn_body new_setup pl w = (Ok tt, w1)
    ∧ hand (player_at w1 pl) = hand (player_at w pl) ++ new
    ∧ length new = (if decide (length (hand (player_at w pl)) = HAND_SIZE)
                    then 0 else 1)%nat
    ∧ is_ready (player_at w1 pl) = false
    ∧ is_connected (player_at w1 pl) = is_connected (player_at w pl)
    ∧ (∀ q, q ≠ pl → player_at w1 q = player_at w q)
    ∧ lobby w1 = set_punchlines (punchlines (lobby w1)) (lobby w)
    ∧ new ++ piles (punchlines (lobby w1)) ≡ₚ piles (punchlines (lobby w)).
Proof.
  intros Hne.
  unfold start_turn_body, bind, modify_player, get_player, get_lobby, player_at.
  simpl. rewrite lookup_total_insert_eq. simpl.
  case_bool_decide as Hlen.
  - rewrite decide_False by done.
    set (w0 := set_heap _ w).
    destruct (get_card_nonempty (punchlines (lobby w0)) (rng w0)) as (c & d & g & Hg);
      [exact Hne|].
    unfold Lobby.draw_punchline. rewrite Hg. apply get_card_Ok in Hg.
    unfold Lobby.add_punchline_card, modify_player, notify, player_at.
    subst w0. simpl in *. eexists _, [c]. split; [done|]. simpl.
    rewrite !lookup_total_insert_eq. simpl.
    split_and!; [done|done|done|done| |done|].
    + intros q Hq. by rewrite !lookup_total_insert_ne by done.
    + unfold piles. rewrite <-Hg. by rewrite <-Permutation_middle.
  - rewrite decide_True by (by destruct (decide (length (hand (heap w !!! pl)) = HAND_SIZE))).
    unfold notify. simpl. eexists _, []. split; [done|]. simpl.
    rewrite !lookup_total_insert_eq. simpl. rewrite app_nil_r.
    split_and!; [done|done|done|done| |by destruct (lobby w)|done].
    intros q Hq. by rewrite !lookup_total_insert_ne by done.
Qed.

Lemma start_turn_loop_deal new_setup (ps : list pid) :
  NoDup ps →
  ∀ w : World,
    (length ps ≤ length (piles (punchlines (lobby w))))%nat →
    ∃ w',
      for_each ps (start_turn_body new_setup) w = (Ok tt, w')
      ∧ (∀ p, p ∈ ps →
           hand (player_at w' p) = hand (player_at w p) ++ new_cards w w' p
           ∧ length (new_cards w w' p)
             = (if decide (length (hand (player_at w p)) = HAND_SIZE) then 0 else 1)%nat
           ∧ is_ready (player_at w' p) = false
           ∧ is_connected (player_at w' p) = is_connected (player_at w p))
      ∧ (∀ q, q ∉ ps → player_at w' q = player_at w q)
      ∧ lobby w' = set_punchlines (punchlines (lobby w')) (lobby w)
      ∧ concat (new_cards w w' <$> ps) ++ piles (punchlines (lobby w'))
          ≡ₚ piles (punchlines (lobby w)).
Proof.
  induction 1 as [|p ps Hnin Hnd IH]; intros w Hlen.
  - exists w. simpl. split_and!; [done| |done|by destruct (lobby w)|done].
    by intros p ?%elem_of_nil.
  - simpl in Hlen.
    destruct (start_turn_body_deal new_setup p w)
      as (w1 & new & Hb & Hhand & Hnew & Hr & Hc & Hothers & Hl1 & Hp1).
    { intros Hnil. rewrite Hnil in Hlen. simpl in Hlen. lia. }
    destruct (IH w1) as (w' & Hloop & Hin & Hout & Hl' & Hp').
    { apply Permutation_length in Hp1. rewrite length_app in Hp1.
      destruct (decide _); simpl in Hnew; lia. }
    assert (new_cards w w' p = new) as Hnp.
    { unfold new_cards. rewrite (Hout p Hnin), Hhand. apply drop_app_length. }
    assert (new_cards w w' <$> ps = new_cards w1 w' <$> ps) as Hsame.
    { apply Forall_fmap_ext, Forall_forall. intros q Hq. unfold new_cards.
      rewrite Hothers; [done|]. by intros ->. }
    exists w'. cbn [for_each]. unfold bind. rewrite Hb, Hloop.
    split_and!; [done| | | |].
    + intros q Hq. apply elem_of_cons in Hq as [->|Hq].
      * rewrite Hnp. by rewrite !(Hout p Hnin).
      * assert (q ≠ p) as Hqp by (by intros ->).
        destruct (Hin q Hq) as (Hh & Hn & Hrd & Hcn).
        unfold new_cards in *. rewrite (Hothers q Hqp) in *. done.
    + intros q [Hq1 Hq2]%not_elem_of_cons. by rewrite Hout, Hothers.
    + rewrite Hl' at 1. rewrite Hl1. done.
    + rewrite fmap_cons. cbn [concat]. rewrite Hnp, Hsame, <-app_assoc, Hp'. done.
Qed.

(** C4, the claim as written fails for a connected participant of the
    roster.  In [sample_rejoined] every call has returned; player 1 is on
    the roster and connected and holds eight cards: it has played one card
    before it was removed and one after it was added again, and
    [remove_player] has dumped the first.  [start_turn] completes (called
    directly, and as the last step of the owner's [continue_game]) and
    leaves player 1 connected with nine cards, not with HAND_SIZE. *)
Lemma start_turn_leaves_connected_player_short :
  let w := sample_rejoined in
  let w' := (Lobby.start_turn w).2 in
  let w'' := (Player.continue_game 0%nat w).2 in
  all_return rejoin_acts sample_turns = true
  ∧ 1%nat ∈ players (lobby w)
  ∧ is_connected (player_at w 1%nat) = true
  ∧ length (hand (player_at w 1%nat)) = 8%nat
  ∧ (Lobby.start_turn w).1 = Ok tt
  ∧ 1%nat ∈ players (lobby w')
  ∧ is_connected (player_at w' 1%nat) = true
  ∧ length (hand (player_at w' 1%nat)) = 9%nat
  ∧ length (hand (player_at w' 1%nat)) ≠ HAND_SIZE
  ∧ (Player.continue_game 0%nat w).1 = Ok tt
  ∧ 1%nat ∈ players (lobby w'')
  ∧ is_connected (player_at w'' 1%nat) = true
  ∧ length (hand (player_at w'' 1%nat)) = 9%nat.
Proof.
  split_and!.
  - vm_compute. reflexivity.
  - apply (bool_decide_unpack _); vm_compute; exact I.
  - vm_compute. reflexivity.
  - vm_compute. reflexivity.
  - vm_compute. reflexivity.
  - apply (bool_decide_unpack _); vm_compute; exact I.
  - vm_compute. reflexivity.
  - vm_compute. reflexivity.
  - apply (bool_decide_unpack _); vm_compute; exact I.
  - vm_compute. reflexivity.
  - apply (bool_decide_unpack _); vm_compute; exact I.
  - vm_compute. reflexivity.
  - vm_compute. reflexivity.
Qed.

(** C4, amended: [start_turn] draws at most one card for each participant,
    connected or not.  When the participants are distinct, there is
    somebody to lead, a setup card is left and the punchline deck holds a
    card for each participant, [start_turn] completes with the same
    participants, each as connected as before; the hand of each participant
    is its old hand followed by the cards dealt to it: none when the hand
    held HAND_SIZE cards and one otherwise, so that it holds HAND_SIZE cards
    if it held HAND_SIZE or HAND_SIZE - 1 cards before the call and one card
    more than before the call otherwise; and the cards dealt are cards of
    the punchline deck: together with the two piles left they are the cards
    the two piles held. *)
Theorem start_turn_deals_one_card (w : World) :
  NoDup (Lobby.all_players (lobby w)) →
  Lobby.all_players (lobby w) ≠ [] →
  piles (setups (lobby w)) ≠ [] →
  (length (Lobby.all_players (lobby w)) ≤ length (piles (punchlines (lobby w))))%nat →
  ∃ w',
    Lobby.start_turn w = (Ok tt, w')
    ∧ (∀ p, p ∈ Lobby.all_players (lobby w') ↔ p ∈ Lobby.all_players (lobby w))
    ∧ (∀ p, p ∈ Lobby.all_players (lobby w') →
         let before := length (hand (player_at w p)) in
         let after := length (hand (player_at w' p)) in
         is_connected (player_at w' p) = is_connected (player_at w p)
         ∧ hand (player_at w' p) = hand (player_at w p) ++ new_cards w w' p
         ∧ (before = HAND_SIZE ∨ S before = HAND_SIZE → after = HAND_SIZE)
         ∧ (before ≠ HAND_SIZE → after = S before))
    ∧ concat (new_cards w w' <$> Lobby.all_players (lobby w'))
        ++ piles (punchlines (lobby w'))
      ≡ₚ piles (punchlines (lobby w)).
Proof.
  intros Hnd Hne Hsetups Hlen.
  destruct (change_lead_Ok w Hne) as (p & rest & Hcl & Hperm).
  unfold Lobby.start_turn. unfold bind at 1. rewrite Hcl.
  set (w1 := set_lobby _ w).
  destruct (draw_setup_Ok w1) as (new_setup & d & g & Hds); [exact Hsetups|].
  unfold bind at 1. rewrite Hds.
  unfold bind at 1, modify_lobby at 1. unfold bind at 1, create_task at 1.
  unfold bind at 1, Lobby.transit_to, modify_lobby at 1.
  unfold bind at 1, get_lobby at 1. cbv beta iota.
  set (w2 := set_lobby _ _).
  change (for_each ?l _ w2) with (for_each l (start_turn_body new_setup) w2).
  assert (Lobby.all_players (lobby w2) = p :: rest) as Hall by done.
  rewrite Hall.
  destruct (start_turn_loop_deal new_setup (p :: rest)) with (w := w2)
    as (w' & Hloop & Hin & _ & Hl' & Hdeck).
  { by rewrite Hperm. }
  { rewrite (Permutation_length Hperm). exact Hlen. }
  exists w'. rewrite Hloop.
  assert (Lobby.all_players (lobby w') = p :: rest) as Hall' by by rewrite Hl'.
  rewrite Hall'.
  assert (∀ q, new_cards w w' q = new_cards w2 w' q) as Hnew by done.
  split_and!; [done| | |].
  - intros q. by rewrite Hperm.
  - intros q Hq. destruct (Hin q Hq) as (Hh & Hn & _ & Hc).
    change (player_at w2 q) with (player_at w q) in *.
    rewrite <-(Hnew q) in *.
    set (before := length (hand (player_at w q))) in *.
    assert (length (hand (player_at w' q))
            = (before + length (new_cards w w' q))%nat) as Hafter.
    { unfold before. by rewrite Hh at 1; rewrite length_app. }
    rewrite Hafter.
    split_and!; [done|done| |]; destruct (decide (before = HAND_SIZE)); intros; lia.
  - erewrite (proj1 (Forall_fmap_ext _ _ _)); [exact Hdeck|].
    apply Forall_forall. intros q _. apply Hnew.
Qed.

Lemma start_turn_deals_one_card_witness :
  ∃ w', Lobby.start_turn sample_finished = (Ok tt, w')
        ∧ is_connected (player_at sample_finished 2%nat) = true
        ∧ length (hand (player_at sample_finished 2%nat)) = 9%nat
        ∧ is_connected (player_at w' 2%nat) = true
        ∧ length (hand (player_at w' 2%nat)) = HAND_SIZE.
Proof.
  assert (NoDup (Lobby.all_players (lobby sample_finished))) as Hnd
    by (apply (bool_decide_unpack _); vm_compute; exact I).
  assert (Lobby.all_players (lobby sample_finished) ≠ []) as Hne
    by (vm_compute; discriminate).
  assert (piles (setups (lobby sample_finished)) ≠ []) as Hs
    by (vm_compute; discriminate).
  assert (length (Lobby.all_players (lobby sample_finished))
            ≤ length (piles (punchlines (lobby sample_finished))))%nat as Hlen
    by (apply (bool_decide_unpack _); vm_compute; exact I).
  assert (2%nat ∈ Lobby.all_players (lobby sample_finished)) as H2
    by (apply (bool_decide_unpack _); vm_compute; exact I).
  assert (is_connected (player_at sample_finished 2%nat) = true) as Hc
    by (vm_compute; reflexivity).
  assert (length (hand (player_at sample_finished 2%nat)) = 9%nat) as H9
    by (vm_compute; reflexivity).
  pose proof (start_turn_deals_one_card sample_finished Hnd Hne Hs Hlen) as H.
  destruct H as (w' & Hrun & Hsame & Hhands & _).
  apply Hsame in H2. pose proof (Hhands 2%nat H2) as Hp. cbv zeta in Hp.
  destruct Hp as (Hc' & _ & Hfull & _).
  exists w'. split_and!; [exact Hrun|exact Hc|exact H9| |].
  - rewrite Hc'. exact Hc.
  - apply Hfull. right. rewrite H9. reflexivity.
Defined.

(** ** Connecting *)

Lemma connect_run player (w : World) :
  Lobby.connect player w =
    if decide (player ∈ Lobby.all_players (lobby w)) then connect_known player w
    else if decide (player ∈ grave (lobby w)) then connect_known player (rejoin player w)
    else (Raise UnknownPlayerError, w).
Proof.
  unfold Lobby.connect, connect_known. unfold bind at 1, get_lobby at 1.
  unfold bind at 1. cbv beta iota.
  destruct (decide (player ∈ Lobby.all_players (lobby w))) as [Hin|Hnin].
  - by rewrite bool_decide_eq_true_2 by done.
  - rewrite bool_decide_eq_false_2 by done.
    destruct (decide (player ∈ grave (lobby w))) as [Hg|Hng].
    + rewrite bool_decide_eq_true_2 by done.
      unfold bind at 1, modify_lobby at 1, Lobby.add_player.
      unfold bind at 1, modify_lobby at 1. unfold bind at 1, get_lobby at 1.
      cbv beta iota. rewrite notify_all_run. done.
    + by rewrite bool_decide_eq_false_2 by done.
Qed.

Lemma top_up_run (n : nat) player (w : World) :
  (HAND_SIZE - length (hand (player_at w player)) ≤ n)%nat →
  (HAND_SIZE - length (hand (player_at w player))
     ≤ length (piles (punchlines (lobby w))))%nat →
  ∃ w' d drawn,
    Lobby.top_up n player w = (Ok tt, w')
    ∧ hand (player_at w' player) = hand (player_at w player) ++ drawn
    ∧ length drawn = (HAND_SIZE - length (hand (player_at w player)))%nat
    ∧ (∀ q, q ≠ player → player_at w' q = player_at w q)
    ∧ lobby w' = set_punchlines d (lobby w)
    ∧ events w' = events w.
Proof.
  revert w. induction n as [|n IH]; intros w Hn Hpiles.
  - exists w, (punchlines (lobby w)), [].
    unfold Lobby.top_up, bind, get_player. simpl.
    rewrite bool_decide_eq_false_2 by lia.
    rewrite app_nil_r. split_and!; try done; [lia|by destruct (lobby w)].
  - cbn [Lobby.top_up]. unfold bind at 1, get_player at 1. cbv beta iota.
    case_bool_decide as Hlen.
    + destruct (draw_punchline_Ok w) as (c & d & g & Hd & Hlend).
      { intros Hnil. rewrite Hnil in Hpiles. simpl in Hpiles. lia. }
      unfold bind at 1. rewrite Hd.
      unfold bind at 1, Lobby.add_punchline_card, modify_player at 1. cbv beta iota.
      set (w1 := set_heap _ _).
      assert (hand (player_at w1 player) = hand (player_at w player) ++ [c]) as Hh1.
      { unfold w1, player_at. simpl. by rewrite lookup_total_insert_eq. }
      destruct (IH w1) as (w' & d' & drawn & Hrun & Hhand & Hdrawn & Hothers & Hl & Hev).
      { rewrite Hh1, length_app. simpl. lia. }
      { rewrite Hh1, length_app. simpl. lia. }
      exists w', d', (c :: drawn). rewrite Hrun.
      split_and!; [done| | | | |].
      * by rewrite Hhand, Hh1, <-app_assoc.
      * simpl. rewrite Hdrawn, Hh1, length_app. simpl. lia.
      * intros q Hq. rewrite Hothers by done. unfold w1, player_at. simpl.
        by rewrite lookup_total_insert_ne.
      * by rewrite Hl.
      * by rewrite Hev.
    + exists w, (punchlines (lobby w)), []. rewrite app_nil_r.
      split_and!; try done; [simpl; lia|by destruct (lobby w)].
Qed.


Lemma top_up_errors (n : nat) player (w w' : World) e :
  Lobby.top_up n player w = (Raise e, w') → e = IndexError ∨ e = LoopBoundExceeded.
Proof.
  revert w. induction n as [|n IH]; intros w; cbn [Lobby.top_up];
    unfold bind at 1, get_player at 1; cbv beta iota.
  - case_bool_decide; [|done]. intros [= <- _]. by right.
  - case_bool_decide; [|done]. unfold bind at 1, Lobby.draw_punchline.
    destruct (Deck.get_card _ _) as [[[c|e'] d] g] eqn:Hg.
    + unfold bind at 1, Lobby.add_punchline_card, modify_player. cbv beta iota.
      apply IH.
    + apply get_card_Raise in Hg as (-> & _). intros [= <- _]. by left.
Qed.

Lemma top_up_lobby (n : nat) player (w : World) :
  ∃ d, lobby (Lobby.top_up n player w).2 = set_punchlines d (lobby w).
Proof.
  revert w. induction n as [|n IH]; intros w; cbn [Lobby.top_up];
    unfold bind at 1, get_player at 1; cbv beta iota.
  - exists (punchlines (lobby w)). case_bool_decide; simpl; by destruct (lobby w).
  - case_bool_decide; [|exists (punchlines (lobby w)); simpl; by destruct (lobby w)].
    unfold bind at 1, Lobby.draw_punchline.
    destruct (Deck.get_card _ _) as [[[c|e'] d] g] eqn:Hg.
    + unfold bind at 1, Lobby.add_punchline_card, modify_player. cbv beta iota.
      edestruct IH as [d' ->]. by exists d'.
    + by exists d.
Qed.

Lemma connect_known_unfold player (w : World) :
  connect_known player w =
    match (match state (lobby w) with
           | Gathering => ret tt
           | _ => Lobby.top_up HAND_SIZE player
           end) w with
    | (Ok _, w1) => (Ok tt, announce_connected player w1)
    | (Raise e, w1) => (Raise e, w1)
    end.
Proof.
  unfold connect_known, bind at 1, get_lobby at 1. unfold bind at 1. cbv beta iota.
  assert (∀ w1, bind get_lobby (λ l, notify_all (Lobby.all_players_except l player)
             (player_connected player)) w1 = (Ok tt, announce_connected player w1)) as Hn.
  { intros w1. unfold bind, get_lobby. by rewrite notify_all_run. }
  destruct (state (lobby w)); [apply Hn|..];
    (destruct (Lobby.top_up _ _ _) as [[[]|e] w1]; [apply Hn|done]).
Qed.

Lemma connect_known_not_unknown player (w : World) :
  (connect_known player w).1 ≠ Raise UnknownPlayerError.
Proof.
  rewrite connect_known_unfold.
  destruct (state (lobby w)); [done|..];
    (destruct (Lobby.top_up _ _ _) as [[[]|e] w1] eqn:Ht; [done|];
     apply top_up_errors in Ht as [-> | ->]; done).
Qed.

Lemma connect_known_lobby player (w : World) :
  ∃ d, lobby (connect_known player w).2 = set_punchlines d (lobby w).
Proof.
  rewrite connect_known_unfold.
  destruct (state (lobby w));
    [exists (punchlines (lobby w)); simpl; by destruct (lobby w)|..];
    (destruct (top_up_lobby HAND_SIZE player w) as [d Hd];
     destruct (Lobby.top_up _ _ _) as [[[]|e] w1]; by exists d).
Qed.





(** ** Refreshing a hand *)

Lemma draw_hand_run (n : nat) (w : World) :
  (n ≤ length (piles (punchlines (lobby w))))%nat →
  ∃ cs d g,
    Turns.draw_hand n w = (Ok cs, set_rng g (set_lobby (set_punchlines d (lobby w)) w))
    ∧ length cs = n
    ∧ (length (piles (punchlines (lobby w))) = n + length (piles d))%nat.
Proof.
  revert w. induction n as [|n IH]; intros w Hn.
  - exists [], (punchlines (lobby w)), (rng w). simpl. unfold ret.
    split_and!; [|done|done]. destruct w as [h l r e t nt]. by destruct l.
  - destruct (draw_punchline_Ok w) as (c & d & g & Hd & Hlen).
    { intros Hnil. rewrite Hnil in Hn. simpl in Hn. lia. }
    cbn [Turns.draw_hand]. unfold bind at 1. rewrite Hd.
    set (w1 := set_rng _ _).
    destruct (IH w1) as (cs & d' & g' & Hrun & Hcs & Hlen').
    { unfold w1. simpl. lia. }
    exists (c :: cs), d', g'. unfold bind at 1. rewrite Hrun.
    split_and!; [done|simpl; lia|]. unfold w1 in Hlen'. simpl in Hlen'. lia.
Qed.

(** What [refresh_hand] does for a player who is not ready while the deck
    holds a full hand: the hand is replaced and the old one discarded
    before the score is looked at. *)
Lemma refresh_hand_run player (w : World) :
  is_ready (player_at w player) = false →
  (HAND_SIZE ≤ length (piles (punchlines (lobby w))))%nat →
  ∃ new_hand d g,
    length new_hand = HAND_SIZE
    ∧ Turns.draw_hand HAND_SIZE w =
        (Ok new_hand, set_rng g (set_lobby (set_punchlines d (lobby w)) w))
    ∧ let w1 :=
        set_heap (<[player := set_hand new_hand (player_at w player)]> (heap w))
          (set_rng g
             (set_lobby
                (set_punchlines (Deck.dump d (hand (player_at w player))) (lobby w)) w)) in
      Turns.refresh_hand player w =
        if bool_decide (score (player_at w player) < 0)
        then (Raise ScoreTooLowError, w1)
        else
          (Ok tt,
           set_events
             (events w ++ (player, hand_refreshed new_hand)
                :: map (λ p, (p, player_score_changed player)) (Lobby.all_players (lobby w)))
             (set_heap
                (<[player := set_score (score (player_at w player) - 1)
                               (set_hand new_hand (player_at w player))]> (heap w))
                w1)).
Proof.
  intros Hready Hpiles.
  destruct (draw_hand_run HAND_SIZE w Hpiles) as (new_hand & d & g & Hrun & Hlen & _).
  exists new_hand, d, g. split_and!; [done|done|].
  unfold Turns.refresh_hand, bind at 1, get_player at 1. cbv beta iota.
  rewrite Hready. unfold bind at 1. rewrite Hrun.
  unfold bind, get_player, Lobby.dump_punchlines, modify_lobby, modify_player, notify,
    get_lobby, player_at.
  simpl. rewrite !lookup_total_insert_eq. simpl.
  case_bool_decide; [done|].
  rewrite notify_all_run. destruct w as [hp l rg ev tk nt]. destruct l. simpl.
  rewrite !lookup_total_insert_eq, insert_insert_eq. simpl.
  by rewrite <-app_assoc.
Qed.

(** C2, the code at the failing input: player 1, not ready and at score
    -1, asks for a new hand.  The call raises [ScoreTooLowError], and yet
    the hand has been replaced and the deck has changed. *)
Theorem refresh_hand_low_score_replaces_hand :
  let w := sample_refreshed in
  let r := Player.refresh_hand 1%nat w in
  score (player_at w 1%nat) = -1
  ∧ is_ready (player_at w 1%nat) = false
  ∧ r.1 = Raise ScoreTooLowError
  ∧ score (player_at r.2 1%nat) = -1
  ∧ card_obj <$> hand (player_at w 1%nat) = [10; 9; 8; 7; 6; 5; 4; 3; 2; 1]%nat
  ∧ card_obj <$> hand (player_at r.2 1%nat) = [30; 21; 22; 23; 24; 25; 26; 27; 28; 29]%nat
  ∧ card_obj <$> _dump (punchlines (lobby w)) = [30; 29; 28; 27; 26; 25; 24; 23; 22; 21]%nat
  ∧ card_obj <$> _dump (punchlines (lobby r.2)) = [10; 9; 8; 7; 6; 5; 4; 3; 2; 1]%nat.
Proof.
  intros w r. split_and!; vm_compute; reflexivity.
Qed.

Lemma refresh_hand_low_score player (w : World) :
  is_ready (player_at w player) = false →
  (HAND_SIZE ≤ length (piles (punchlines (lobby w))))%nat →
  score (player_at w player) < 0 →
  ∃ new_hand d w',
    Turns.refresh_hand player w = (Raise ScoreTooLowError, w')
    ∧ length new_hand = HAND_SIZE
    ∧ hand (player_at w' player) = new_hand
    ∧ score (player_at w' player) = score (player_at w player)
    ∧ punchlines (lobby w') = Deck.dump d (hand (player_at w player)).
Proof.
  intros Hr Hp Hs.
  destruct (refresh_hand_run player w Hr Hp) as (new_hand & d & g & Hlen & _ & Hrun).
  simpl in Hrun. rewrite bool_decide_eq_true_2 in Hrun by done.
  eexists new_hand, d, _. split; [exact Hrun|].
  unfold player_at. simpl. rewrite lookup_total_insert_eq. done.
Qed.

Lemma refresh_hand_pays_a_point player (w : World) :
  is_ready (player_at w player) = false →
  (HAND_SIZE ≤ length (piles (punchlines (lobby w))))%nat →
  0 ≤ score (player_at w player) →
  ∃ new_hand d w',
    Turns.refresh_hand player w = (Ok tt, w')
    ∧ length new_hand = HAND_SIZE
    ∧ hand (player_at w' player) = new_hand
    ∧ score (player_at w' player) = score (player_at w player) - 1
    ∧ punchlines (lobby w') = Deck.dump d (hand (player_at w player)).
Proof.
  intros Hr Hp Hs.
  destruct (refresh_hand_run player w Hr Hp) as (new_hand & d & g & Hlen & _ & Hrun).
  simpl in Hrun. rewrite bool_decide_eq_false_2 in Hrun by lia.
  eexists new_hand, d, _. split; [exact Hrun|].
  unfold player_at. simpl. rewrite lookup_total_insert_eq. done.
Qed.

(** ** Restarting a finished game *)

Lemma reset_player_run (pl : pid) (w : World) :
  (modify_player pl (set_hand []) ;;; modify_player pl (set_score 0)) w =
    (Ok tt, set_heap (<[pl := set_score 0 (set_hand [] (player_at w pl))]> (heap w)) w).
Proof.
  unfold bind, modify_player, player_at. simpl.
  by rewrite lookup_total_insert_eq, insert_insert_eq.
Qed.

Lemma reset_players_run (ps : list pid) (w : World) :
  ∃ h,
    for_each ps (λ pl, modify_player pl (set_hand []) ;;; modify_player pl (set_score 0)) w
      = (Ok tt, set_heap h w)
    ∧ (∀ p, p ∈ ps → hand (h !!! p) = [] ∧ score (h !!! p) = 0)
    ∧ (∀ p, p ∉ ps → h !!! p = heap w !!! p).
Proof.
  revert w. induction ps as [|p ps IH]; intros w.
  - exists (heap w). simpl. split_and!; [by destruct w| |done].
    by intros p ?%elem_of_nil.
  - cbn [for_each]. unfold bind at 1. rewrite reset_player_run.
    set (w1 := set_heap _ w).
    destruct (IH w1) as (h & Hrun & Hin & Hout).
    exists h. rewrite Hrun. split_and!; [done| |].
    + intros q Hq. destruct (decide (q ∈ ps)) as [?|Hnin]; [by apply Hin|].
      apply elem_of_cons in Hq as [->|?]; [|done].
      rewrite (Hout p Hnin). unfold w1. simpl. by rewrite lookup_total_insert_eq.
    + intros q [Hne Hnin]%not_elem_of_cons. rewrite (Hout q Hnin).
      unfold w1. simpl. by rewrite lookup_total_insert_ne.
Qed.

(** What [Finished.start_game] has done when somebody who is not the owner
    calls it: the owner check of [Gathering.start_game] raises only after
    the table, the round counter, the hands, the scores and the phase have
    been reset. *)
Lemma restart_by_non_owner player s sd pd (w : World) :
  owner (lobby w) ≠ Some player →
  ∃ w',
    Finished.start_game player s sd pd w = (Raise PlayerNotOwnerError, w')
    ∧ state (lobby w') = Gathering
    ∧ table (lobby w') = []
    ∧ turn_count (lobby w') = 0
    ∧ ∀ p, p ∈ Lobby.all_players (lobby w) →
        hand (player_at w' p) = [] ∧ score (player_at w' p) = 0.
Proof.
  intros Ho. unfold Finished.start_game.
  unfold bind at 1, modify_lobby at 1. unfold bind at 1, modify_lobby at 1.
  unfold bind at 1, get_lobby at 1. cbv beta iota.
  set (w0 := set_lobby _ _).
  destruct (reset_players_run (Lobby.all_players (lobby w0)) w0) as (h & Hrun & Hin & _).
  unfold bind at 1. rewrite Hrun.
  unfold bind at 1, Lobby.transit_to, modify_lobby.
  unfold Gathering.start_game, bind at 1, get_lobby. cbv beta iota. simpl.
  rewrite bool_decide_eq_false_2 by done. simpl.
  eexists. split; [done|]. simpl. split_and!; try done.
Qed.

(** C1, the code at the failing input: in the finished sample game player
    1, who is not the owner, calls [start_game].  The call raises
    [PlayerNotOwnerError], and yet the lobby is not the one before the
    call: the phase is Gathering, the round counter is 0, the winner's
    point is gone and the hands are empty. *)
Theorem restart_by_non_owner_resets_lobby :
  let w := sample_finished in
  let r := Player.start_game 1%nat sample_settings sample_setups sample_punchlines w in
  owner (lobby w) = Some 0%nat
  ∧ r.1 = Raise PlayerNotOwnerError
  ∧ state (lobby w) = Finished 2%nat (sample_setup 5)
  ∧ state (lobby r.2) = Gathering
  ∧ turn_count (lobby w) = 1
  ∧ turn_count (lobby r.2) = 0
  ∧ score (player_at w 2%nat) = 1
  ∧ score (player_at r.2 2%nat) = 0
  ∧ length (hand (player_at w 1%nat)) = 9%nat
  ∧ hand (player_at r.2 1%nat) = [].
Proof.
  intros w r. split_and!; vm_compute; reflexivity.
Qed.

Lemma one_entry_each_run acts (w : World) :
  one_entry_each (lobby w) → one_entry_each (lobby (run acts w)).
Proof.
  revert w. induction acts as [|a acts IH]; intros w Hw; simpl; [done|].
  apply IH. by apply one_entry_each_step.
Qed.

Lemma one_entry_each_new_lobby s o sd pd g acts :
  one_entry_each (lobby (run acts (new_world (new_lobby s o sd pd) g))).
Proof. apply one_entry_each_run. intros p. simpl. lia. Qed.

(** C8: a lobby in which no player has two table entries stays so through
    every action, so from a new lobby on, and at every point of the Turns
    phase, each participant has at most one entry; and when a participant
    that has an entry submits a card of its hand, [put_card_on_table]
    returns, the previous entry is taken off the table and its card put
    back into the hand, from which the new card is taken, and the new entry
    is the only one of that participant. *)
Theorem one_table_entry_per_player (w : World) :
  one_entry_each (lobby w) →
  (∀ acts, one_entry_each (lobby (run acts w)))
  ∧ ∀ player card prev,
      Lobby.card_on_table_of (lobby w) player = Some prev →
      card_in card (hand (player_at w player)) = true →
      ∃ w' t' h',
        Turns.put_card_on_table player card w = (Ok tt, w')
        ∧ list_remove (λ c, bool_decide (c = prev)) (table (lobby w)) = Some t'
        ∧ table (lobby w') =
            t' ++ [{| cot_card := card; cot_player := player; is_open := false |}]
        ∧ entries_of player (table (lobby w')) =
            [{| cot_card := card; cot_player := player; is_open := false |}]
        ∧ list_remove (card_same card) (hand (player_at w player) ++ [cot_card prev])
            = Some h'
        ∧ hand (player_at w' player) = h'
        ∧ one_entry_each (lobby w').
Proof.
  intros Hone. split; [intros acts; by apply one_entry_each_run|].
  intros player card prev Hprev Hin.
  destruct (put_card_on_table_again w player card prev Hone Hprev Hin)
    as (w' & t' & h' & Hrun & Hr & Hnin & Ht & Hh & Hhand & _).
  exists w', t', h'. split_and!; try done.
  - rewrite Ht. unfold entries_of. rewrite filter_app.
    fold (entries_of player t'). rewrite (filter_player_nil _ _ Hnin).
    by rewrite filter_cons_True.
  - pose proof (put_card_on_table_one_entry_each player card w Hone) as H.
    by rewrite Hrun in H.
Qed.

Lemma one_table_entry_per_player_witness :
  ∃ w', Turns.put_card_on_table 1%nat (sample_card 29) sample_played = (Ok tt, w')
        ∧ cot_card <$> table (lobby sample_played) = [sample_card 30]
        ∧ cot_card <$> table (lobby w') = [sample_card 29]
        ∧ sample_card 30 ∈ hand (player_at w' 1%nat).
Proof.
  destruct (one_table_entry_per_player sample_played) as [_ Hagain].
  { apply one_entry_each_NoDup. apply (bool_decide_unpack _); vm_compute; exact I. }
  destruct (Hagain 1%nat (sample_card 29) (sample_entry 30 1%nat))
    as (w' & t' & h' & Hrun & Hr & Ht & _ & Hh & Hhand & _);
    [vm_compute; reflexivity..|].
  exists w'. split_and!; [exact Hrun|vm_compute; reflexivity| |].
  - rewrite Ht. vm_compute in Hr. injection Hr as <-. reflexivity.
  - rewrite Hhand. vm_compute in Hh. injection Hh as <-.
    apply (bool_decide_unpack _); vm_compute; exact I.
Defined.

Lemma endless_mode_survives_restart_witness :
  owner (lobby sample_finished) = Some 0%nat
  ∧ endless (lobby (Finished.continue_game (sample_setup 5) 0%nat sample_finished).2).
Proof.
  assert (owner (lobby sample_finished) = Some 0%nat) as Ho by (vm_compute; reflexivity).
  split; [exact Ho|].
  exact (proj1 (endless_mode_survives_restart sample_finished (sample_setup 5) 0%nat Ho)).
Defined.

(** ** Removing a player *)

Lemma list_remove_elem_of (player : pid) (ps : list pid) :
  player ∈ ps → is_Some (list_remove (λ p, bool_decide (p = player)) ps).
Proof.
  intros Hin. apply list_remove_is_Some. apply existsb_exists.
  exists player. split; [by apply list_elem_of_In|by apply bool_decide_eq_true_2].
Qed.

Lemma list_remove_not_elem_of (player : pid) (ps : list pid) :
  player ∉ ps → list_remove (λ p, bool_decide (p = player)) ps = None.
Proof.
  induction ps as [|q ps IH]; [done|]. intros [Hne Hnin]%not_elem_of_cons.
  simpl. rewrite bool_decide_eq_false_2 by done. by rewrite IH.
Qed.

Lemma change_owner_run (w : World) :
  Lobby.change_owner w =
    (Ok tt,
     set_lobby
       (set_owner (find (λ p, is_connected (player_at w p)) (Lobby.all_players (lobby w)))
          (lobby w)) w).
Proof.
  unfold Lobby.change_owner, bind, modify_lobby, get_world. simpl.
  change (Lobby.all_players (set_owner None (lobby w))) with (Lobby.all_players (lobby w)).
  change (player_at (set_lobby (set_owner None (lobby w)) w)) with (player_at w).
  destruct (find _ _); simpl; [done|].
  destruct w as [h l r e t n]. by destruct l.
Qed.

Lemma remove_player_run (player : pid) (w : World) :
  Lobby_remove_player player w = state_remove_player player (removed player w).
Proof.
  unfold Lobby_remove_player, removed.
  (* the lead *)
  unfold bind at 1, get_lobby at 1. unfold bind at 1. cbv beta iota.
  assert ((if bool_decide (lead (lobby w) = Some player)
           then modify_lobby (set_lead None) else ret tt) w
          = (Ok tt, set_lobby (unlead player (lobby w)) w)) as ->.
  { unfold unlead. case_bool_decide.
    - by rewrite decide_True.
    - rewrite decide_False by done. destruct w as [h l r e t n]. by destruct l. }
  set (w1 := set_lobby (unlead player (lobby w)) w).
  (* the roster *)
  unfold bind at 1, get_lobby at 1. unfold bind at 1. cbv beta iota.
  assert ((if bool_decide (player ∈ players (lobby w1))
           then match list_remove (λ p, bool_decide (p = player)) (players (lobby w1)) with
                | Some ps => modify_lobby (set_players ps)
                | None => raise ValueError
                end
           else ret tt) w1
          = (Ok tt, set_lobby (unroster player (lobby w1)) w1)) as ->.
  { unfold unroster. case_bool_decide as Hin.
    - destruct (list_remove_elem_of _ _ Hin) as [ps ->]. done.
    - rewrite (list_remove_not_elem_of _ _ Hin).
      destruct w1 as [h l r e t n]. by destruct l. }
  set (w2 := set_lobby (unroster player (lobby w1)) w1).
  (* the owner *)
  unfold bind at 1, get_lobby at 1. unfold bind at 1. cbv beta iota.
  assert ((if bool_decide (owner (lobby w2) = Some player)
           then Lobby.change_owner;;;
                (do l <- get_lobby;
                 notify_all (Lobby.all_players_except l player) (owner_changed (owner l)))
           else ret tt) w2
          = (Ok tt,
             set_events
               (events w2 ++
                if decide (owner (lobby w2) = Some player)
                then map (λ p, (p, owner_changed (owner (reown player w (lobby w2)))))
                       (Lobby.all_players_except (reown player w (lobby w2)) player)
                else [])
               (set_lobby (reown player w (lobby w2)) w2))) as ->.
  { unfold reown. case_bool_decide as Ho.
    - rewrite !decide_True by done. unfold bind at 1. rewrite change_owner_run.
      unfold bind, get_lobby. by rewrite notify_all_run.
    - rewrite !decide_False by done. rewrite app_nil_r.
      destruct w2 as [h l r e t n]. by destruct l. }
  set (l2 := reown player w (lobby w2)).
  (* the grave and the table *)
  unfold bind at 1, modify_lobby at 1. unfold bind at 1, get_lobby at 1.
  unfold bind at 1. cbv beta iota.
  set (w3 := set_lobby _ (set_events _ _)).
  assert (match Lobby.card_on_table_of (lobby w3) player with
          | Some card_on_table =>
              Lobby.dump_punchlines [cot_card card_on_table];;;
              match list_remove (λ c, bool_decide (c = card_on_table)) (table (lobby w3)) with
              | Some t => modify_lobby (set_table t)
              | None => raise ValueError
              end
          | None => ret tt
          end w3 = (Ok tt, set_lobby (untable player (lobby w3)) w3)) as ->.
  { unfold untable. destruct (Lobby.card_on_table_of (lobby w3) player) as [c|] eqn:Hc.
    - destruct (remove_found_entry _ _ _ Hc) as (t & Ht & _).
      rewrite Ht. by unfold bind, Lobby.dump_punchlines, modify_lobby.
    - destruct w3 as [h l r e t n]. by destruct l. }
  unfold bind at 1, get_lobby at 1. unfold bind at 1. rewrite notify_all_run.
  done.
Qed.

Lemma for_each_rel {A} (R : World → World → Prop) (l : list A) (body : A → M unit) :
  (∀ w, R w w) →
  (∀ w1 w2 w3, R w1 w2 → R w2 w3 → R w1 w3) →
  (∀ x w, x ∈ l → R w (body x w).2) →
  ∀ w, R w (for_each l body w).2.
Proof.
  intros Hrefl Htrans. induction l as [|x l IH]; intros Hb w; simpl; [done|].
  unfold bind. pose proof (Hb x w (list_elem_of_here _ _)) as Hx.
  destruct (body x w) as [[[]|e] w1]; simpl in *; [|done].
  eapply Htrans; [exact Hx|]. apply IH. intros y w2 Hy. apply Hb. by right.
Qed.

Lemma put_card_on_table_frame l0 player card :
  preserves (lobby_inv (same_but_table_and_state l0))
    (Turns.put_card_on_table player card).
Proof.
  intros w Hw.
  unfold Turns.put_card_on_table, bind, get_player, get_lobby, lobby_inv in *.
  simpl. destruct (negb _); [done|].
  destruct (Lobby.card_on_table_of _ _) as [prev|]; simpl.
  - destruct (list_remove _ (table _)); simpl; [|done].
    destruct (list_remove _ _); simpl; [|done]. by rewrite notify_all_run.
  - destruct (list_remove _ _); simpl; [|done]. by rewrite notify_all_run.
Qed.

Lemma state_remove_player_frame l0 player :
  preserves (lobby_inv (same_but_table_and_state l0)) (state_remove_player player).
Proof.
  apply preserves_state_remove_player; try done.
  apply put_card_on_table_frame.
Qed.

Lemma put_card_on_table_entries_from player card (w : World) :
  entries_from [player] w (Turns.put_card_on_table player card w).2.
Proof.
  assert (∀ t' : list CardOnTable, t' `sublist_of` table (lobby w) →
    ∀ x, x ∈ cot_player <$>
           t' ++ [{| cot_card := card; cot_player := player; is_open := false |}] →
         x ∈ [player] ∨ x ∈ cot_player <$> table (lobby w)) as Happ.
  { intros t' Hsub x. rewrite fmap_app, elem_of_app. intros [Hx|Hx].
    - right. eapply elem_of_sublist; [exact Hx|]. by apply fmap_sublist.
    - left. simpl in Hx. done. }
  unfold entries_from, Turns.put_card_on_table, bind, get_player, get_lobby.
  simpl. destruct (negb _); [by right|].
  unfold Lobby.card_on_table_of.
  destruct (find _ (table (lobby w))) as [prev|] eqn:Hf.
  - destruct (remove_found_entry _ _ _ Hf) as (t' & Hr & _). rewrite Hr. simpl.
    apply list_remove_sublist in Hr.
    destruct (list_remove (card_same card) _); simpl; [rewrite notify_all_run|];
      by apply Happ.
  - simpl.
    destruct (list_remove (card_same card) _); simpl; [rewrite notify_all_run|];
      by apply Happ.
Qed.

Lemma entries_from_refl ps (w : World) : entries_from ps w w.
Proof. intros x Hx. by right. Qed.

Lemma entries_from_trans ps (w1 w2 w3 : World) :
  entries_from ps w1 w2 → entries_from ps w2 w3 → entries_from ps w1 w3.
Proof.
  intros H12 H23 x Hx. destruct (H23 x Hx) as [?|Hx2]; [by left|]. by apply H12.
Qed.

Lemma end_turn_entries_from setup (w : World) :
  entries_from (players (lobby w)) w (Turns.end_turn setup w).2.
Proof.
  unfold Turns.end_turn. unfold bind at 1, get_lobby at 1. cbv beta iota.
  set (ps := players (lobby w)).
  pose proof (for_each_rel (entries_from ps) ps
    (λ player, do p <- get_player player;
       if is_connected p && negb (is_ready p)
       then do c <- Turns.random_choice (hand p); Turns.put_card_on_table player c
       else ret tt)
    (entries_from_refl ps) (entries_from_trans ps)) as Hloop.
  unfold bind at 1.
  assert (∀ x w0, x ∈ ps → entries_from ps w0
    ((do p <- get_player x;
       if is_connected p && negb (is_ready p)
       then do c <- Turns.random_choice (hand p); Turns.put_card_on_table x c
       else ret tt) w0).2) as Hbody.
  { intros x w0 Hx. unfold bind at 1, get_player.
    destruct (_ && _); [|apply entries_from_refl].
    unfold bind, Turns.random_choice. destruct (choice _ _) as [[c|e] g]; simpl.
    - intros y Hy.
      destruct (put_card_on_table_entries_from x c (set_rng g w0) y Hy) as [Hl|Hr].
      + left. apply list_elem_of_singleton in Hl. by subst.
      + by right.
    - intros y Hy. by right. }
  specialize (Hloop Hbody w).
  destruct (for_each ps _ w) as [[[]|e] w1]; simpl in *; [|done].
  unfold bind at 1, Turns.shuffle_table.
  pose proof (shuffle_Permutation (table (lobby w1)) (rng w1)) as Hperm.
  destruct (shuffle _ _) as [t g]. simpl in Hperm.
  unfold bind at 1, get_lobby at 1. unfold bind at 1. rewrite notify_all_run.
  assert (∀ w2 : World, table (lobby w2) = t → entries_from ps w w2) as Hfin.
  { intros w2 Ht x Hx. rewrite Ht, Hperm in Hx. by apply Hloop. }
  simpl. destruct (lead (lobby w1)); simpl; by apply Hfin.
Qed.

Ltac stages :=
  unfold removed, untable, reown, unroster, unlead;
  repeat first [case_decide | case_match]; simpl; try done.

Lemma removed_lead player (w : World) :
  lead (lobby (removed player w)) =
    if decide (lead (lobby w) = Some player) then None else lead (lobby w).
Proof. stages. Qed.

Lemma removed_lead_ne player (w : World) :
  lead (lobby (removed player w)) ≠ Some player.
Proof. rewrite removed_lead. by case_decide. Qed.

Lemma removed_players player (w : World) :
  players (lobby (removed player w)) =
    default (players (lobby w))
      (list_remove (λ p, bool_decide (p = player)) (players (lobby w))).
Proof.
  unfold removed, untable, reown.
  assert (players (unroster player (unlead player (lobby w))) =
          default (players (lobby w))
            (list_remove (λ p, bool_decide (p = player)) (players (lobby w)))) as <-.
  { unfold unroster, unlead. case_decide; simpl; by case_match. }
  repeat first [case_decide | case_match]; simpl; done.
Qed.

Lemma removed_grave player (w : World) :
  grave (lobby (removed player w)) = {[player]} ∪ grave (lobby w).
Proof. stages. Qed.

Lemma removed_state player (w : World) :
  state (lobby (removed player w)) = state (lobby w).
Proof. stages. Qed.

Lemma removed_heap player (w : World) : heap (removed player w) = heap w.
Proof. done. Qed.

Lemma removed_tasks player (w : World) : tasks (removed player w) = tasks w.
Proof. done. Qed.

Lemma filter_ne_id (player : pid) (ps : list pid) :
  player ∉ ps → filter (λ p, p ≠ player) ps = ps.
Proof.
  induction ps as [|q ps IH]; [done|]. intros [Hne Hnin]%not_elem_of_cons.
  rewrite filter_cons_True by done. by rewrite IH.
Qed.

Lemma list_remove_NoDup (player : pid) (ps ps' : list pid) :
  NoDup ps →
  list_remove (λ p, bool_decide (p = player)) ps = Some ps' →
  (player ∉ ps') ∧ ps' = filter (λ p, p ≠ player) ps.
Proof.
  revert ps'. induction ps as [|q ps IH]; intros ps'; [done|].
  rewrite NoDup_cons. intros [Hq Hnd]. simpl. case_bool_decide as Heq.
  - intros [= <-]. subst q. split; [done|].
    rewrite filter_cons_False by (intros ?; done).
    by rewrite filter_ne_id.
  - destruct (list_remove _ ps) as [ps0|] eqn:Hr; [|done]. intros [= <-].
    destruct (IH ps0 Hnd eq_refl) as [Hnin ->].
    split; [|by rewrite filter_cons_True].
    rewrite not_elem_of_cons. split; [done|exact Hnin].
Qed.

Lemma removed_players_NoDup player (w : World) :
  NoDup (players (lobby w)) →
  players (lobby (removed player w)) = filter (λ p, p ≠ player) (players (lobby w)).
Proof.
  intros Hnd. rewrite removed_players.
  destruct (list_remove _ _) as [ps'|] eqn:Hr; simpl.
  - by destruct (list_remove_NoDup _ _ _ Hnd Hr).
  - destruct (decide (player ∈ players (lobby w))) as [Hin|Hnin].
    + destruct (list_remove_elem_of _ _ Hin) as [? Heq]. congruence.
    + by rewrite filter_ne_id.
Qed.

Lemma removed_all_players player (w : World) :
  NoDup (Lobby.all_players (lobby w)) →
  Lobby.all_players (lobby (removed player w)) =
    filter (λ p, p ≠ player) (Lobby.all_players (lobby w)).
Proof.
  unfold Lobby.all_players. rewrite removed_lead.
  destruct (lead (lobby w)) as [ld|] eqn:Hl.
  - rewrite NoDup_cons. intros [Hld Hnd]. rewrite removed_players_NoDup by done.
    case_decide as Heq.
    + injection Heq as ->. rewrite filter_cons_False by (intros ?; done).
      done.
    + rewrite filter_cons_True by congruence. done.
  - intros Hnd. rewrite decide_False by done. by apply removed_players_NoDup.
Qed.

Lemma removed_table player (w : World) :
  one_entry_each (lobby w) →
  player ∉ cot_player <$> table (lobby (removed player w)).
Proof.
  rewrite one_entry_each_NoDup. intros Hnd.
  assert (∀ l : Lobby, table l = table (lobby w) →
            player ∉ cot_player <$> table (untable player l)) as H.
  { intros l Hl. unfold untable, Lobby.card_on_table_of. rewrite Hl.
    destruct (find _ _) as [c|] eqn:Hf.
    - destruct (remove_found_entry _ _ _ Hf) as (t & -> & _ & _ & Hnin). simpl. auto.
    - rewrite Hl. by apply find_player_None. }
  unfold removed. simpl. apply H. unfold reown, unroster, unlead.
  repeat first [case_decide | case_match]; simpl; done.
Qed.

Lemma removed_dump player (w : World) :
  _dump (punchlines (lobby (removed player w))) =
    _dump (punchlines (lobby w)) ++
    match Lobby.card_on_table_of (lobby w) player with
    | Some c => [cot_card c]
    | None => []
    end.
Proof.
  assert (∀ l : Lobby, table l = table (lobby w) → punchlines l = punchlines (lobby w) →
    _dump (punchlines (untable player l)) =
    _dump (punchlines (lobby w)) ++
    match Lobby.card_on_table_of (lobby w) player with
    | Some c => [cot_card c]
    | None => []
    end) as H.
  { intros l Hl Hp. unfold untable, Lobby.card_on_table_of. rewrite Hl.
    destruct (find _ _) as [c|] eqn:Hf.
    - destruct (remove_found_entry _ _ _ Hf) as (t & -> & _). simpl. by rewrite Hp.
    - by rewrite Hp, app_nil_r. }
  unfold removed. simpl. apply H; unfold reown, unroster, unlead;
    repeat first [case_decide | case_match]; simpl; done.
Qed.

Lemma elem_of_players_all_players (l : Lobby) (p : pid) :
  p ∈ players l → p ∈ Lobby.all_players l.
Proof. unfold Lobby.all_players. destruct (lead l); [by right|done]. Qed.

Lemma state_remove_player_entries_from player (w : World) :
  entries_from (players (lobby w)) w (state_remove_player player w).2.
Proof.
  unfold state_remove_player, bind, get_lobby.
  destruct (state (lobby w)) as [|setup timer|setup winner|winner setup]; simpl;
    try apply entries_from_refl.
  - unfold Turns.remove_player, Turns.try_end_turn, bind, get_world.
    destruct (existsb _ _); [apply entries_from_refl|].
    unfold cancel_task.
    apply (end_turn_entries_from setup
             (set_tasks (filter (λ ht, ht.1 ≠ timer) (tasks w)) w)).
  - unfold Judgement.remove_player, bind, get_lobby.
    case_bool_decide; apply entries_from_refl.
Qed.

Lemma remove_player_out (player : pid) (w : World) :
  NoDup (Lobby.all_players (lobby w)) →
  one_entry_each (lobby w) →
  let w' := (Lobby_remove_player player w).2 in
  player ∈ grave (lobby w')
  ∧ Lobby.all_players (lobby w') = filter (λ p, p ≠ player) (Lobby.all_players (lobby w))
  ∧ (player ∉ Lobby.all_players (lobby w'))
  ∧ Lobby.card_on_table_of (lobby w') player = None
  ∧ _dump (punchlines (lobby w')) =
      _dump (punchlines (lobby w)) ++
      match Lobby.card_on_table_of (lobby w) player with
      | Some c => [cot_card c]
      | None => []
      end.
Proof.
  intros Hnd Hone w'. subst w'. rewrite remove_player_run.
  set (w0 := removed player w).
  destruct (state_remove_player_frame (lobby w0) player w0)
    as (Hp & Hl & _ & Hg & Hd & _).
  { by repeat split. }
  pose proof (state_remove_player_entries_from player w0) as Hfrom.
  assert (Lobby.all_players (lobby (state_remove_player player w0).2)
          = filter (λ p, p ≠ player) (Lobby.all_players (lobby w))) as Hall.
  { rewrite <-removed_all_players by done. unfold Lobby.all_players.
    by rewrite Hp, Hl. }
  assert (player ∉ filter (λ p, p ≠ player) (Lobby.all_players (lobby w))) as Hnin.
  { intros [? _]%list_elem_of_filter. done. }
  split_and!.
  - rewrite Hg. unfold w0. rewrite removed_grave.
    apply elem_of_union. left. by apply elem_of_singleton.
  - done.
  - by rewrite Hall.
  - apply find_player_None. intros Hin. destruct (Hfrom player Hin) as [Hr|Ht].
    + apply Hnin. rewrite <-removed_all_players by done.
      by apply elem_of_players_all_players.
    + by apply (removed_table player w Hone).
  - rewrite Hd. apply removed_dump.
Qed.

(** X1: whatever the phase and whether the hook of the phase returns or
    raises, [remove_player] leaves the player in the grave, neither lead nor
    on the roster, and without an entry on the table; the other participants
    keep their order, and the card of the entry it had, if any, is the last
    of the punchline discard pile. *)
Theorem remove_player_takes_player_out (player : pid) (w : World) :
  NoDup (Lobby.all_players (lobby w)) →
  one_entry_each (lobby w) →
  let w' := (Lobby_remove_player player w).2 in
  player ∈ grave (lobby w')
  ∧ Lobby.all_players (lobby w') = filter (λ p, p ≠ player) (Lobby.all_players (lobby w))
  ∧ (player ∉ Lobby.all_players (lobby w'))
  ∧ Lobby.card_on_table_of (lobby w') player = None
  ∧ _dump (punchlines (lobby w')) =
      _dump (punchlines (lobby w)) ++
      match Lobby.card_on_table_of (lobby w) player with
      | Some c => [cot_card c]
      | None => []
      end.
Proof. exact (remove_player_out player w). Qed.

(** X2: in Judgement [remove_player] always returns and keeps the phase:
    by the time the hook of Judgement compares the player with the lead, the
    lead has been cleared, so [start_voting] is never reached.  When the
    lead is removed the lobby is left in Judgement without a lead, where
    nothing is scheduled and [pick_turn_winner] and [open_table_card] raise
    [PlayerNotLeadError] for every caller. *)
Theorem remove_player_in_judgement
    (setup : SetupCard) (winner : option pid) (player : pid) (w : World) :
  state (lobby w) = Judgement setup winner →
  Lobby_remove_player player w = (Ok tt, removed player w)
  ∧ state (lobby (removed player w)) = Judgement setup winner
  ∧ tasks (removed player w) = tasks w
  ∧ (lead (lobby w) = Some player →
       lead (lobby (removed player w)) = None
       ∧ (∀ q card, Player.pick_turn_winner q card (removed player w)
                    = (Raise PlayerNotLeadError, removed player w))
       ∧ (∀ q e, Player.open_table_card q e (removed player w)
                 = (Raise PlayerNotLeadError, removed player w))).
Proof.
  intros Hst. rewrite remove_player_run.
  pose proof (removed_state player w) as Hst'. rewrite Hst in Hst'.
  pose proof (removed_lead_ne player w) as Hne.
  split_and!; [|done|done|].
  - unfold state_remove_player, bind, get_lobby. rewrite Hst'.
    unfold Judgement.remove_player, bind, get_lobby.
    by rewrite bool_decide_eq_false_2.
  - intros Hlead.
    assert (lead (lobby (removed player w)) = None) as Hnone.
    { rewrite removed_lead. by rewrite decide_True. }
    split_and!; [done| |].
    + intros q card. unfold Player.pick_turn_winner, bind, get_lobby. rewrite Hst'.
      unfold Judgement.pick_turn_winner, bind, get_lobby. by rewrite Hnone.
    + intros q e. unfold Player.open_table_card, bind, get_lobby. rewrite Hst'.
      unfold Judgement.open_table_card, bind, get_lobby. by rewrite Hnone.
Qed.

Lemma remove_player_in_judgement_witness :
  Lobby_remove_player 0%nat sample_judgement = (Ok tt, removed 0%nat sample_judgement)
  ∧ lead (lobby (removed 0%nat sample_judgement)) = None.
Proof.
  destruct (remove_player_in_judgement (sample_setup 5) None 0%nat sample_judgement)
    as (Hrun & _ & _ & Hlead); [vm_compute; reflexivity|].
  split; [exact Hrun|]. apply Hlead. vm_compute. reflexivity.
Defined.

Lemma remove_player_takes_player_out_witness :
  2%nat ∈ grave (lobby (Lobby_remove_player 2%nat sample_played).2)
  ∧ 2%nat ∉ Lobby.all_players (lobby (Lobby_remove_player 2%nat sample_played).2).
Proof.
  destruct (remove_player_takes_player_out 2%nat sample_played)
    as (Hg & _ & Hnin & _).
  - apply (bool_decide_unpack _); vm_compute; exact I.
  - apply one_entry_each_NoDup. apply (bool_decide_unpack _); vm_compute; exact I.
  - split; [exact Hg|exact Hnin].
Defined.

Lemma untable_fields player (l : Lobby) :
  owner (untable player l) = owner l
  ∧ lead (untable player l) = lead l
  ∧ players (untable player l) = players l.
Proof. unfold untable. by repeat case_match. Qed.

Lemma reown_fields player (w : World) (l : Lobby) :
  lead (reown player w l) = lead l ∧ players (reown player w l) = players l.
Proof. unfold reown. by case_decide. Qed.

Lemma unroster_unlead_owner player (l : Lobby) :
  owner (unroster player (unlead player l)) = owner l.
Proof. unfold unroster, unlead. case_decide; by case_match. Qed.

Lemma removed_owner player (w : World) :
  owner (lobby (removed player w)) =
    if decide (owner (lobby w) = Some player)
    then find (λ p, is_connected (player_at w p))
           (Lobby.all_players (lobby (removed player w)))
    else owner (lobby w).
Proof.
  unfold removed. cbn [lobby set_events set_lobby].
  set (l1 := unroster player (unlead player (lobby w))).
  set (l2 := reown player w l1).
  set (l3 := untable player _).
  assert (Lobby.all_players l3 = Lobby.all_players l1) as ->.
  { unfold Lobby.all_players, l3.
    destruct (untable_fields player (set_grave ({[player]} ∪ grave l2) l2))
      as (_ & -> & ->).
    simpl. unfold l2. by destruct (reown_fields player w l1) as [-> ->]. }
  unfold l3. destruct (untable_fields player (set_grave ({[player]} ∪ grave l2) l2))
    as (-> & _). simpl.
  pose proof (unroster_unlead_owner player (lobby w)) as Ho. fold l1 in Ho.
  unfold l2, reown. rewrite Ho. by case_decide.
Qed.

(** X3: when the owner is removed, ownership passes to the first connected
    participant among those that remain, the lead first and then the roster
    in order, and to nobody when none of them is connected; it never stays
    with the removed player.  Removing anybody else leaves the owner as it
    is. *)
Theorem remove_player_passes_ownership (player : pid) (w : World) :
  NoDup (Lobby.all_players (lobby w)) →
  let w' := (Lobby_remove_player player w).2 in
  let remaining := filter (λ p, p ≠ player) (Lobby.all_players (lobby w)) in
  (owner (lobby w) ≠ Some player → owner (lobby w') = owner (lobby w))
  ∧ (owner (lobby w) = Some player →
       owner (lobby w') ≠ Some player
       ∧ match owner (lobby w') with
         | Some q =>
             ∃ before after,
               remaining = before ++ q :: after
               ∧ is_connected (player_at w q) = true
               ∧ ∀ x, x ∈ before → is_connected (player_at w x) = false
         | None => ∀ q, q ∈ remaining → is_connected (player_at w q) = false
         end).
Proof.
  intros Hnd w' remaining. subst w'. rewrite remove_player_run.
  destruct (state_remove_player_frame (lobby (removed player w)) player (removed player w))
    as (_ & _ & Ho & _).
  { by repeat split. }
  rewrite Ho, removed_owner, removed_all_players by done. fold remaining.
  split.
  - intros Hne. by rewrite decide_False.
  - intros Heq. rewrite decide_True by done.
    destruct (find _ remaining) as [q|] eqn:Hf.
    + apply find_first in Hf as (before & after & Hsplit & Hq & Hb).
      split; [|by exists before, after].
      intros [= ->].
      assert (player ∈ remaining) as Hin.
      { rewrite Hsplit. apply elem_of_app. right. by left. }
      apply list_elem_of_filter in Hin as [? _]. done.
    + split; [done|]. intros q Hq. by apply (find_nobody _ _ Hf).
Qed.

Lemma remove_player_passes_ownership_witness :
  owner (lobby sample_played) = Some 0%nat
  ∧ owner (lobby (Lobby_remove_player 0%nat sample_played).2) ≠ Some 0%nat.
Proof.
  assert (owner (lobby sample_played) = Some 0%nat) as Ho by (vm_compute; reflexivity).
  split; [exact Ho|].
  assert (NoDup (Lobby.all_players (lobby sample_played))) as Hnd.
  { apply (bool_decide_unpack _); vm_compute; exact I. }
  pose proof (remove_player_passes_ownership 0%nat sample_played Hnd) as H.
  cbv zeta in H. destruct H as [_ H]. specialize (H Ho).
  destruct H as [Hne _]. exact Hne.
Defined.

(** X4: a removed player that connects again is let in: [connect] does not
    raise [UnknownPlayerError], takes the player out of the grave and puts it
    at the end of the roster, behind everybody who stayed. *)
Theorem remove_then_connect_rejoins (player : pid) (w : World) :
  NoDup (Lobby.all_players (lobby w)) →
  one_entry_each (lobby w) →
  let w1 := (Lobby_remove_player player w).2 in
  let r := Lobby.connect player w1 in
  r.1 ≠ Raise UnknownPlayerError
  ∧ (player ∉ grave (lobby r.2))
  ∧ players (lobby r.2) = players (lobby w1) ++ [player]
  ∧ lead (lobby r.2) = lead (lobby w1).
Proof.
  intros Hnd Hone w1 r.
  destruct (remove_player_out player w Hnd Hone)
    as (Hg & _ & Hnin & _). fold w1 in Hg, Hnin.
  subst r. rewrite connect_run. rewrite decide_False, decide_True by done.
  destruct (connect_known_lobby player (rejoin player w1)) as [d Hd].
  split_and!.
  - apply connect_known_not_unknown.
  - rewrite Hd. simpl. set_unfold. tauto.
  - by rewrite Hd.
  - by rewrite Hd.
Qed.

Lemma remove_then_connect_rejoins_witness :
  players (lobby (Lobby.connect 2%nat (Lobby_remove_player 2%nat sample_turns).2).2)
  = players (lobby (Lobby_remove_player 2%nat sample_turns).2) ++ [2%nat].
Proof.
  destruct (remove_then_connect_rejoins 2%nat sample_turns) as (_ & _ & Hp & _).
  - apply (bool_decide_unpack _); vm_compute; exact I.
  - apply one_entry_each_NoDup. apply (bool_decide_unpack _); vm_compute; exact I.
  - exact Hp.
Defined.

(** ** Judging *)

(** X5: the failures of [pick_turn_winner], in the order the code checks
    them: a caller who is not the lead gets [PlayerNotLeadError]; the lead
    gets [NotAllCardsOpenedError] while an entry on the table is closed, and
    [NotImplementedError] when every entry is open and none holds the given
    card object, as on an empty table.  Every failure leaves the world as it
    was, and in all other cases the call returns. *)
Theorem pick_turn_winner_failures
    (setup : SetupCard) (player : pid) (card : PunchlineCard) (w : World) :
  let r := Judgement.pick_turn_winner setup player card w in
  let closed := ∃ c, c ∈ table (lobby w) ∧ is_open c = false in
  let on_table := ∃ c, c ∈ table (lobby w) ∧ card_obj (cot_card c) = card_obj card in
  (lead (lobby w) ≠ Some player → r = (Raise PlayerNotLeadError, w))
  ∧ (lead (lobby w) = Some player → closed → r = (Raise NotAllCardsOpenedError, w))
  ∧ (lead (lobby w) = Some player → ¬ closed → ¬ on_table →
       r = (Raise NotImplementedError, w))
  ∧ (lead (lobby w) = Some player → table (lobby w) = [] →
       r = (Raise NotImplementedError, w))
  ∧ (r.1 = Ok tt ↔ lead (lobby w) = Some player ∧ ¬ closed ∧ on_table)
  ∧ (r.1 ≠ Ok tt → r.2 = w).
Proof.
  intros r closed on_table.
  assert (existsb (λ c, negb (is_open c)) (table (lobby w)) = true ↔ closed) as Hclosed.
  { rewrite existsb_exists. unfold closed. split.
    - intros (c & Hin & Hc). exists c. rewrite list_elem_of_In.
      split; [done|]. by destruct (is_open c).
    - intros (c & Hin & Hc). exists c. rewrite <-list_elem_of_In.
      split; [done|]. by rewrite Hc. }
  assert (is_Some (find (λ c, card_is card (cot_card c)) (table (lobby w))) ↔ on_table)
    as Hon.
  { unfold on_table, card_is. split.
    - intros [c Hf]. apply find_some in Hf as [Hin Hc]. exists c.
      rewrite list_elem_of_In. split; [done|]. symmetry. by apply bool_decide_eq_true_1 in Hc.
    - intros (c & Hin & Hc).
      destruct (find _ _) as [c'|] eqn:Hf; [eauto|].
      apply list_elem_of_In in Hin.
      pose proof (find_none _ _ Hf c Hin) as Hn. simpl in Hn.
      apply bool_decide_eq_false_1 in Hn. congruence. }
  assert (r =
    if bool_decide (lead (lobby w) = Some player) then
      if existsb (λ c, negb (is_open c)) (table (lobby w))
      then (Raise NotAllCardsOpenedError, w)
      else match find (λ c, card_is card (cot_card c)) (table (lobby w)) with
           | Some cot =>
               (Ok tt, schedule (next_step setup (after_pick setup card cot w))
                         (after_pick setup card cot w))
           | None => (Raise NotImplementedError, w)
           end
    else (Raise PlayerNotLeadError, w)) as Hr.
  { subst r. case_bool_decide as Hlead.
    - destruct (existsb _ _) eqn:Hex.
      + unfold Judgement.pick_turn_winner, bind, get_lobby.
        by rewrite bool_decide_eq_true_2, Hex by done.
      + destruct (find _ _) as [cot|] eqn:Hf.
        * by apply pick_turn_winner_run.
        * unfold Judgement.pick_turn_winner, Lobby.get_card_from_table, bind, get_lobby.
          rewrite bool_decide_eq_true_2 by done. cbn [negb]. rewrite Hex.
          cbv beta iota. by rewrite Hf.
    - unfold Judgement.pick_turn_winner, bind, get_lobby.
      by rewrite bool_decide_eq_false_2 by done. }
  clearbody r. subst r.
  case_bool_decide as Hlead.
  2:{ split_and!; try done. split; [done|]. by intros (? & _). }
  destruct (existsb _ _) eqn:Hex.
  { assert closed as Hc by by apply Hclosed.
    split_and!; try done.
    - intros _ Ht. rewrite Ht in Hex. done.
    - split; [done|]. by intros (_ & ? & _). }
  assert (¬ closed) as Hnc.
  { intros Hc. apply Hclosed in Hc. congruence. }
  destruct (find _ _) as [cot|] eqn:Hf.
  - assert on_table as Ho by (apply Hon; eauto).
    split_and!; try done. intros _ Ht. by rewrite Ht in Hf.
  - assert (¬ on_table) as Hno.
    { intros Ho. apply Hon in Ho as [? ?]. congruence. }
    split_and!; try done. split; [done|]. by intros (_ & _ & ?).
Qed.

(** ** Playing a card *)

Lemma put_card_on_table_cases (player : pid) (card : PunchlineCard) (w : World) :
  let r := Turns.put_card_on_table player card w in
  let h := hand (player_at w player) in
  (card_in card h = false → r = (Raise CardNotInPlayerHandError, w))
  ∧ (card_in card h = true →
       r.1 = Ok tt
       ∧ is_ready (player_at r.2 player) = true
       ∧ last (table (lobby r.2)) =
           Some {| cot_card := card; cot_player := player; is_open := false |}
       ∧ length (hand (player_at r.2 player)) =
           match Lobby.card_on_table_of (lobby w) player with
           | Some _ => length h
           | None => (length h - 1)%nat
           end
       ∧ ∀ q, q ≠ player → player_at r.2 q = player_at w q).
Proof.
  intros r h. subst r h. split.
  - intros Hin. unfold Turns.put_card_on_table, bind, get_player. by rewrite Hin.
  - intros Hin.
    unfold Turns.put_card_on_table, bind, get_player, get_lobby, modify_player,
      modify_lobby, player_at in *.
    simpl. rewrite Hin. simpl. unfold Lobby.card_on_table_of.
    destruct (find _ (table (lobby w))) as [prev|] eqn:Hf.
    + destruct (remove_found_entry _ _ _ Hf) as (t' & Hr & _). rewrite Hr. simpl.
      rewrite lookup_total_insert_eq. simpl.
      destruct (list_remove_is_Some (card_same card)
                  (hand (heap w !!! player) ++ [cot_card prev])) as [h' Hh'].
      { rewrite existsb_app. unfold card_in in Hin. by rewrite Hin. }
      rewrite Hh'. simpl. rewrite notify_all_run. simpl.
      rewrite !lookup_total_insert_eq. simpl.
      apply list_remove_length in Hh'. rewrite length_app in Hh'. simpl in Hh'.
      split_and!; [done|done|by rewrite last_snoc|lia|].
      intros q Hq. by rewrite !lookup_total_insert_ne.
    + simpl.
      destruct (list_remove_is_Some (card_same card) (hand (heap w !!! player)))
        as [h' Hh']; [done|].
      rewrite Hh'. simpl. rewrite notify_all_run. simpl.
      rewrite !lookup_total_insert_eq. simpl.
      apply list_remove_length in Hh'.
      split_and!; [done|done|by rewrite last_snoc|lia|].
      intros q Hq. by rewrite !lookup_total_insert_ne.
Qed.

(** X6: [put_card_on_table] fails in one way only: with
    [CardNotInPlayerHandError], when the card is not in the hand, and then
    the world is as before.  With a card of the hand it returns (neither
    [remove] can miss): the player is ready, the last entry of the table is
    the card, closed, under the player's name, a first submission shortens
    the hand by one card and a resubmission keeps its size, and the other
    players are untouched. *)
Theorem put_card_on_table_outcomes (player : pid) (card : PunchlineCard) (w : World) :
  let r := Turns.put_card_on_table player card w in
  let h := hand (player_at w player) in
  (card_in card h = false → r = (Raise CardNotInPlayerHandError, w))
  ∧ (card_in card h = true →
       r.1 = Ok tt
       ∧ is_ready (player_at r.2 player) = true
       ∧ last (table (lobby r.2)) =
           Some {| cot_card := card; cot_player := player; is_open := false |}
       ∧ length (hand (player_at r.2 player)) =
           match Lobby.card_on_table_of (lobby w) player with
           | Some _ => length h
           | None => (length h - 1)%nat
           end
       ∧ ∀ q, q ≠ player → player_at r.2 q = player_at w q).
Proof. exact (put_card_on_table_cases player card w). Qed.

(** ** The end of a round *)

Lemma list_remove_entries_other (prev : CardOnTable) (q : pid) (t t' : list CardOnTable) :
  list_remove (λ c, bool_decide (c = prev)) t = Some t' →
  cot_player prev ≠ q →
  entries_of q t' = entries_of q t.
Proof.
  unfold entries_of. revert t'. induction t as [|c t IH]; intros t'; [done|].
  simpl. case_bool_decide as Hc.
  - intros [= <-] Hne. subst c. by rewrite filter_cons_False.
  - destruct (list_remove _ t) as [t0|]; [|done]. intros [= <-] Hne.
    rewrite !filter_cons. case_decide; [f_equal|]; by apply IH.
Qed.

Lemma choice_nonempty {A} (x : list A) (g : Rng) :
  x ≠ [] → ∃ a g', choice x g = (Ok a, g') ∧ a ∈ x.
Proof.
  intros Hne. unfold choice. destruct x as [|y x]; [done|].
  remember (length (y :: x)) as n eqn:Hn.
  assert (0 < n)%nat as Hpos by (subst n; simpl; lia).
  destruct (randbelow n g) as [j g'] eqn:Hj.
  assert (j < n)%nat as Hlt.
  { unfold randbelow in Hj. destruct g as [|r g0].
    - injection Hj as <- _. done.
    - injection Hj as <- _. apply Nat.mod_upper_bound. lia. }
  rewrite Hn in Hlt.
  destruct (lookup_lt_is_Some_2 _ _ Hlt) as [a Ha].
  exists a, g'. rewrite Ha. split; [done|]. by eapply list_elem_of_lookup_2.
Qed.

Lemma card_same_refl (c : PunchlineCard) : card_same c c = true.
Proof. unfold card_same, card_is. by rewrite bool_decide_eq_true_2. Qed.

Lemma card_in_elem_of (c : PunchlineCard) (h : list PunchlineCard) :
  c ∈ h → card_in c h = true.
Proof.
  intros Hin. unfold card_in. apply existsb_exists. exists c.
  split; [by apply list_elem_of_In|apply card_same_refl].
Qed.

(** A successful submission, seen from everybody. *)
Lemma put_card_on_table_run (player : pid) (card : PunchlineCard) (w : World) :
  one_entry_each (lobby w) →
  card_in card (hand (player_at w player)) = true →
  ∃ w',
    Turns.put_card_on_table player card w = (Ok tt, w')
    ∧ entries_of player (table (lobby w')) =
        [{| cot_card := card; cot_player := player; is_open := false |}]
    ∧ is_ready (player_at w' player) = true
    ∧ (∀ q, q ≠ player →
         entries_of q (table (lobby w')) = entries_of q (table (lobby w))
         ∧ player_at w' q = player_at w q)
    ∧ same_but_table_and_state (lobby w) (lobby w')
    ∧ state (lobby w') = state (lobby w)
    ∧ one_entry_each (lobby w').
Proof.
  intros Hone Hin.
  pose proof (put_card_on_table_one_entry_each player card w Hone) as Hone'.
  pose proof (put_card_on_table_frame (lobby w) player card w) as Hframe.
  destruct (put_card_on_table_cases player card w) as [_ Hok].
  destruct (Hok Hin) as (Hr & Hready & _ & _ & Hothers).
  destruct (Turns.put_card_on_table player card w) as [[[]|e] w'] eqn:Hrun; [|done].
  simpl in *. exists w'. split; [done|].
  assert (state (lobby w') = state (lobby w)
          ∧ ∃ t', table (lobby w') =
                    t' ++ [{| cot_card := card; cot_player := player; is_open := false |}]
                  ∧ (player ∉ cot_player <$> t')
                  ∧ ∀ q, q ≠ player → entries_of q t' = entries_of q (table (lobby w)))
    as (Hst & t' & Ht & Hnin & Hq).
  { revert Hrun. apply one_entry_each_NoDup in Hone.
    unfold Turns.put_card_on_table, bind, get_player, get_lobby, modify_player,
      modify_lobby.
    simpl. rewrite Hin. simpl. unfold Lobby.card_on_table_of.
    destruct (find _ (table (lobby w))) as [prev|] eqn:Hf.
    - destruct (remove_found_entry _ _ _ Hf) as (t' & Hrm & Hp & _ & Hnin).
      rewrite Hrm. simpl. destruct (list_remove (card_same card) _); simpl; [|done].
      rewrite notify_all_run. intros [= <-]. simpl. split; [done|].
      exists t'. split_and!; [done|by apply Hnin|].
      intros q Hq. apply (list_remove_entries_other prev); [done|congruence].
    - simpl. destruct (list_remove (card_same card) _); simpl; [|done].
      rewrite notify_all_run. intros [= <-]. simpl. split; [done|].
      exists (table (lobby w)). split_and!; [done|by apply find_player_None|done]. }
  split_and!; try done.
  - rewrite Ht. unfold entries_of. rewrite filter_app.
    fold (entries_of player t'). rewrite (filter_player_nil _ _ Hnin).
    by rewrite filter_cons_True.
  - intros q Hne. split; [|by apply Hothers].
    rewrite Ht. unfold entries_of. rewrite filter_app.
    rewrite (filter_cons_False _ _ []) by (simpl; congruence).
    rewrite filter_nil, app_nil_r. by apply Hq.
  - by apply Hframe.
Qed.

Lemma end_turn_loop (ps : list pid) :
  NoDup ps →
  ∀ w : World,
    one_entry_each (lobby w) →
    (∀ p, p ∈ ps → idle w p = true → hand (player_at w p) ≠ []) →
    ∃ w',
      for_each ps (λ player,
        do p <- get_player player;
        if is_connected p && negb (is_ready p)
        then do c <- Turns.random_choice (hand p); Turns.put_card_on_table player c
        else ret tt) w = (Ok tt, w')
      ∧ one_entry_each (lobby w')
      ∧ same_but_table_and_state (lobby w) (lobby w')
      ∧ state (lobby w') = state (lobby w)
      ∧ (∀ p, p ∈ ps → idle w p = true →
           is_ready (player_at w' p) = true
           ∧ ∃ c, c ∈ hand (player_at w p)
                  ∧ entries_of p (table (lobby w')) =
                      [{| cot_card := c; cot_player := p; is_open := false |}])
      ∧ (∀ p, p ∉ ps ∨ idle w p = false →
           player_at w' p = player_at w p
           ∧ entries_of p (table (lobby w')) = entries_of p (table (lobby w))).
Proof.
  induction 1 as [|p ps Hnin Hnd IH]; intros w Hone Hhands.
  - exists w. simpl. split_and!; try done. by intros p ?%elem_of_nil.
  - cbn [for_each]. unfold bind at 1. unfold bind at 1, get_player at 1.
    cbv beta iota. fold (idle w p).
    assert (∃ w1,
      (if idle w p
       then do c <- Turns.random_choice (hand (player_at w p));
            Turns.put_card_on_table p c
       else ret tt) w = (Ok tt, w1)
      ∧ one_entry_each (lobby w1)
      ∧ same_but_table_and_state (lobby w) (lobby w1)
      ∧ state (lobby w1) = state (lobby w)
      ∧ (idle w p = true →
           is_ready (player_at w1 p) = true
           ∧ ∃ c, c ∈ hand (player_at w p)
                  ∧ entries_of p (table (lobby w1)) =
                      [{| cot_card := c; cot_player := p; is_open := false |}])
      ∧ (idle w p = false →
           player_at w1 p = player_at w p
           ∧ entries_of p (table (lobby w1)) = entries_of p (table (lobby w)))
      ∧ (∀ q, q ≠ p →
           player_at w1 q = player_at w q
           ∧ entries_of q (table (lobby w1)) = entries_of q (table (lobby w))))
      as (w1 & Hrun1 & Hone1 & Hframe1 & Hst1 & Hidle1 & Hbusy1 & Hothers1).
    { destruct (idle w p) eqn:Hidle.
      - destruct (choice_nonempty (hand (player_at w p)) (rng w)) as (c & g & Hc & Hin).
        { apply Hhands; [by left|done]. }
        unfold bind, Turns.random_choice. rewrite Hc.
        destruct (put_card_on_table_run p c (set_rng g w) Hone)
          as (w1 & Hrun & Hentry & Hready & Hoth & Hframe & Hst & Hone1).
        { by apply card_in_elem_of. }
        exists w1. split_and!; try done.
        + intros _. split; [done|]. by exists c.
        + intros q Hq. destruct (Hoth q Hq) as [? ?]. done.
      - exists w. split_and!; try done; by repeat split. }
    rewrite Hrun1.
    destruct (IH w1 Hone1) as (w' & Hrun & Hone' & Hframe' & Hst' & Hidle' & Hbusy').
    { intros q Hq Hi.
      assert (q ≠ p) as Hne by (intros ->; done).
      destruct (Hothers1 q Hne) as [Hpl _]. unfold idle in Hi. rewrite Hpl in Hi.
      rewrite Hpl. by apply Hhands; [right|]. }
    exists w'. rewrite Hrun. split_and!; [done|done| | | |].
    + destruct Hframe1 as (?&?&?&?&?&?&?&?&?).
      destruct Hframe' as (?&?&?&?&?&?&?&?&?). repeat split; congruence.
    + congruence.
    + intros q Hq Hi. apply elem_of_cons in Hq as [->|Hq].
      * destruct (Hbusy' p (or_introl Hnin)) as [Hpl Hen].
        destruct (Hidle1 Hi) as [Hr (c & Hc & Hentry)].
        rewrite Hpl, Hen. split; [done|]. by exists c.
      * assert (q ≠ p) as Hne by (intros ->; done).
        destruct (Hothers1 q Hne) as [Hpl Hen].
        destruct (Hidle' q Hq) as [Hr (c & Hc & Hentry)].
        { unfold idle in *. by rewrite Hpl. }
        split; [done|]. exists c. by rewrite <-Hpl.
    + intros q Hq.
      destruct (decide (q = p)) as [->|Hne].
      * destruct Hq as [Hq|Hi]; [by destruct Hq; left|].
        destruct (Hbusy' p (or_introl Hnin)) as [Hpl Hen].
        destruct (Hbusy1 Hi) as [Hpl1 Hen1]. split; congruence.
      * destruct (Hothers1 q Hne) as [Hpl Hen].
        destruct (Hbusy' q) as [Hpl' Hen'].
        { destruct Hq as [Hq|Hi].
          - left. intros Hin. apply Hq. by right.
          - right. unfold idle in *. by rewrite Hpl. }
        split; congruence.
Qed.

Lemma Permutation_short {A} (l1 l2 : list A) :
  l1 ≡ₚ l2 → (length l1 ≤ 1)%nat → l1 = l2.
Proof.
  intros Hp Hlen. destruct l1 as [|a [|b l1]]; simpl in Hlen; [| |lia].
  - by apply Permutation_nil_l in Hp.
  - by apply Permutation_singleton_l in Hp.
Qed.

Lemma entries_of_shuffle (p : pid) (t : list CardOnTable) (g : Rng) :
  (length (entries_of p t) ≤ 1)%nat →
  entries_of p (shuffle t g).1 = entries_of p t.
Proof.
  intros Hlen. symmetry. apply Permutation_short; [|done].
  unfold entries_of. by rewrite (shuffle_Permutation t g).
Qed.

(** X7: when the round ends with players of the roster who are connected
    and have not played, as it does when the round timer runs out,
    [end_turn] plays for each of them: provided the roster holds nobody
    twice, nobody has two entries, a lead exists and these players hold at
    least one card, [end_turn] returns in Judgement, each of them is ready
    and has exactly one entry, closed, with a card of its hand, and
    everybody else keeps its player object and its entries. *)
Theorem end_turn_plays_for_idle_players (setup : SetupCard) (w : World) (ld : pid) :
  NoDup (players (lobby w)) →
  one_entry_each (lobby w) →
  lead (lobby w) = Some ld →
  (∀ p, p ∈ players (lobby w) → idle w p = true → hand (player_at w p) ≠ []) →
  ∃ w',
    Turns.end_turn setup w = (Ok tt, w')
    ∧ state (lobby w') = Judgement setup None
    ∧ (∀ p, p ∈ players (lobby w) → idle w p = true →
         is_ready (player_at w' p) = true
         ∧ ∃ c, c ∈ hand (player_at w p)
                ∧ entries_of p (table (lobby w')) =
                    [{| cot_card := c; cot_player := p; is_open := false |}])
    ∧ (∀ p, p ∉ players (lobby w) ∨ idle w p = false →
         player_at w' p = player_at w p
         ∧ entries_of p (table (lobby w')) = entries_of p (table (lobby w))).
Proof.
  intros Hnd Hone Hlead Hhands.
  destruct (end_turn_loop (players (lobby w)) Hnd w Hone Hhands)
    as (w1 & Hrun & Hone1 & Hframe & Hst & Hidle & Hbusy).
  unfold Turns.end_turn. unfold bind at 1, get_lobby at 1. cbv beta iota.
  unfold bind at 1. rewrite Hrun.
  unfold bind at 1, Turns.shuffle_table.
  destruct (shuffle (table (lobby w1)) (rng w1)) as [t g] eqn:Hsh.
  assert (∀ p, entries_of p t = entries_of p (table (lobby w1))) as Ht.
  { intros p. pose proof (entries_of_shuffle p (table (lobby w1)) (rng w1) (Hone1 p)) as H.
    by rewrite Hsh in H. }
  unfold bind at 1, get_lobby at 1. unfold bind at 1. rewrite notify_all_run.
  destruct Hframe as (_ & Hl & _). simpl. rewrite Hl, Hlead.
  eexists. split; [done|]. simpl. split_and!; [done| |].
  - intros p Hp Hi. destruct (Hidle p Hp Hi) as [Hr (c & Hc & Hentry)].
    split; [done|]. exists c. by rewrite Ht.
  - intros p Hp. destruct (Hbusy p Hp) as [Hpl Hen]. by rewrite Ht.
Qed.

Lemma end_turn_plays_for_idle_players_witness :
  ∃ w', Turns.end_turn (sample_setup 5) sample_played = (Ok tt, w')
        ∧ idle sample_played 2%nat = true
        ∧ is_ready (player_at w' 2%nat) = true.
Proof.
  assert (idle sample_played 2%nat = true) as Hidle by (vm_compute; reflexivity).
  assert (NoDup (players (lobby sample_played))) as Hnd.
  { apply (bool_decide_unpack _); vm_compute; exact I. }
  assert (one_entry_each (lobby sample_played)) as Hone.
  { apply one_entry_each_NoDup. apply (bool_decide_unpack _); vm_compute; exact I. }
  assert (lead (lobby sample_played) = Some 0%nat) as Hlead by (vm_compute; reflexivity).
  assert (Forall (λ p, idle sample_played p = true → hand (player_at sample_played p) ≠ [])
            (players (lobby sample_played))) as Hhands.
  { apply (bool_decide_unpack _); vm_compute; exact I. }
  assert (2%nat ∈ players (lobby sample_played)) as Hin.
  { apply (bool_decide_unpack _); vm_compute; exact I. }
  pose proof (end_turn_plays_for_idle_players (sample_setup 5) sample_played 0%nat
                Hnd Hone Hlead (proj1 (Forall_forall _ _) Hhands)) as H.
  destruct H as (w' & Hrun & _ & Hplayed & _).
  exists w'. split; [exact Hrun|]. split; [exact Hidle|].
  pose proof (Hplayed 2%nat Hin Hidle) as Hp.
  destruct Hp as [Hr _]. exact Hr.
Defined.

(** ** Who leads *)

Lemma repeat_n_S_r (k : nat) (body : M unit) (w : World) :
  repeat_n (S k) body w = (repeat_n k body ;;; body) w.
Proof.
  revert w. induction k as [|k IH]; intros w.
  - simpl. unfold bind, ret. by destruct (body w) as [[[]|e] w'].
  - change (repeat_n (S (S k)) body) with (body ;;; repeat_n (S k) body).
    unfold bind at 1. change (repeat_n (S k) body) with (body ;;; repeat_n k body) at 2.
    unfold bind at 1 2. destruct (body w) as [[[]|e] w1]; [|done].
    rewrite IH. done.
Qed.

Lemma change_lead_with_lead (w : World) (a : pid) (b : list pid) :
  lead (lobby w) = Some a →
  players (lobby w) = b →
  ∃ p rest,
    b ++ [a] = p :: rest
    ∧ Lobby.change_lead w =
        (Ok tt, set_lobby (set_lead (Some p) (set_players rest (lobby w))) w).
Proof.
  intros Hl Hp. unfold Lobby.change_lead, bind, get_lobby, modify_lobby.
  rewrite Hl. simpl. rewrite Hp.
  destruct (b ++ [a]) as [|p rest] eqn:Hb; [by destruct b|].
  by exists p, rest.
Qed.

Lemma change_lead_steps (w : World) (ld : pid) (k : nat) :
  lead (lobby w) = Some ld →
  (k ≤ S (length (players (lobby w))))%nat →
  ∃ a b,
    a :: b = drop k (ld :: players (lobby w)) ++ take k (ld :: players (lobby w))
    ∧ repeat_n k Lobby.change_lead w =
        (Ok tt, set_lobby (set_lead (Some a) (set_players b (lobby w))) w).
Proof.
  intros Hl. set (L := ld :: players (lobby w)).
  induction k as [|k IH]; intros Hk.
  - exists ld, (players (lobby w)). split; [by rewrite app_nil_r|].
    simpl. unfold ret. f_equal. destruct w as [h l r e t n]. simpl in *.
    destruct l. simpl in *. by subst.
  - destruct IH as (a & b & Hab & Hrun); [lia|].
    rewrite repeat_n_S_r. unfold bind. rewrite Hrun.
    set (wk := set_lobby _ w).
    destruct (change_lead_with_lead wk a b eq_refl eq_refl) as (p & rest & Hpr & Hcl).
    rewrite Hcl. exists p, rest. split; [|done].
    rewrite <-Hpr.
    assert (k < length L)%nat as Hlt by (unfold L; simpl; lia).
    destruct (lookup_lt_is_Some_2 L k Hlt) as [x Hx].
    rewrite (drop_S L x k Hx) in Hab. rewrite (take_S_r L k x Hx).
    injection Hab as -> ->. by rewrite <-app_assoc.
Qed.

(** X8: [change_lead] is a round robin.  With nobody to lead it raises
    [IndexError] and changes nothing.  With a lead, the lead goes to the
    back of the roster and the front of the roster leads; so the players of
    the roster lead in roster order, one round each, and after as many
    rounds as there are participants the lead and the roster are again what
    they were. *)
Theorem change_lead_round_robin (w : World) :
  (lead (lobby w) = None → players (lobby w) = [] →
     Lobby.change_lead w = (Raise IndexError, w))
  ∧ ∀ ld, lead (lobby w) = Some ld →
      (∀ k p, players (lobby w) !! k = Some p →
         (repeat_n (S k) Lobby.change_lead w).1 = Ok tt
         ∧ lead (lobby (repeat_n (S k) Lobby.change_lead w).2) = Some p)
      ∧ repeat_n (S (length (players (lobby w)))) Lobby.change_lead w = (Ok tt, w).
Proof.
  split.
  - intros Hl Hp. unfold Lobby.change_lead, bind, get_lobby. rewrite Hl. simpl.
    by rewrite Hp.
  - intros ld Hl. split.
    + intros k p Hk.
      destruct (change_lead_steps w ld (S k) Hl) as (a & b & Hab & Hrun).
      { apply lookup_lt_Some in Hk. lia. }
      rewrite Hrun. split; [done|]. simpl.
      simpl in Hab. rewrite (drop_S (players (lobby w)) p k Hk) in Hab. simpl in Hab.
      by injection Hab as -> _.
    + destruct (change_lead_steps w ld (S (length (players (lobby w)))) Hl)
        as (a & b & Hab & Hrun); [lia|].
      rewrite Hrun. f_equal.
      rewrite drop_ge, firstn_all2 in Hab by (simpl; lia).
      simpl in Hab. injection Hab as -> ->.
      destruct w as [h l r e t n]. simpl in *. destruct l. simpl in *. by subst.
Qed.

Lemma change_lead_round_robin_witness :
  lead (lobby (repeat_n 2 Lobby.change_lead sample_turns).2) = Some 2%nat
  ∧ repeat_n 3 Lobby.change_lead sample_turns = (Ok tt, sample_turns).
Proof.
  assert (lead (lobby sample_turns) = Some 0%nat) as Hl by (vm_compute; reflexivity).
  assert (players (lobby sample_turns) !! 1%nat = Some 2%nat) as Hk
    by (vm_compute; reflexivity).
  assert (S (length (players (lobby sample_turns))) = 3%nat) as Hlen
    by (vm_compute; reflexivity).
  pose proof (change_lead_round_robin sample_turns) as [_ H].
  pose proof (H 0%nat Hl) as [Hlead Hcycle].
  pose proof (Hlead 1%nat 2%nat Hk) as [_ H2].
  split; [exact H2|]. rewrite <-Hlen. exact Hcycle.
Defined.

(** ** Cards between the deck and a hand *)

Lemma draw_punchline_outcome (w : World) :
  match Lobby.draw_punchline w with
  | (Ok c, w') =>
      c :: piles (punchlines (lobby w')) ≡ₚ piles (punchlines (lobby w))
      ∧ heap w' = heap w
  | (Raise e, w') =>
      e = IndexError ∧ piles (punchlines (lobby w)) = [] ∧ w' = w
  end.
Proof.
  unfold Lobby.draw_punchline.
  destruct (Deck.get_card _ _) as [[[c|e] d] g] eqn:Hg.
  - apply get_card_Ok in Hg. simpl. split; [|done]. unfold piles.
    rewrite <-Hg. simpl. by rewrite <-Permutation_middle.
  - apply get_card_Raise in Hg as (-> & Hc & Hd & -> & ->).
    split_and!; [done|by unfold piles; rewrite Hc, Hd|].
    destruct w as [h l r e t n]. by destruct l.
Qed.

Lemma draw_hand_outcome (n : nat) (w : World) :
  match Turns.draw_hand n w with
  | (Ok cs, w') =>
      length cs = n
      ∧ cs ++ piles (punchlines (lobby w')) ≡ₚ piles (punchlines (lobby w))
      ∧ heap w' = heap w
  | (Raise e, w') =>
      e = IndexError
      ∧ piles (punchlines (lobby w')) = []
      ∧ heap w' = heap w
      ∧ (length (piles (punchlines (lobby w))) < n)%nat
  end.
Proof.
  revert w. induction n as [|n IH]; intros w; [done|].
  cbn [Turns.draw_hand]. unfold bind at 1.
  pose proof (draw_punchline_outcome w) as Hd.
  destruct (Lobby.draw_punchline w) as [[c|e] w1].
  - destruct Hd as [Hp Hh]. unfold bind at 1. specialize (IH w1).
    destruct (Turns.draw_hand n w1) as [[cs|e] w2].
    + destruct IH as (Hlen & Hcs & Hh2). unfold ret. simpl.
      split_and!; [by rewrite Hlen| |congruence].
      by rewrite <-Hp, <-Hcs.
    + destruct IH as (-> & Hnil & Hh2 & Hlt).
      split_and!; [done|done|congruence|].
      rewrite <-Hp. simpl. lia.
  - destruct Hd as (-> & Hnil & ->). rewrite Hnil. simpl.
    split_and!; [done|done|done|lia].
Qed.

(** X9: [refresh_hand] loses no card while the deck holds a full hand: for
    a player who is not ready it ends either normally or with
    [ScoreTooLowError], and in both cases the new hand has HAND_SIZE cards
    and the new hand together with the two piles of the deck holds exactly
    the cards the old hand and the deck held. *)
Theorem refresh_hand_keeps_the_cards (player : pid) (w : World) :
  is_ready (player_at w player) = false →
  (HAND_SIZE ≤ length (piles (punchlines (lobby w))))%nat →
  let r := Turns.refresh_hand player w in
  (r.1 = Ok tt ∨ r.1 = Raise ScoreTooLowError)
  ∧ length (hand (player_at r.2 player)) = HAND_SIZE
  ∧ hand (player_at r.2 player) ++ piles (punchlines (lobby r.2))
      ≡ₚ hand (player_at w player) ++ piles (punchlines (lobby w))
  ∧ ∀ q, q ≠ player → player_at r.2 q = player_at w q.
Proof.
  intros Hready Hpiles r. subst r.
  destruct (refresh_hand_run player w Hready Hpiles)
    as (new_hand & d & g & Hlen & Hdraw & Hrun).
  pose proof (draw_hand_outcome HAND_SIZE w) as Hout. rewrite Hdraw in Hout.
  destruct Hout as (_ & Hperm & _). simpl in Hperm.
  cbv zeta in Hrun. rewrite Hrun.
  assert (new_hand ++ piles (Deck.dump d (hand (player_at w player)))
          ≡ₚ hand (player_at w player) ++ piles (punchlines (lobby w))) as Hcards.
  { rewrite <-Hperm. unfold piles, Deck.dump. simpl.
    rewrite !app_assoc. rewrite (Permutation_app_comm _ (hand _)).
    by rewrite !app_assoc. }
  case_bool_decide; simpl; unfold player_at; simpl;
    rewrite ?lookup_total_insert_eq; simpl.
  - split_and!; [by right|done|done|].
    intros q Hq. by rewrite lookup_total_insert_ne.
  - split_and!; [by left|done|done|].
    intros q Hq. by rewrite !lookup_total_insert_ne.
Qed.

(** X10: [refresh_hand] with fewer than HAND_SIZE cards in the deck: the
    list of drawn cards is dropped when the deck runs out, so the call
    raises [IndexError], the player keeps its hand and its score, and both
    piles of the deck are empty: the cards that were drawn are gone. *)
Theorem refresh_hand_runs_the_deck_dry (player : pid) (w : World) :
  is_ready (player_at w player) = false →
  (length (piles (punchlines (lobby w))) < HAND_SIZE)%nat →
  let r := Turns.refresh_hand player w in
  r.1 = Raise IndexError
  ∧ piles (punchlines (lobby r.2)) = []
  ∧ heap r.2 = heap w.
Proof.
  intros Hready Hpiles r. subst r.
  assert (∃ w1, Turns.refresh_hand player w = (Raise IndexError, w1)
                ∧ piles (punchlines (lobby w1)) = [] ∧ heap w1 = heap w)
    as (w1 & -> & Hnil & Hh).
  { unfold Turns.refresh_hand, bind at 1, get_player at 1. cbv beta iota.
    rewrite Hready. unfold bind at 1.
    pose proof (draw_hand_outcome HAND_SIZE w) as Hout.
    destruct (Turns.draw_hand HAND_SIZE w) as [[cs|e] w1].
    - destruct Hout as (Hlen & Hperm & _).
      apply Permutation_length in Hperm. rewrite length_app in Hperm. lia.
    - destruct Hout as (-> & Hnil & Hh & _). by exists w1. }
  done.
Qed.

Lemma refresh_hand_keeps_the_cards_witness :
  (Turns.refresh_hand 1%nat sample_turns).1 = Ok tt
  ∧ length (hand (player_at (Turns.refresh_hand 1%nat sample_turns).2 1%nat)) = HAND_SIZE.
Proof.
  assert (is_ready (player_at sample_turns 1%nat) = false) as Hr
    by (vm_compute; reflexivity).
  assert (HAND_SIZE ≤ length (piles (punchlines (lobby sample_turns))))%nat as Hp.
  { apply (bool_decide_unpack _); vm_compute; exact I. }
  pose proof (refresh_hand_keeps_the_cards 1%nat sample_turns Hr Hp) as H.
  cbv zeta in H. destruct H as (_ & Hlen & _).
  split; [vm_compute; reflexivity|exact Hlen].
Defined.

Lemma refresh_hand_runs_the_deck_dry_witness :
  length (piles (punchlines (lobby sample_short_deck))) = 9%nat
  ∧ (Turns.refresh_hand 1%nat sample_short_deck).1 = Raise IndexError
  ∧ piles (punchlines (lobby (Turns.refresh_hand 1%nat sample_short_deck).2)) = [].
Proof.
  assert (is_ready (player_at sample_short_deck 1%nat) = false) as Hr
    by (vm_compute; reflexivity).
  assert (length (piles (punchlines (lobby sample_short_deck))) < HAND_SIZE)%nat as Hp.
  { apply (bool_decide_unpack _); vm_compute; exact I. }
  pose proof (refresh_hand_runs_the_deck_dry 1%nat sample_short_deck Hr Hp) as H.
  cbv zeta in H. destruct H as (Hraise & Hnil & _).
  split; [vm_compute; reflexivity|]. split; [exact Hraise|exact Hnil].
Defined.

(** ** The draw pile is a stack *)

Lemma get_card_top {C} (d : Deck C) (g : Rng) (rest : list C) (c : C) :
  cards d = rest ++ [c] →
  Deck.get_card d g = (Ok c, {| cards := rest; _dump := _dump d |}, g).
Proof.
  intros Hc. unfold Deck.get_card.
  destruct (cards d) as [|x l] eqn:Hl; [by destruct rest|].
  rewrite Hl, Hc.
  assert (Deck.pop (rest ++ [c]) = Some (c, rest)) as -> by by apply pop_Some.
  done.
Qed.

(** X11: while the draw pile lasts the deck is a stack that no discard
    disturbs: a run of draws and discards with no more draws than the draw
    pile has cards hands out the last cards of the draw pile, the last one
    first, leaves the rest of the draw pile in place, appends the discarded
    cards to the discard pile in the order given, and never reshuffles (the
    generator is not used); a discarded card is not drawn before the draw
    pile is used up. *)
Theorem draw_pile_is_a_stack {C} (ops : list (DeckOp C)) (d : Deck C) (g : Rng) :
  (draws ops ≤ length (cards d))%nat →
  let k := (length (cards d) - draws ops)%nat in
  run_ops ops d g =
    ({| cards := take k (cards d); _dump := _dump d ++ dumped ops |}, g,
     reverse (drop k (cards d))).
Proof.
  revert d. induction ops as [|[|cs] ops IH]; intros d Hn k; subst k; simpl in *.
  - rewrite Nat.sub_0_r, firstn_all, drop_all, app_nil_r. by destruct d.
  - destruct (cards d) as [|x l] eqn:Hc using rev_ind; [simpl in Hn; lia|].
    clear IHl. rewrite length_app in *. simpl in *.
    rewrite (get_card_top d g l x Hc).
    rewrite IH by (simpl; lia). simpl.
    replace (length l + 1 - S (draws ops))%nat with (length l - draws ops)%nat by lia.
    rewrite take_app_le, drop_app_le by lia.
    by rewrite reverse_app.
  - rewrite IH by done. simpl. by rewrite <-app_assoc.
Qed.

Lemma draw_pile_is_a_stack_witness :
  run_ops [op_get_card; op_dump [7; 8]; op_get_card]%nat
    {| cards := [1; 2; 3]%nat; _dump := [9]%nat |} [5; 5]%nat
  = ({| cards := [1]%nat; _dump := [9; 7; 8]%nat |}, [5; 5]%nat, [3; 2]%nat).
Proof.
  assert (draws [op_get_card; op_dump [7; 8]%nat; op_get_card]
            ≤ length (cards {| cards := [1; 2; 3]%nat; _dump := [9]%nat |}))%nat as Hn
    by (simpl; lia).
  exact (draw_pile_is_a_stack _ _ [5; 5]%nat Hn).
Defined.

(** ** Cards by id *)

Section Mapping.
Context {C : Type} `{HasId C}.

Lemma mapping_snoc (cs : list C) (c : C) :
  Deck_mapping (cs ++ [c]) = <[card_ident c := c]> (Deck_mapping cs).
Proof. unfold Deck_mapping. by rewrite foldl_app. Qed.

Lemma mapping_lookup_Some (cs : list C) (i : Z) (c : C) :
  Deck_mapping cs !! i = Some c → c ∈ cs ∧ card_ident c = i.
Proof.
  induction cs as [|x cs IH] using rev_ind.
  { unfold Deck_mapping. simpl. by rewrite lookup_empty. }
  rewrite mapping_snoc, lookup_insert. case_decide as Hi.
  - intros [= ->]. split; [|done]. apply elem_of_app. right. by left.
  - intros [Hin ?]%IH. split; [|done]. apply elem_of_app. by left.
Qed.

Lemma mapping_lookup_None (cs : list C) (i : Z) :
  Deck_mapping cs !! i = None ↔ i ∉ card_ident <$> cs.
Proof.
  induction cs as [|x cs IH] using rev_ind.
  - unfold Deck_mapping. simpl. rewrite lookup_empty.
    split; [intros _ ?%elem_of_nil|]; done.
  - rewrite mapping_snoc, lookup_insert, fmap_app, not_elem_of_app.
    simpl. rewrite not_elem_of_cons. case_decide as Hi.
    + split; [done|]. intros (_ & Hne & _). by destruct Hne.
    + rewrite IH. split; [|tauto]. intros Hn. split_and!; [done|congruence|].
      by intros ?%elem_of_nil.
Qed.

Lemma mapping_lookup_NoDup (cs : list C) (c : C) :
  NoDup (card_ident <$> cs) → c ∈ cs → Deck_mapping cs !! card_ident c = Some c.
Proof.
  induction cs as [|x cs IH] using rev_ind; [by intros _ ?%elem_of_nil|].
  rewrite fmap_app, NoDup_app. intros (Hnd & Hdisj & _).
  rewrite mapping_snoc, lookup_insert, elem_of_app. case_decide as Hi.
  - intros [Hin|Hin].
    + exfalso. apply (Hdisj (card_ident c)).
      * apply list_elem_of_fmap. by exists c.
      * simpl. rewrite Hi. by left.
    + apply list_elem_of_singleton in Hin. by subst.
  - intros [Hin|Hin]; [by apply IH|].
    apply list_elem_of_singleton in Hin. by subst.
Qed.

(** X12: the card a deck finds for an id.  Whatever the shuffle,
    [get_card_by_uuid] finds nothing ([KeyError]) exactly for the ids no
    card of the deck has; what it finds is a card of the deck with that id;
    and when the cards of the deck have distinct ids it finds every card of
    the deck under its own id. *)
Theorem get_card_by_uuid_finds_the_card (cs : list C) (g : Rng) :
  let mapping := Deck_init_mapping cs g in
  (∀ i, Deck_get_card_by_uuid mapping i = None ↔ i ∉ card_ident <$> cs)
  ∧ (∀ i c, Deck_get_card_by_uuid mapping i = Some c → c ∈ cs ∧ card_ident c = i)
  ∧ (NoDup (card_ident <$> cs) →
       ∀ c, c ∈ cs → Deck_get_card_by_uuid mapping (card_ident c) = Some c).
Proof.
  intros mapping. subst mapping. unfold Deck_init_mapping, Deck_get_card_by_uuid.
  pose proof (shuffle_Permutation cs g) as Hp. split_and!.
  - intros i. rewrite mapping_lookup_None. by rewrite Hp.
  - intros i c [Hin ?]%mapping_lookup_Some. split; [|done]. by rewrite <-Hp.
  - intros Hnd c Hin. apply mapping_lookup_NoDup.
    + by rewrite Hp.
    + by rewrite Hp.
Qed.
End Mapping.

(** ** The first deal *)

Lemma deal_card_Ok pl (w : World) :
  piles (punchlines (lobby w)) ≠ [] →
  ∃ w1 d,
    deal_card pl w = (Ok tt, w1)
    ∧ length (hand (player_at w1 pl)) = S (length (hand (player_at w pl)))
    ∧ (∀ q, q ≠ pl → player_at w1 q = player_at w q)
    ∧ lobby w1 = set_punchlines d (lobby w)
    ∧ length (piles (punchlines (lobby w))) = S (length (piles d)).
Proof.
  intros Hne. destruct (draw_punchline_Ok w Hne) as (c & d & g & Hd & Hlen).
  unfold deal_card, bind. rewrite Hd.
  unfold Lobby.add_punchline_card, modify_player, player_at. simpl.
  eexists _, d. split; [done|]. simpl. rewrite lookup_total_insert_eq. simpl.
  rewrite length_app. simpl. split_and!; [lia| |done|done].
  intros q Hq. by rewrite lookup_total_insert_ne.
Qed.

Lemma deal_cards_Ok pl (k : nat) :
  ∀ w : World,
    (k ≤ length (piles (punchlines (lobby w))))%nat →
    ∃ w1 d,
      repeat_n k (deal_card pl) w = (Ok tt, w1)
      ∧ length (hand (player_at w1 pl)) = (length (hand (player_at w pl)) + k)%nat
      ∧ (∀ q, q ≠ pl → player_at w1 q = player_at w q)
      ∧ lobby w1 = set_punchlines d (lobby w)
      ∧ (length (piles d) + k)%nat = length (piles (punchlines (lobby w))).
Proof.
  induction k as [|k IH]; intros w Hk.
  - exists w, (punchlines (lobby w)). simpl.
    split_and!; [done|lia|done|by destruct (lobby w)|lia].
  - destruct (deal_card_Ok pl w) as (w1 & d1 & Hb & Hh1 & Ho1 & Hl1 & Hp1).
    { intros Hnil. rewrite Hnil in Hk. simpl in Hk. lia. }
    destruct (IH w1) as (w2 & d2 & Hr & Hh2 & Ho2 & Hl2 & Hp2).
    { rewrite Hl1. simpl. lia. }
    exists w2, d2. simpl. unfold bind. rewrite Hb, Hr.
    rewrite Hl1 in Hp2. simpl in Hp2.
    split_and!; [done|lia| |by rewrite Hl2, Hl1|lia].
    intros q Hq. by rewrite Ho2, Ho1.
Qed.

Lemma deal_hands_Ok (ps : list pid) :
  NoDup ps →
  ∀ w : World,
    (HAND_SIZE * length ps ≤ length (piles (punchlines (lobby w))))%nat →
    ∃ w' d,
      for_each ps deal_hand w = (Ok tt, w')
      ∧ (∀ p, p ∈ ps →
           length (hand (player_at w' p)) = (length (hand (player_at w p)) + HAND_SIZE)%nat)
      ∧ (∀ q, q ∉ ps → player_at w' q = player_at w q)
      ∧ lobby w' = set_punchlines d (lobby w)
      ∧ (length (piles d) + HAND_SIZE * length ps)%nat
          = length (piles (punchlines (lobby w))).
Proof.
  induction 1 as [|p ps Hnin Hnd IH]; intros w Hlen.
  - exists w, (punchlines (lobby w)). simpl.
    split_and!; [done| |done|by destruct (lobby w)|lia]. by intros p ?%elem_of_nil.
  - simpl length in *.
    destruct (deal_cards_Ok p HAND_SIZE w) as (w1 & d1 & Hb & Hh1 & Ho1 & Hl1 & Hp1);
      [unfold HAND_SIZE in *; lia|].
    assert (deal_hand p w = (Ok tt, set_events (events w1 ++ [(p, game_started p)]) w1))
      as Hdeal.
    { unfold deal_hand, bind. by rewrite Hb. }
    set (w2 := set_events _ w1) in Hdeal.
    destruct (IH w2) as (w' & d & Hloop & Hin & Hout & Hl' & Hp').
    { subst w2. simpl. rewrite Hl1. simpl. unfold HAND_SIZE in *. lia. }
    exists w', d. simpl. unfold bind. rewrite Hdeal, Hloop.
    assert (lobby w2 = lobby w1) as Hl2 by done.
    rewrite Hl2, Hl1 in Hp'. simpl in Hp'.
    split_and!; [done| | |by rewrite Hl', Hl2, Hl1|unfold HAND_SIZE in *; lia].
    + intros q Hq. apply elem_of_cons in Hq as [->|Hq].
      * rewrite (Hout p Hnin). exact Hh1.
      * rewrite (Hin q Hq). f_equal.
        change (player_at w2 q) with (player_at w1 q).
        rewrite Ho1; [done|]. by intros ->.
    + intros q [Hq1 Hq2]%not_elem_of_cons. rewrite (Hout q Hq2).
      change (player_at w2 q) with (player_at w1 q). by apply Ho1.
Qed.

Lemma start_turn_body_full new_setup pl (w : World) :
  length (hand (player_at w pl)) = HAND_SIZE →
  ∃ w1,
    start_turn_body new_setup pl w = (Ok tt, w1)
    ∧ lobby w1 = lobby w
    ∧ is_ready (player_at w1 pl) = false
    ∧ (∀ q, hand (player_at w1 q) = hand (player_at w q))
    ∧ (∀ q, q ≠ pl → player_at w1 q = player_at w q).
Proof.
  intros Hfull.
  unfold start_turn_body, bind, modify_player, get_player, get_lobby, player_at in *.
  simpl. rewrite lookup_total_insert_eq. simpl.
  rewrite bool_decide_eq_false_2 by (by intros Hne; apply Hne).
  unfold notify. simpl. eexists. split; [done|]. simpl.
  rewrite lookup_total_insert_eq. simpl. split_and!; [done|done| |].
  - intros q. destruct (decide (q = pl)) as [->|Hq].
    + by rewrite lookup_total_insert_eq.
    + by rewrite lookup_total_insert_ne.
  - intros q Hq. by rewrite lookup_total_insert_ne.
Qed.

Lemma start_turn_loop_full new_setup (ps : list pid) :
  ∀ w : World,
    (∀ p, p ∈ ps → length (hand (player_at w p)) = HAND_SIZE) →
    ∃ w',
      for_each ps (start_turn_body new_setup) w = (Ok tt, w')
      ∧ lobby w' = lobby w
      ∧ (∀ q, hand (player_at w' q) = hand (player_at w q))
      ∧ (∀ q, q ∉ ps → player_at w' q = player_at w q)
      ∧ (∀ p, p ∈ ps → is_ready (player_at w' p) = false).
Proof.
  induction ps as [|p ps IH]; intros w Hfull.
  - exists w. simpl. split_and!; [done..|]. by intros p ?%elem_of_nil.
  - destruct (start_turn_body_full new_setup p w) as (w1 & Hb & Hl1 & Hr1 & Hh1 & Ho1).
    { apply Hfull. by left. }
    destruct (IH w1) as (w' & Hloop & Hl' & Hh' & Ho' & Hr').
    { intros q Hq. rewrite Hh1. apply Hfull. by right. }
    exists w'. simpl. unfold bind. rewrite Hb, Hloop.
    split_and!; [done|by rewrite Hl'| | |].
    + intros q. by rewrite Hh', Hh1.
    + intros q [Hq1 Hq2]%not_elem_of_cons. by rewrite Ho', Ho1.
    + intros q Hq. destruct (decide (q ∈ ps)) as [Hin|Hnin]; [by apply Hr'|].
      apply elem_of_cons in Hq as [->|Hq]; [|done].
      by rewrite Ho'.
Qed.

Lemma Gathering_start_game_Ok (player : pid) (lobby_settings : LobbySettings)
    (sd : Deck SetupCard) (pd : Deck PunchlineCard) (w : World) :
  owner (lobby w) = Some player →
  NoDup (Lobby.all_players (lobby w)) →
  Lobby.all_players (lobby w) ≠ [] →
  (∀ p, p ∈ Lobby.all_players (lobby w) → hand (player_at w p) = []) →
  piles sd ≠ [] →
  (HAND_SIZE * length (Lobby.all_players (lobby w)) ≤ length (piles pd))%nat →
  ∃ w' setup timer,
    Gathering.start_game player lobby_settings sd pd w = (Ok tt, w')
    ∧ state (lobby w') = Turns setup timer
    ∧ settings (lobby w') = lobby_settings
    ∧ turn_count (lobby w') = turn_count (lobby w) + 1
    ∧ Lobby.all_players (lobby w') ≡ₚ Lobby.all_players (lobby w)
    ∧ (∀ p, p ∈ Lobby.all_players (lobby w) →
         length (hand (player_at w' p)) = HAND_SIZE
         ∧ is_ready (player_at w' p) = false)
    ∧ (length (piles (punchlines (lobby w')))
         + HAND_SIZE * length (Lobby.all_players (lobby w)))%nat = length (piles pd)
    ∧ S (length (piles (setups (lobby w')))) = length (piles sd)
    ∧ table (lobby w') = table (lobby w).
Proof.
  intros Hown Hnd Hne Hempty Hsd Hpd.
  unfold Gathering.start_game. unfold bind at 1, get_lobby at 1.
  rewrite bool_decide_eq_true_2 by done. cbn [negb].
  unfold bind at 1, modify_lobby at 1. unfold bind at 1, modify_lobby at 1.
  unfold bind at 1, modify_lobby at 1. unfold bind at 1, get_lobby at 1.
  cbv beta iota.
  set (w0 := set_lobby _ _).
  assert (Lobby.all_players (lobby w0) = Lobby.all_players (lobby w)) as Hall0 by done.
  rewrite Hall0.
  change (for_each ?l _) with (for_each l deal_hand).
  destruct (deal_hands_Ok _ Hnd w0) as (w1 & d1 & Hdeal & Hin1 & _ & Hl1 & Hp1);
    [exact Hpd|].
  unfold bind at 1. rewrite Hdeal.
  assert (Lobby.all_players (lobby w1) = Lobby.all_players (lobby w)) as Hall1
    by by rewrite Hl1.
  assert (∀ p, p ∈ Lobby.all_players (lobby w) →
            length (hand (player_at w1 p)) = HAND_SIZE) as Hfull1.
  { intros p Hp. rewrite (Hin1 p Hp).
    change (player_at w0 p) with (player_at w p). by rewrite (Hempty p Hp). }
  destruct (change_lead_Ok w1) as (p & rest & Hcl & Hperm); [by rewrite Hall1|].
  unfold Lobby.start_turn. unfold bind at 1. rewrite Hcl.
  set (w2 := set_lobby _ w1).
  destruct (get_card_nonempty (setups (lobby w2)) (rng w2)) as (new_setup & d & g & Hg).
  { subst w2. simpl. rewrite Hl1. exact Hsd. }
  assert (Lobby.draw_setup w2
          = (Ok new_setup, set_rng g (set_lobby (set_setups d (lobby w2)) w2))) as Hds.
  { unfold Lobby.draw_setup. by rewrite Hg. }
  unfold bind at 1. rewrite Hds.
  unfold bind at 1, modify_lobby at 1. unfold bind at 1, create_task at 1.
  unfold bind at 1, Lobby.transit_to, modify_lobby at 1.
  unfold bind at 1, get_lobby at 1. cbv beta iota.
  set (w3 := set_lobby _ _).
  change (for_each ?l _ w3) with (for_each l (start_turn_body new_setup) w3).
  assert (Lobby.all_players (lobby w3) = p :: rest) as Hall3 by done.
  rewrite Hall3.
  destruct (start_turn_loop_full new_setup (p :: rest) w3) as (w' & Hloop & Hl' & Hh' & _ & Hr').
  { intros q Hq. change (player_at w3 q) with (player_at w1 q).
    apply Hfull1. rewrite <-Hall1, <-Hperm. exact Hq. }
  exists w', new_setup, (next_task w1). rewrite Hloop.
  apply piles_length_get_card in Hg.
  assert (setups (lobby w2) = sd) as Hsd2 by (subst w2; simpl; by rewrite Hl1).
  rewrite Hsd2 in Hg.
  split_and!.
  - done.
  - by rewrite Hl'.
  - rewrite Hl'. subst w3 w2. simpl. by rewrite Hl1.
  - rewrite Hl'. subst w3 w2. simpl. by rewrite Hl1.
  - rewrite Hl'. rewrite Hall3, Hperm. by rewrite Hall1.
  - intros q Hq. rewrite Hh'. change (player_at w3 q) with (player_at w1 q).
    split; [by apply Hfull1|]. apply Hr'. rewrite Hperm, Hall1. exact Hq.
  - rewrite Hl'. subst w3 w2. simpl. rewrite Hl1. simpl. exact Hp1.
  - rewrite Hl'. subst w3 w2. simpl. by rewrite Hg.
  - rewrite Hl'. subst w3 w2. simpl. by rewrite Hl1.
Qed.

(** X13: the owner's [start_game] in the gathering phase deals the first
    round.  With distinct participants who hold no cards, a setup deck that
    is not empty and a punchline deck with HAND_SIZE cards for each
    participant, it ends normally in the first round's [Turns] phase with
    the given settings; every participant holds exactly HAND_SIZE cards and
    is not ready; the participants are the same; the punchline deck has
    lost exactly the cards dealt and the setup deck exactly one card; and
    the table is as it was. *)
Theorem start_game_deals_full_hands (player : pid) (lobby_settings : LobbySettings)
    (sd : Deck SetupCard) (pd : Deck PunchlineCard) (w : World) :
  owner (lobby w) = Some player →
  NoDup (Lobby.all_players (lobby w)) →
  Lobby.all_players (lobby w) ≠ [] →
  (∀ p, p ∈ Lobby.all_players (lobby w) → hand (player_at w p) = []) →
  piles sd ≠ [] →
  (HAND_SIZE * length (Lobby.all_players (lobby w)) ≤ length (piles pd))%nat →
  ∃ w' setup timer,
    Gathering.start_game player lobby_settings sd pd w = (Ok tt, w')
    ∧ state (lobby w') = Turns setup timer
    ∧ settings (lobby w') = lobby_settings
    ∧ turn_count (lobby w') = turn_count (lobby w) + 1
    ∧ Lobby.all_players (lobby w') ≡ₚ Lobby.all_players (lobby w)
    ∧ (∀ p, p ∈ Lobby.all_players (lobby w) →
         length (hand (player_at w' p)) = HAND_SIZE
         ∧ is_ready (player_at w' p) = false)
    ∧ (length (piles (punchlines (lobby w')))
         + HAND_SIZE * length (Lobby.all_players (lobby w)))%nat = length (piles pd)
    ∧ S (length (piles (setups (lobby w')))) = length (piles sd)
    ∧ table (lobby w') = table (lobby w).
Proof. apply Gathering_start_game_Ok. Qed.

Lemma start_game_deals_full_hands_witness :
  ∃ w' setup timer,
    Gathering.start_game 0%nat sample_settings sample_setups sample_punchlines
      sample_gathering = (Ok tt, w')
    ∧ state (lobby w') = Turns setup timer
    ∧ ∀ p, p ∈ Lobby.all_players (lobby sample_gathering) →
        length (hand (player_at w' p)) = HAND_SIZE
        ∧ is_ready (player_at w' p) = false.
Proof.
  assert (owner (lobby sample_gathering) = Some 0%nat) as Hown
    by (vm_compute; reflexivity).
  assert (Lobby.all_players (lobby sample_gathering) = [0; 1; 2]%nat) as Hall
    by (vm_compute; reflexivity).
  assert (NoDup (Lobby.all_players (lobby sample_gathering))) as Hnd
    by (apply (bool_decide_unpack _); vm_compute; exact I).
  assert (Lobby.all_players (lobby sample_gathering) ≠ []) as Hne
    by (vm_compute; discriminate).
  assert (∀ p, p ∈ Lobby.all_players (lobby sample_gathering) →
            hand (player_at sample_gathering p) = []) as Hempty.
  { intros p Hp. apply (Forall_forall (λ p, hand (player_at sample_gathering p) = [])
                          (Lobby.all_players (lobby sample_gathering))); [|exact Hp].
    apply (bool_decide_unpack _). vm_compute. exact I. }
  assert (piles sample_setups ≠ []) as Hsd by (vm_compute; discriminate).
  assert (HAND_SIZE * length (Lobby.all_players (lobby sample_gathering))
            ≤ length (piles sample_punchlines))%nat as Hpd
    by (apply (bool_decide_unpack _); vm_compute; exact I).
  pose proof (start_game_deals_full_hands 0%nat sample_settings sample_setups
                sample_punchlines sample_gathering Hown Hnd Hne Hempty Hsd Hpd) as H.
  destruct H as (w' & setup & timer & H1 & H2 & _ & _ & _ & H3 & _).
  exists w', setup, timer. split; [exact H1|]. split; [exact H2|exact H3].
Defined.

(** ** A round without a lead never ends *)

Lemma leaderless_same (w w' : World) :
  lead (lobby w') = lead (lobby w) → state (lobby w') = state (lobby w) →
  tasks w' = tasks w → leaderless_round w → leaderless_round w'.
Proof. unfold leaderless_round. by intros -> -> ->. Qed.

Lemma forallb_filter_true {A} (f : A → bool) (P : A → Prop) `{∀ x, Decision (P x)}
    (l : list A) :
  forallb f l = true → forallb f (filter P l) = true.
Proof.
  induction l as [|x l IH]; simpl; [done|].
  intros [Hx Hl]%andb_prop. rewrite filter_cons. case_decide; simpl; [|by apply IH].
  by rewrite Hx, IH.
Qed.

Section Leaderless.

Local Abbreviation L := leaderless_round.

Lemma leaderless_modify_player p f : preserves L (modify_player p f).
Proof. intros w Hw. by apply (leaderless_same w). Qed.
Lemma leaderless_notify p e : preserves L (notify p e).
Proof. intros w Hw. by apply (leaderless_same w). Qed.
Lemma leaderless_notify_all ps e : preserves L (notify_all ps e).
Proof. apply preserves_for_each. intros. apply leaderless_notify. Qed.
Lemma leaderless_random_choice h : preserves L (Turns.random_choice h).
Proof.
  intros w Hw. unfold Turns.random_choice. destruct (choice h (rng w)).
  by apply (leaderless_same w).
Qed.
Lemma leaderless_shuffle_table : preserves L Turns.shuffle_table.
Proof.
  intros w Hw. unfold Turns.shuffle_table. destruct (shuffle _ _).
  by apply (leaderless_same w).
Qed.
Lemma leaderless_draw_punchline : preserves L Lobby.draw_punchline.
Proof.
  intros w Hw. unfold Lobby.draw_punchline. destruct (Deck.get_card _ _) as [[r d] g].
  by apply (leaderless_same w).
Qed.
Lemma leaderless_cancel_task h : preserves L (cancel_task h).
Proof.
  intros w (Hl & Hs & Ht). split_and!; [done..|]. simpl.
  by apply forallb_filter_true.
Qed.
Lemma leaderless_modify_lobby f :
  (∀ l, lead (f l) = lead l) → (∀ l, state (f l) = state l) →
  preserves L (modify_lobby f).
Proof. intros Hl Hs w Hw. apply (leaderless_same w); simpl; auto. Qed.
Lemma leaderless_unlead : preserves L (modify_lobby (set_lead None)).
Proof. by intros w (Hl & Hs & Ht). Qed.
Lemma leaderless_get_lobby_bind {B} (k : Lobby → M B) :
  (∀ w, L w → L (k (lobby w) w).2) → preserves L (bind get_lobby k).
Proof. intros Hk w Hw. by apply Hk. Qed.

Ltac lprim :=
  first
    [ apply leaderless_modify_player | apply leaderless_notify
    | apply leaderless_notify_all | apply leaderless_random_choice
    | apply leaderless_shuffle_table | apply leaderless_draw_punchline
    | apply leaderless_cancel_task | apply leaderless_unlead
    | apply leaderless_modify_lobby; intros; reflexivity ].
Ltac lgo := repeat first [ solve [eauto] | lprim | preserves_step ].

Lemma leaderless_top_up n p : preserves L (Lobby.top_up n p).
Proof. unfold Lobby.add_punchline_card. induction n; simpl; lgo. Qed.
Lemma leaderless_put_card_on_table p c : preserves L (Turns.put_card_on_table p c).
Proof. unfold Turns.put_card_on_table. lgo. Qed.
Lemma leaderless_draw_hand n : preserves L (Turns.draw_hand n).
Proof. induction n; simpl; lgo. Qed.
Hint Resolve leaderless_top_up leaderless_put_card_on_table leaderless_draw_hand : core.

Lemma leaderless_end_turn setup : preserves L (Turns.end_turn setup).
Proof.
  unfold Turns.end_turn.
  apply preserves_bind; [lgo|intros l0].
  apply preserves_bind; [lgo|intros _].
  apply preserves_bind; [lgo|intros _].
  apply leaderless_get_lobby_bind. intros w Hw.
  assert (preserves L (notify_all (Lobby.all_players (lobby w)) all_players_ready ;;;
                       @raise unit NotImplementedError)) as Hp by lgo.
  destruct Hw as (Hl & Hs & Ht). rewrite Hl. by apply Hp.
Qed.
Hint Resolve leaderless_end_turn : core.

Lemma leaderless_try_end_turn setup timer : preserves L (Turns.try_end_turn setup timer).
Proof. unfold Turns.try_end_turn. lgo. Qed.
Hint Resolve leaderless_try_end_turn : core.

Lemma leaderless_refresh_hand p : preserves L (Turns.refresh_hand p).
Proof. unfold Turns.refresh_hand, Lobby.dump_punchlines. lgo. Qed.
Lemma leaderless_make_turn setup timer p c : preserves L (Turns.make_turn setup timer p c).
Proof. unfold Turns.make_turn. lgo. Qed.
Lemma leaderless_connect p : preserves L (Lobby.connect p).
Proof. unfold Lobby.connect, Lobby.add_player. lgo. Qed.
Lemma leaderless_state_end_turn : preserves L state_end_turn.
Proof. unfold state_end_turn. lgo. Qed.
Lemma leaderless_state_remove_player p : preserves L (state_remove_player p).
Proof.
  unfold state_remove_player. apply leaderless_get_lobby_bind. intros w Hw.
  pose proof Hw as (_ & Hs & _). destruct (state (lobby w)); try done.
  by apply leaderless_try_end_turn.
Qed.
Hint Resolve leaderless_refresh_hand leaderless_make_turn leaderless_connect
  leaderless_state_end_turn leaderless_state_remove_player : core.

Lemma leaderless_remove_player p : preserves L (Lobby_remove_player p).
Proof.
  unfold Lobby_remove_player, Lobby.change_owner, Lobby.dump_punchlines. lgo.
Qed.

Lemma leaderless_fire h : preserves L (fire h).
Proof.
  intros w Hw. unfold fire. unfold bind at 1, get_world at 1. cbv beta iota.
  destruct (list_find _ (tasks w)) as [[i [h' t]]|] eqn:Hf; [|done].
  apply list_find_Some in Hf as (Hi & _ & _).
  assert (is_turn_timer t = true) as Ht.
  { destruct Hw as (_ & _ & Hall). rewrite forallb_forall in Hall.
    apply (Hall (h', t)). apply list_elem_of_In. by eapply list_elem_of_lookup_2. }
  destruct t; try done.
  assert (preserves L (cancel_task h ;;; run_task turn_timer)) as Hp.
  { simpl. lgo. }
  by apply Hp.
Qed.

Lemma leaderless_step a : preserves L (step a).
Proof.
  destruct a; cbn [step].
  - unfold Lobby.add_player. lgo.
  - apply leaderless_remove_player.
  - unfold Player.connect. lgo.
  - unfold Player.disconnect, Lobby.disconnect. lgo.
  - unfold Player.start_game. apply leaderless_get_lobby_bind. intros w Hw.
    pose proof Hw as (_ & Hs & _). by destruct (state (lobby w)).
  - unfold Player.refresh_hand. apply leaderless_get_lobby_bind. intros w Hw.
    pose proof Hw as (_ & Hs & _). destruct (state (lobby w)); try done.
    by apply leaderless_refresh_hand.
  - apply (preserves_bind L (Player.make_turn player card) (λ _, ret tt));
      [|intros; apply preserves_ret].
    unfold Player.make_turn. apply leaderless_get_lobby_bind. intros w Hw.
    pose proof Hw as (_ & Hs & _). destruct (state (lobby w)); try done.
    match goal with
    | |- L (bind ?m ?k w).2 => apply (preserves_bind L m k); [| |exact Hw]
    end.
    + apply leaderless_make_turn.
    + intros _. unfold Lobby.get_card_from_table. lgo.
  - unfold Player.open_table_card. apply leaderless_get_lobby_bind. intros w Hw.
    pose proof Hw as (_ & Hs & _). by destruct (state (lobby w)).
  - unfold Player.pick_turn_winner. apply leaderless_get_lobby_bind. intros w Hw.
    pose proof Hw as (_ & Hs & _). by destruct (state (lobby w)).
  - unfold Player.continue_game. apply leaderless_get_lobby_bind. intros w Hw.
    pose proof Hw as (_ & Hs & _). by destruct (state (lobby w)).
  - apply leaderless_fire.
Qed.

Lemma end_turn_without_lead setup (w : World) :
  L w → ∃ e, (Turns.end_turn setup w).1 = Raise e.
Proof.
  intros Hw. unfold Turns.end_turn. unfold bind at 1, get_lobby at 1. cbv beta iota.
  unfold bind at 1.
  match goal with
  | |- context [for_each ?ps ?body w] =>
      assert (L (for_each ps body w).2) as Hloop
        by (assert (preserves L (for_each ps body)) as Hp by lgo; by apply Hp);
      destruct (for_each ps body w) as [[[]|e] w1]
  end; [|by eexists].
  simpl in Hloop. unfold bind at 1, Turns.shuffle_table at 1.
  destruct (shuffle (table (lobby w1)) (rng w1)) as [t g].
  unfold bind at 1, get_lobby at 1. unfold bind at 1. rewrite notify_all_run.
  destruct Hloop as (Hl & _). simpl. rewrite Hl. by eexists.
Qed.

End Leaderless.

(** X14: a round whose lead has left never ends.  Once the lobby is in
    the [Turns] phase without a lead and only round timers are scheduled,
    it stays so whatever happens next: no sequence of joins, removals,
    connections, moves, restarts or timers brings a lead or another phase,
    and [end_turn] raises whenever it is called. *)
Theorem round_without_lead_never_ends (acts : list Action) (w : World) :
  leaderless_round w →
  leaderless_round (run acts w)
  ∧ ∀ setup, ∃ e, (Turns.end_turn setup (run acts w)).1 = Raise e.
Proof.
  intros Hw.
  assert (leaderless_round (run acts w)) as Hrun.
  { revert w Hw. induction acts as [|a acts IH]; intros w Hw; simpl; [done|].
    apply IH. by apply leaderless_step. }
  split; [done|]. intros setup. by apply end_turn_without_lead.
Qed.

Lemma round_without_lead_never_ends_witness :
  leaderless_round
    (run [act_make_turn 1%nat (sample_card 30); act_task 0%nat;
          act_make_turn 2%nat (sample_card 20)] sample_leaderless).
Proof.
  assert (leaderless_round sample_leaderless) as Hw.
  { split_and!; vm_compute; [reflexivity|exact I|reflexivity]. }
  pose proof (round_without_lead_never_ends
                [act_make_turn 1%nat (sample_card 30); act_task 0%nat;
                 act_make_turn 2%nat (sample_card 20)] sample_leaderless Hw) as H.
  destruct H as [H _]. exact H.
Defined.

(** ** Opening the table *)

Lemma open_entry_prefix (pre rest : list CardOnTable) (e : CardOnTable) :
  Forall (λ c, is_open c = true) pre →
  Judgement.open_entry e (pre ++ e :: rest) = pre ++ opened e :: rest.
Proof.
  induction 1 as [|c pre Hc Hpre IH]; cbn [Judgement.open_entry app].
  - by rewrite bool_decide_eq_true_2.
  - case_bool_decide as Hce.
    + subst c. assert (opened e = e) as He by (destruct e; simpl in *; by subst).
      fold (opened e). by rewrite !He.
    + by rewrite IH.
Qed.

Lemma open_table_card_run ld e (w : World) :
  lead (lobby w) = Some ld →
  Judgement.open_table_card ld e w =
    (Ok tt,
     set_events (events w ++ map (λ p, (p, table_card_opened (opened e)))
                               (Lobby.all_players (lobby w)))
       (set_lobby (set_table (Judgement.open_entry e (table (lobby w))) (lobby w)) w)).
Proof.
  intros Hl. unfold Judgement.open_table_card, bind, get_lobby, modify_lobby.
  rewrite Hl, bool_decide_eq_true_2 by done. simpl. by rewrite notify_all_run.
Qed.

Lemma open_table_card_all ld (rest : list CardOnTable) :
  ∀ (pre : list CardOnTable) (w : World),
    lead (lobby w) = Some ld →
    table (lobby w) = pre ++ rest →
    Forall (λ c, is_open c = true) pre →
    ∃ w',
      for_each rest (Judgement.open_table_card ld) w = (Ok tt, w')
      ∧ lobby w' = set_table (pre ++ (opened <$> rest)) (lobby w)
      ∧ heap w' = heap w.
Proof.
  induction rest as [|e rest IH]; intros pre w Hl Ht Hpre.
  - exists w. simpl. rewrite app_nil_r, <-(app_nil_r pre), <-Ht.
    split_and!; [done| |done]. by destruct (lobby w).
  - cbn [for_each]. unfold bind. rewrite (open_table_card_run ld e w Hl).
    rewrite Ht, (open_entry_prefix pre rest e Hpre).
    set (w1 := set_events _ _).
    destruct (IH (pre ++ [opened e]) w1) as (w' & Hrun & Hl' & Hh').
    + done.
    + subst w1. simpl. by rewrite <-app_assoc.
    + apply Forall_app. split; [done|]. by apply Forall_singleton.
    + exists w'. rewrite Hrun. split_and!; [done| |done].
      rewrite Hl'. subst w1. simpl. by rewrite <-app_assoc.
Qed.

(** X15: opening the table.  Only the lead may open an entry: anybody
    else gets [PlayerNotLeadError] and changes nothing.  When the lead opens
    the entries of the table one after the other, every call returns, the
    table holds the same cards of the same players in the same order, all
    face up, nothing else in the lobby and no player object changes, and
    [pick_turn_winner] then returns for every card that is on the table. *)
Theorem lead_opens_the_table (ld : pid) (w : World) :
  lead (lobby w) = Some ld →
  (∀ player e, player ≠ ld →
     Judgement.open_table_card player e w = (Raise PlayerNotLeadError, w))
  ∧ ∃ w',
      for_each (table (lobby w)) (Judgement.open_table_card ld) w = (Ok tt, w')
      ∧ lobby w' = set_table (opened <$> table (lobby w)) (lobby w)
      ∧ heap w' = heap w
      ∧ ∀ setup card c,
          c ∈ table (lobby w) → card_obj (cot_card c) = card_obj card →
          (Judgement.pick_turn_winner setup ld card w').1 = Ok tt.
Proof.
  intros Hl. split.
  - intros player e Hp. unfold Judgement.open_table_card, bind, get_lobby.
    rewrite Hl, bool_decide_eq_false_2 by congruence. done.
  - destruct (open_table_card_all ld (table (lobby w)) [] w Hl eq_refl)
      as (w' & Hrun & Hl' & Hh'); [done|].
    exists w'. simpl in Hl'. split_and!; [done..|].
    intros setup card c Hin Hc.
    assert (lead (lobby w') = Some ld) as Hlead' by by rewrite Hl'.
    assert (existsb (λ c, negb (is_open c)) (table (lobby w')) = false) as Hopen.
    { rewrite Hl'. simpl. clear. induction (table (lobby w)) as [|x t IH]; [done|].
      simpl. exact IH. }
    destruct (find (λ c, card_is card (cot_card c)) (table (lobby w'))) as [cot|] eqn:Hf.
    + by rewrite (pick_turn_winner_run setup ld card cot w' Hlead' Hopen Hf).
    + exfalso. assert (opened c ∈ table (lobby w')) as Hin'.
      { rewrite Hl'. simpl. apply list_elem_of_fmap. by exists c. }
      apply list_elem_of_In in Hin'.
      pose proof (find_none _ _ Hf _ Hin') as Hn. simpl in Hn.
      unfold card_is in Hn. apply bool_decide_eq_false_1 in Hn. congruence.
Qed.

Lemma lead_opens_the_table_witness :
  ∃ w', for_each (table (lobby sample_judgement)) (Judgement.open_table_card 0%nat)
          sample_judgement = (Ok tt, w')
        ∧ heap w' = heap sample_judgement.
Proof.
  assert (lead (lobby sample_judgement) = Some 0%nat) as Hl by (vm_compute; reflexivity).
  pose proof (lead_opens_the_table 0%nat sample_judgement Hl) as H.
  destruct H as (_ & w' & H1 & _ & H2 & _).
  exists w'. split; [exact H1|exact H2].
Defined.

(** ** The setup card of the round that is over *)

Lemma start_turn_after_dump (setup : SetupCard) (w : World) :
  NoDup (Lobby.all_players (lobby w)) →
  Lobby.all_players (lobby w) ≠ [] →
  (length (Lobby.all_players (lobby w)) ≤ length (piles (punchlines (lobby w))))%nat →
  ∃ w' setup' timer,
    (Lobby.dump_setups [setup] ;;; Lobby.start_turn) w = (Ok tt, w')
    ∧ state (lobby w') = Turns setup' timer
    ∧ setup' :: piles (setups (lobby w')) ≡ₚ setup :: piles (setups (lobby w))
    ∧ turn_count (lobby w') = turn_count (lobby w) + 1
    ∧ is_game_endless (lobby w') = is_game_endless (lobby w)
    ∧ Lobby.all_players (lobby w') ≡ₚ Lobby.all_players (lobby w).
Proof.
  intros Hnd Hne Hlen.
  unfold bind at 1, Lobby.dump_setups, modify_lobby at 1.
  set (w0 := set_lobby _ w).
  assert (Lobby.all_players (lobby w0) = Lobby.all_players (lobby w)) as Hall0 by done.
  destruct (change_lead_Ok w0) as (p & rest & Hcl & Hperm); [by rewrite Hall0|].
  unfold Lobby.start_turn. unfold bind at 1. rewrite Hcl.
  set (w1 := set_lobby _ w0).
  destruct (get_card_nonempty (setups (lobby w1)) (rng w1)) as (new_setup & d & g & Hg).
  { subst w1 w0. unfold piles. simpl. intros Hnil.
    apply app_eq_nil in Hnil as [_ Hnil]. by apply app_eq_nil in Hnil as [_ ?]. }
  assert (Lobby.draw_setup w1
          = (Ok new_setup, set_rng g (set_lobby (set_setups d (lobby w1)) w1))) as Hds.
  { unfold Lobby.draw_setup. by rewrite Hg. }
  unfold bind at 1. rewrite Hds.
  unfold bind at 1, modify_lobby at 1. unfold bind at 1, create_task at 1.
  unfold bind at 1, Lobby.transit_to, modify_lobby at 1.
  unfold bind at 1, get_lobby at 1. cbv beta iota.
  set (w2 := set_lobby _ _).
  change (for_each ?l _ w2) with (for_each l (start_turn_body new_setup) w2).
  assert (Lobby.all_players (lobby w2) = p :: rest) as Hall by done.
  rewrite Hall.
  destruct (start_turn_loop_Ok new_setup (p :: rest)) with (w := w2)
    as (w' & d' & Hloop & _ & _ & Hl').
  { by rewrite Hperm, Hall0. }
  { rewrite (Permutation_length Hperm), Hall0. exact Hlen. }
  exists w', new_setup, (next_task w). rewrite Hloop.
  apply get_card_Ok in Hg.
  split_and!; [done|by rewrite Hl'| |by rewrite Hl'|by rewrite Hl'|].
  - rewrite Hl'. subst w2 w1 w0. simpl in *. unfold piles.
    rewrite (Permutation_middle (cards d)). simpl in Hg. rewrite Hg.
    rewrite (Permutation_app_comm (_dump _)). simpl.
    by rewrite Permutation_middle.
  - rewrite Hl'. simpl. change (p :: rest ≡ₚ Lobby.all_players (lobby w)).
    by rewrite Hperm.
Qed.

(** X16: the next round never wants for a setup card.  [start_turn] in
    Judgement and [continue_game] in Finished first give the setup card of
    the round that is over back to the deck; so, with distinct participants
    and a punchline card for each, they return in a new [Turns] round
    whatever the setup deck held, and the setup card of the new round
    together with the setup deck holds exactly the cards that the old setup
    card and the old deck held.  [continue_game] is for the owner alone
    (anybody else gets [PlayerNotOwnerError] and changes nothing) and turns
    the endless mode on. *)
Theorem next_round_recycles_the_setup (setup : SetupCard) (player : pid) (w : World) :
  NoDup (Lobby.all_players (lobby w)) →
  Lobby.all_players (lobby w) ≠ [] →
  (length (Lobby.all_players (lobby w)) ≤ length (piles (punchlines (lobby w))))%nat →
  (∃ w' setup' timer,
     Judgement.start_turn setup w = (Ok tt, w')
     ∧ state (lobby w') = Turns setup' timer
     ∧ turn_count (lobby w') = turn_count (lobby w) + 1
     ∧ setup' :: piles (setups (lobby w')) ≡ₚ setup :: piles (setups (lobby w)))
  ∧ (owner (lobby w) = Some player →
     ∃ w' setup' timer,
       Finished.continue_game setup player w = (Ok tt, w')
       ∧ state (lobby w') = Turns setup' timer
       ∧ is_game_endless (lobby w') = true
       ∧ turn_count (lobby w') = turn_count (lobby w) + 1
       ∧ setup' :: piles (setups (lobby w')) ≡ₚ setup :: piles (setups (lobby w)))
  ∧ (owner (lobby w) ≠ Some player →
     Finished.continue_game setup player w = (Raise PlayerNotOwnerError, w)).
Proof.
  intros Hnd Hne Hlen. split_and!.
  - destruct (start_turn_after_dump setup w Hnd Hne Hlen)
      as (w' & setup' & timer & Hrun & Hst & Hp & Htc & _).
    by exists w', setup', timer.
  - intros Hown. unfold Finished.continue_game, Finished.start_turn.
    unfold bind at 1, get_lobby at 1. rewrite bool_decide_eq_true_2 by done.
    cbn [negb]. unfold bind at 1, modify_lobby at 1.
    set (w0 := set_lobby _ w).
    destruct (start_turn_after_dump setup w0) as (w' & setup' & timer & Hrun & Hst & Hp & Htc & He & _);
      [done..|].
    exists w', setup', timer. split_and!; [done|done|by rewrite He|done|done].
  - intros Hown. unfold Finished.continue_game, bind, get_lobby.
    by rewrite bool_decide_eq_false_2.
Qed.

Lemma next_round_recycles_the_setup_witness :
  ∃ w' setup' timer,
    Finished.continue_game (sample_setup 5) 0%nat sample_finished = (Ok tt, w')
    ∧ state (lobby w') = Turns setup' timer
    ∧ is_game_endless (lobby w') = true.
Proof.
  assert (NoDup (Lobby.all_players (lobby sample_finished))) as Hnd
    by (apply (bool_decide_unpack _); vm_compute; exact I).
  assert (Lobby.all_players (lobby sample_finished) ≠ []) as Hne
    by (vm_compute; discriminate).
  assert (length (Lobby.all_players (lobby sample_finished))
            ≤ length (piles (punchlines (lobby sample_finished))))%nat as Hlen
    by (apply (bool_decide_unpack _); vm_compute; exact I).
  assert (owner (lobby sample_finished) = Some 0%nat) as Hown
    by (vm_compute; reflexivity).
  pose proof (next_round_recycles_the_setup (sample_setup 5) 0%nat sample_finished
                Hnd Hne Hlen) as H.
  destruct H as (_ & H & _). destruct (H Hown) as (w' & setup' & timer & H1 & H2 & H3 & _).
  exists w', setup', timer. split; [exact H1|]. split; [exact H2|exact H3].
Defined.

(** ** Who writes to a score *)

Section ScoreKept.
Context (p : pid) (s : Z).

Local Abbreviation K := (λ w : World, score (player_at w p) = s).

Lemma kept_heap {A} (m : M A) : (∀ w, heap (m w).2 = heap w) → preserves K m.
Proof. intros Hm w Hw. unfold player_at in *. by rewrite Hm. Qed.

Lemma kept_modify_player q f :
  (∀ x, score (f x) = score x) → preserves K (modify_player q f).
Proof.
  intros Hf w Hw. unfold modify_player, player_at in *. simpl.
  destruct (decide (p = q)) as [->|Hpq].
  - by rewrite lookup_total_insert_eq, Hf.
  - by rewrite lookup_total_insert_ne.
Qed.

Lemma kept_modify_lobby f : preserves K (modify_lobby f).
Proof. by apply kept_heap. Qed.
Lemma kept_notify q e : preserves K (notify q e).
Proof. by apply kept_heap. Qed.
Lemma kept_notify_all ps e : preserves K (notify_all ps e).
Proof. apply preserves_for_each. intros. apply kept_notify. Qed.
Lemma kept_create_task t : preserves K (create_task t).
Proof. by apply kept_heap. Qed.
Lemma kept_cancel_task h : preserves K (cancel_task h).
Proof. by apply kept_heap. Qed.
Lemma kept_random_choice h : preserves K (Turns.random_choice h).
Proof.
  apply kept_heap. intros w. unfold Turns.random_choice. by destruct (choice h (rng w)).
Qed.
Lemma kept_shuffle_table : preserves K Turns.shuffle_table.
Proof.
  apply kept_heap. intros w. unfold Turns.shuffle_table. by destruct (shuffle _ _).
Qed.
Lemma kept_draw_punchline : preserves K Lobby.draw_punchline.
Proof.
  apply kept_heap. intros w. unfold Lobby.draw_punchline.
  by destruct (Deck.get_card _ _) as [[r d] g].
Qed.
Lemma kept_draw_setup : preserves K Lobby.draw_setup.
Proof.
  apply kept_heap. intros w. unfold Lobby.draw_setup.
  by destruct (Deck.get_card _ _) as [[r d] g].
Qed.

Ltac kprim :=
  first
    [ apply kept_modify_lobby | apply kept_notify | apply kept_notify_all
    | apply kept_create_task | apply kept_cancel_task | apply kept_random_choice
    | apply kept_shuffle_table | apply kept_draw_punchline | apply kept_draw_setup
    | apply kept_modify_player; intros; reflexivity ].
Ltac kgo := repeat first [ solve [eauto] | kprim | preserves_step ].

Lemma kept_top_up n q : preserves K (Lobby.top_up n q).
Proof. unfold Lobby.add_punchline_card. induction n; simpl; kgo. Qed.
Lemma kept_start_turn : preserves K Lobby.start_turn.
Proof.
  unfold Lobby.start_turn, Lobby.change_lead, Lobby.transit_to, Lobby.add_punchline_card.
  kgo.
Qed.
Lemma kept_put_card_on_table q c : preserves K (Turns.put_card_on_table q c).
Proof. unfold Turns.put_card_on_table. kgo. Qed.
Hint Resolve kept_top_up kept_start_turn kept_put_card_on_table : core.

Lemma kept_end_turn setup : preserves K (Turns.end_turn setup).
Proof. unfold Turns.end_turn, Lobby.transit_to. kgo. Qed.
Hint Resolve kept_end_turn : core.

Lemma kept_try_end_turn setup timer : preserves K (Turns.try_end_turn setup timer).
Proof. unfold Turns.try_end_turn. kgo. Qed.
Hint Resolve kept_try_end_turn : core.

Lemma kept_Gathering_start_game q ls sd pd : preserves K (Gathering.start_game q ls sd pd).
Proof. unfold Gathering.start_game, Lobby.add_punchline_card. kgo. Qed.

Lemma kept_remove_player q : preserves K (Lobby_remove_player q).
Proof.
  unfold Lobby_remove_player, Lobby.change_owner, Lobby.dump_punchlines,
    state_remove_player, Turns.remove_player, Judgement.remove_player,
    Judgement.start_voting.
  kgo.
Qed.

Lemma kept_run_task t : preserves K (run_task t).
Proof.
  destruct t; simpl;
    unfold state_end_turn, Judgement.finish_game, Judgement.start_turn,
      Lobby.dump_setups, Lobby.transit_to; kgo.
Qed.
Hint Resolve kept_run_task : core.

Lemma kept_step a : writes_score a = false → preserves K (step a).
Proof.
  destruct a; try done; intros _; cbn [step].
  - unfold Lobby.add_player. kgo.
  - apply kept_remove_player.
  - unfold Player.connect, Lobby.connect, Lobby.add_player. kgo.
  - unfold Player.disconnect, Lobby.disconnect. kgo.
  - unfold Player.make_turn, Turns.make_turn, Lobby.get_card_from_table. kgo.
  - unfold Player.open_table_card, Judgement.open_table_card. kgo.
  - unfold Player.continue_game, Finished.continue_game, Finished.start_turn,
      Lobby.dump_setups. kgo.
  - unfold fire. kgo.
Qed.

End ScoreKept.

(** X17: three actions write to a score, and nothing else does.  Along
    every run of actions that holds no [pick_turn_winner], no [refresh_hand]
    and no [start_game], whether the actions return or raise and whatever
    timers go off in between, every player keeps its score; and a
    [start_game] in the gathering phase keeps every score too. *)
Theorem score_is_written_by_three_actions (acts : list Action) (w : World) (p : pid) :
  forallb (λ a, negb (writes_score a)) acts = true →
  score (player_at (run acts w) p) = score (player_at w p)
  ∧ ∀ player ls sd pd,
      state (lobby (run acts w)) = Gathering →
      score (player_at (step (act_start_game player ls sd pd) (run acts w)).2 p)
        = score (player_at w p).
Proof.
  intros Hacts.
  assert (score (player_at (run acts w) p) = score (player_at w p)) as Hrun.
  { revert w Hacts. induction acts as [|a acts IH]; intros w Hacts; simpl; [done|].
    simpl in Hacts. apply andb_prop in Hacts as [Ha Hacts].
    rewrite (IH _ Hacts).
    apply (kept_step p (score (player_at w p)) a); [by destruct (writes_score a)|done]. }
  split; [done|]. intros player ls sd pd Hst.
  cbn [step]. unfold Player.start_game. unfold bind at 1, get_lobby at 1. rewrite Hst.
  by apply (kept_Gathering_start_game p (score (player_at w p))).
Qed.

Lemma score_is_written_by_three_actions_witness :
  score (player_at
           (run [act_disconnect 2%nat; act_make_turn 1%nat (sample_card 30);
                 act_task 0%nat; act_remove_player 2%nat] sample_turns) 1%nat)
  = score (player_at sample_turns 1%nat).
Proof.
  assert (forallb (λ a, negb (writes_score a))
            [act_disconnect 2%nat; act_make_turn 1%nat (sample_card 30);
             act_task 0%nat; act_remove_player 2%nat] = true) as Hacts by reflexivity.
  pose proof (score_is_written_by_three_actions _ sample_turns 1%nat Hacts) as H.
  destruct H as [H _]. exact H.
Defined.

(** ** Restarting a finished game *)

(** X18: the owner's [start_game] on a finished game deals a fresh game.
    With distinct participants, a setup deck that is not empty and a
    punchline deck with HAND_SIZE cards for each participant, whatever the
    hands, the scores and the table were, it returns in round 1 of a new
    game with the given settings: the table is empty, every participant
    holds exactly HAND_SIZE cards of the new deck, has no point and is not
    ready. *)
Theorem restart_deals_a_fresh_game (player : pid) (lobby_settings : LobbySettings)
    (sd : Deck SetupCard) (pd : Deck PunchlineCard) (w : World) :
  owner (lobby w) = Some player →
  NoDup (Lobby.all_players (lobby w)) →
  Lobby.all_players (lobby w) ≠ [] →
  piles sd ≠ [] →
  (HAND_SIZE * length (Lobby.all_players (lobby w)) ≤ length (piles pd))%nat →
  ∃ w' setup timer,
    Finished.start_game player lobby_settings sd pd w = (Ok tt, w')
    ∧ state (lobby w') = Turns setup timer
    ∧ settings (lobby w') = lobby_settings
    ∧ turn_count (lobby w') = 1
    ∧ table (lobby w') = []
    ∧ Lobby.all_players (lobby w') ≡ₚ Lobby.all_players (lobby w)
    ∧ (∀ p, p ∈ Lobby.all_players (lobby w) →
         length (hand (player_at w' p)) = HAND_SIZE
         ∧ score (player_at w' p) = 0
         ∧ is_ready (player_at w' p) = false)
    ∧ (length (piles (punchlines (lobby w')))
         + HAND_SIZE * length (Lobby.all_players (lobby w)))%nat = length (piles pd).
Proof.
  intros Hown Hnd Hne Hsd Hpd. unfold Finished.start_game.
  unfold bind at 1, modify_lobby at 1. unfold bind at 1, modify_lobby at 1.
  unfold bind at 1, get_lobby at 1. cbv beta iota.
  set (w0 := set_lobby _ _).
  destruct (reset_players_run (Lobby.all_players (lobby w0)) w0) as (h & Hrun & Hin & _).
  unfold bind at 1. rewrite Hrun.
  unfold bind at 1, Lobby.transit_to, modify_lobby at 1.
  set (w1 := set_lobby _ _).
  assert (Lobby.all_players (lobby w1) = Lobby.all_players (lobby w)) as Hall by done.
  destruct (Gathering_start_game_Ok player lobby_settings sd pd w1)
    as (w' & setup & timer & Hgo & Hst & Hset & Htc & Hperm & Hhands & Hpiles & _ & Htable).
  { done. }
  { by rewrite Hall. }
  { by rewrite Hall. }
  { intros p Hp. rewrite Hall in Hp. by destruct (Hin p Hp). }
  { done. }
  { by rewrite Hall. }
  exists w', setup, timer. rewrite Hall in *.
  split_and!; [done|done|done|by rewrite Htc|by rewrite Htable|done| |done].
  intros p Hp. destruct (Hhands p Hp) as [Hh Hr]. split_and!; [done| |done].
  pose proof (kept_Gathering_start_game p 0 player lobby_settings sd pd w1) as Hk.
  rewrite Hgo in Hk. apply Hk. by destruct (Hin p Hp).
Qed.

Lemma restart_deals_a_fresh_game_witness :
  ∃ w' setup timer,
    Finished.start_game 0%nat sample_settings sample_setups sample_punchlines
      sample_finished = (Ok tt, w')
    ∧ state (lobby w') = Turns setup timer
    ∧ turn_count (lobby w') = 1.
Proof.
  assert (owner (lobby sample_finished) = Some 0%nat) as Hown
    by (vm_compute; reflexivity).
  assert (NoDup (Lobby.all_players (lobby sample_finished))) as Hnd
    by (apply (bool_decide_unpack _); vm_compute; exact I).
  assert (Lobby.all_players (lobby sample_finished) ≠ []) as Hne
    by (vm_compute; discriminate).
  assert (piles sample_setups ≠ []) as Hsd by (vm_compute; discriminate).
  assert (HAND_SIZE * length (Lobby.all_players (lobby sample_finished))
            ≤ length (piles sample_punchlines))%nat as Hpd
    by (apply (bool_decide_unpack _); vm_compute; exact I).
  pose proof (restart_deals_a_fresh_game 0%nat sample_settings sample_setups
                sample_punchlines sample_finished Hown Hnd Hne Hsd Hpd) as H.
  destruct H as (w' & setup & timer & H1 & H2 & _ & H3 & _).
  exists w', setup, timer. split; [exact H1|]. split; [exact H2|exact H3].
Defined.
